(** * gitfeed: the tree renderer and the content concatenator of [gitfeed.py]

    A shallow embedding of [gitfeed.py] and the properties its specification
    states about it.

    - Python [str] values are Rocq [string]s: the bytes of their UTF-8
      encoding.  Every character the program inspects ([/], [.], the
      letters of [.git]) is ASCII, and the byte-wise lexicographic order of
      valid UTF-8 text is the code-point order Python's [sorted] uses
      ([utf8_order]).  [str.lower] is modelled on the ASCII letters: the
      statements that depend on letter case are for ASCII text.
    - The filesystem a function observes is a tree of files and
      directories ([node]), each directory with its entries in the order
      the operating system lists them.  A path is the list of its segments
      below the clone together with the node it leads to.  What the
      operating system answers ([listdir], [getsize], [open] and [read]) is
      data of the tree.  Symbolic links are in the clone on disk ([disk]):
      the renderer observes it through the calls that follow links
      ([followed]), the walk as [os.walk] does, which does not enter the
      directories links lead to ([walked]).
    - Code that may raise returns a [result]; the statements of [main] that
      print and write run in a state monad over the console and the
      contents file, with exceptions and [continue] as outcomes.
    - Recursion on paths is by fuel, and the functions are given the depth
      of the tree as fuel, which is shown to be enough: the recursion limit
      of the interpreter is not modelled.
    - Printing, and writing to a file that is open, do not fail.  Python
      cannot write a name that is not valid UTF-8 to the output files: the
      statements about what [main] leaves are for names that are valid
      UTF-8.
    - The size limit is a Python [float]: a double, with its infinities and
      NaN. *)

From Stdlib Require Import String Ascii List ZArith QArith_base Lia Bool Arith.

Set Warnings "-register-all".

From Stdlib Require Import Sorting.Sorted Sorting.Permutation DecimalString.

Import ListNotations.

Local Open Scope list_scope.

Local Open Scope string_scope.

(* ================================================================= *)
(** * Python string and list primitives *)

Module Py.

(** [s.startswith(p)] *)
Fixpoint startswith (s p : string) {struct p} : bool :=
  match p with
  | EmptyString => true
  | String b p' =>
      match s with
      | EmptyString => false
      | String a s' => Ascii.eqb a b && startswith s' p'
      end
  end.

(** [s.endswith(p)] *)
Definition endswith (s p : string) : bool :=
  (String.length p <=? String.length s)%nat
  && String.eqb (substring (String.length s - String.length p)
                           (String.length p) s) p.

(** [s[:-n]] for a positive [n] *)
Definition drop_last (n : nat) (s : string) : string :=
  substring 0 (String.length s - n) s.

(** [s[i:]] *)
Definition slice_from (i : nat) (s : string) : string :=
  substring i (String.length s - i) s.

(** [s.rstrip(c)] for a one-character argument: every trailing [c] goes. *)
Fixpoint rstrip (c : ascii) (s : string) : string :=
  match s with
  | EmptyString => EmptyString
  | String a s' =>
      match rstrip c s' with
      | EmptyString => if Ascii.eqb a c then EmptyString else String a EmptyString
      | r => String a r
      end
  end.

(** [s.split(c)] for a one-character separator; the result is never empty. *)
Fixpoint split (c : ascii) (s : string) : list string :=
  match s with
  | EmptyString => [EmptyString]
  | String a s' =>
      if Ascii.eqb a c then EmptyString :: split c s'
      else match split c s' with
           | h :: t => String a h :: t
           | [] => [String a EmptyString]
           end
  end.

(** [l[-1]] on a list of strings (the lists it is used on are not empty). *)
Definition last_item (l : list string) : string := List.last l EmptyString.

(** The index of the last [c] of [s], or [-1], the first character of [s]
    having the index [i]. *)
Fixpoint rfind_from (c : ascii) (s : string) (i : Z) : Z :=
  match s with
  | EmptyString => (-1)%Z
  | String a s' =>
      let r := rfind_from c s' (i + 1)%Z in
      if (0 <=? r)%Z then r else if Ascii.eqb a c then i else (-1)%Z
  end.

(** [s.rfind(c)]: the index of the last [c], or [-1]. *)
Definition rfind (c : ascii) (s : string) : Z := rfind_from c s 0%Z.

(** [c.lower()] on one ASCII character. *)
Definition lower_ascii (c : ascii) : ascii :=
  let n := nat_of_ascii c in
  if ((65 <=? n) && (n <=? 90))%nat then ascii_of_nat (n + 32) else c.

(** [s.lower()] *)
Fixpoint lower (s : string) : string :=
  match s with
  | EmptyString => EmptyString
  | String a s' => String (lower_ascii a) (lower s')
  end.

(** [x in l] for a list of strings. *)
Definition mem (x : string) (l : list string) : bool :=
  existsb (String.eqb x) l.

(** [l.append(x)], as the list it leaves in [l]. *)
Definition append {A} (l : list A) (x : A) : list A := List.app l [x].

(** [l.extend(l')] *)
Definition extend {A} (l l' : list A) : list A := List.app l l'.

(** [str(n)] for an integer. *)
Definition str_of_int (n : Z) : string := NilZero.string_of_int (Z.to_int n).

End Py.

(* ================================================================= *)
(** * [get_repo_name] *)

(** Extracts the repository name from the given URL. *)
Definition get_repo_name (url : string) : string :=
  let url := Py.rstrip "/" url in
  let repo_name := Py.last_item (Py.split "/" url) in
  if Py.endswith repo_name ".git" then Py.drop_last 4 repo_name
  else repo_name.

(* ================================================================= *)
(** * [os.path.splitext] (posixpath, through [genericpath._splitext]) *)

(** The loop that skips the leading dots of the file name: [true] when a
    character other than [.] stands before the last dot. *)
Fixpoint splitext_scan (p : string) (filenameIndex : nat) (steps : nat) : bool :=
  match steps with
  | O => false
  | S steps' =>
      match String.get filenameIndex p with
      | Some c =>
          if Ascii.eqb c "." then splitext_scan p (S filenameIndex) steps'
          else true
      | None => true
      end
  end.

(** [os.path.splitext(p)] *)
Definition splitext (p : string) : string * string :=
  let sepIndex := Py.rfind "/" p in
  let dotIndex := Py.rfind "." p in
  if (sepIndex <? dotIndex)%Z then
    let filenameIndex := (sepIndex + 1)%Z in
    if splitext_scan p (Z.to_nat filenameIndex)
                     (Z.to_nat (dotIndex - filenameIndex))
    then (substring 0 (Z.to_nat dotIndex) p, Py.slice_from (Z.to_nat dotIndex) p)
    else (p, EmptyString)
  else (p, EmptyString).

(* ================================================================= *)
(** * The exclusion list ([main], the normalisation loop) *)

(** One turn of the loop over [args.exclude_ext]. *)
Definition normalize_step (excluded_extensions : list string) (ext : string)
  : list string :=
  if negb (Py.startswith ext ".") then
    Py.append excluded_extensions ("." ++ Py.lower ext)
  else
    Py.append excluded_extensions (Py.lower ext).

(** The loop: [excluded_extensions] after it. *)
Definition normalize_extensions (exclude_ext : list string) : list string :=
  fold_left normalize_step exclude_ext [].

(** [file_ext = os.path.splitext(file)[1].lower()] *)
Definition file_ext_of (file : string) : string :=
  Py.lower (snd (splitext file)).

(** [excluded_extensions and file_ext in excluded_extensions] *)
Definition extension_excluded (excluded_extensions : list string)
           (file_ext : string) : bool :=
  match excluded_extensions with
  | [] => false
  | _ => Py.mem file_ext excluded_extensions
  end.

(* ================================================================= *)
(** * Exceptions and results *)

Inductive exn_class := OSError | UnicodeDecodeError | RecursionError.

(** An exception: its class and [str(e)]. *)
Record exn := mk_exn { exn_class_of : exn_class; exn_str : string }.

Inductive result (A : Type) : Type :=
| Ok (a : A)
| Raise (e : exn).

Arguments Ok {A} a.

Arguments Raise {A} e.

Definition bindR {A B} (r : result A) (k : A -> result B) : result B :=
  match r with
  | Ok a => k a
  | Raise e => Raise e
  end.

Declare Scope result_scope.

Delimit Scope result_scope with res.

Notation "x <~ e ;; k" := (bindR e (fun x => k))
  (at level 61, e at next level, right associativity) : result_scope.

(* ================================================================= *)
(** * The filesystem, as the program observes it *)

(** What [open(path, "r", encoding="utf-8")] followed by [read()] does on a
    file: [open] raises an [OSError], or [read] raises a
    [UnicodeDecodeError], or the whole decoded text is returned. *)
Inductive read_outcome :=
| OpenFails (msg : string)
| DecodeFails (msg : string)
| Decoded (text : string).

(** A file: what [os.path.getsize] answers (a size in bytes, or the message
    of the [OSError] it raises) and what reading it as text gives. *)
Record file_info := mk_file {
  file_size : Z + string;
  file_read : read_outcome
}.

(** A node is a file or a directory.  A directory has its entries in the
    order the operating system lists them; [listing_error] is the message
    of the [OSError] raised when it cannot be listed. *)
Inductive node :=
| File (f : file_info)
| Dir (listing_error : option string) (entries : list (string * node)).

(** The node listed under [name]. *)
Fixpoint lookup (name : string) (entries : list (string * node)) : option node :=
  match entries with
  | [] => None
  | (n, c) :: rest => if String.eqb name n then Some c else lookup name rest
  end.

(** A path below the cloned repository: its segments from the repository
    root and the node it leads to, if any. *)
Record path := mk_path {
  segments : list string;
  target : option node
}.

(** The temporary directory the repository is cloned into. *)
Definition tmpdir (root : node) : path := mk_path [] (Some root).

(** [os.path.join(p, item)] *)
Definition os_path_join (p : path) (item : string) : path :=
  mk_path (List.app (segments p) [item])
          (match target p with
           | Some (Dir _ entries) => lookup item entries
           | _ => None
           end).

(** [os.path.relpath(p, tmpdirname)] *)
Definition os_path_relpath (p : path) : string :=
  match segments p with
  | [] => "."
  | segs => String.concat "/" segs
  end.

(** [os.path.isdir(p)] *)
Definition os_path_isdir (p : path) : bool :=
  match target p with
  | Some (Dir _ _) => true
  | _ => false
  end.

(** [os.listdir(p)] *)
Definition os_listdir (p : path) : result (list string) :=
  match target p with
  | Some (Dir None entries) => Ok (map fst entries)
  | Some (Dir (Some msg) _) => Raise (mk_exn OSError msg)
  | Some (File _) => Raise (mk_exn OSError "Not a directory")
  | None => Raise (mk_exn OSError "No such file or directory")
  end.

(** [os.path.getsize]; the program calls it on non-directories only, the
    size of a directory is not modelled. *)
Definition os_path_getsize (p : path) : result Z :=
  match target p with
  | Some (File f) =>
      match file_size f with
      | inl n => Ok n
      | inr msg => Raise (mk_exn OSError msg)
      end
  | Some (Dir _ _) => Ok 0%Z
  | None => Raise (mk_exn OSError "No such file or directory")
  end.

(** [open(p, "r", encoding="utf-8")] and [read()] *)
Definition open_read (p : path) : result string :=
  match target p with
  | Some (File f) =>
      match file_read f with
      | OpenFails msg => Raise (mk_exn OSError msg)
      | DecodeFails msg => Raise (mk_exn UnicodeDecodeError msg)
      | Decoded text => Ok text
      end
  | Some (Dir _ _) => Raise (mk_exn OSError "Is a directory")
  | None => Raise (mk_exn OSError "No such file or directory")
  end.

(** The depth of a tree, the measure of the recursions below. *)
Fixpoint height (n : node) : nat :=
  match n with
  | File _ => O
  | Dir _ entries =>
      S ((fix heights (l : list (string * node)) : nat :=
            match l with
            | [] => O
            | (_, c) :: rest => Nat.max (height c) (heights rest)
            end) entries)
  end.

(** The greatest depth among the entries of a directory. *)
Definition heights (l : list (string * node)) : nat :=
  fold_right (fun e h => Nat.max (height (snd e)) h) O l.

(** The depth of the tree a path leads to. *)
Definition path_height (p : path) : nat :=
  match target p with
  | Some n => height n
  | None => O
  end.

(** The number of entries (files and directories) below a node. *)
Fixpoint count_entries (n : node) : nat :=
  match n with
  | File _ => O
  | Dir _ entries =>
      (fix counts (l : list (string * node)) : nat :=
         match l with
         | [] => O
         | (_, c) :: rest => S (count_entries c + counts rest)
         end) entries
  end.

(** Every directory of the tree can be listed. *)
Fixpoint readable (n : node) : Prop :=
  match n with
  | File _ => True
  | Dir err entries =>
      err = None /\
      (fix all (l : list (string * node)) : Prop :=
         match l with
         | [] => True
         | (_, c) :: rest => readable c /\ all rest
         end) entries
  end.

(** The names of a directory are pairwise distinct, at every depth. *)
Fixpoint well_formed (n : node) : Prop :=
  match n with
  | File _ => True
  | Dir _ entries =>
      NoDup (map fst entries) /\
      (fix all (l : list (string * node)) : Prop :=
         match l with
         | [] => True
         | (_, c) :: rest => well_formed c /\ all rest
         end) entries
  end.

(** The nodes of the entries of a directory. *)
Definition entry_nodes (entries : list (string * node)) : list node :=
  map snd entries.

(** The entries below the nodes of a directory, the nodes included. *)
Definition counts (entries : list (string * node)) : nat :=
  fold_right (fun e acc => S (count_entries (snd e) + acc)) O entries.

(* ================================================================= *)
(** * [sorted] on a list of names *)

Fixpoint insert_sorted (x : string) (l : list string) : list string :=
  match l with
  | [] => [x]
  | y :: rest => if String.leb x y then x :: l else y :: insert_sorted x rest
  end.

(** [sorted(l)]: insertion of each name at its place; it is stable. *)
Definition sorted (l : list string) : list string :=
  fold_right insert_sorted [] l.

(* ================================================================= *)
(** * The tree renderer *)

Definition connector_last : string := "└── ".

Definition connector_mid : string := "├── ".

Definition continue_blank : string := "    ".

Definition continue_bar : string := "│   ".

(** [for index, item in enumerate(items)], threading the loop's variables. *)
Fixpoint for_enumerate {S : Type} (items : list string) (index : Z)
         (body : Z -> string -> S -> result S) (s : S) : result S :=
  match items with
  | [] => Ok s
  | item :: rest =>
      match body index item s with
      | Ok s' => for_enumerate rest (index + 1)%Z body s'
      | Raise e => Raise e
      end
  end.

(** [len(l)] *)
Definition len {A} (l : list A) : Z := Z.of_nat (List.length l).

(** [build_tree_lines] with at most [fuel] nested calls. *)
Fixpoint build_tree_lines_fuel (fuel : nat) (start_path : path) (prefix : string)
  : result (list string) :=
  match fuel with
  | O => Raise (mk_exn RecursionError "maximum recursion depth exceeded")
  | S fuel' =>
      (names <~ os_listdir start_path ;;
       let items := sorted names in
       for_enumerate items 0%Z
         (fun index item lines =>
            let path := os_path_join start_path item in
            let connector :=
              if (index =? len items - 1)%Z then connector_last
              else connector_mid in
            if os_path_isdir path then
              let line := prefix ++ connector ++ item ++ "/" in
              let lines := Py.append lines line in
              let extension_prefix :=
                if (index =? len items - 1)%Z then prefix ++ continue_blank
                else prefix ++ continue_bar in
              sub <~ build_tree_lines_fuel fuel' path extension_prefix ;;
              Ok (Py.extend lines sub)
            else
              Ok (Py.append lines (prefix ++ connector ++ item)))
         [])%res
  end.

(** [build_tree_lines]: the lines of the directory tree starting at
    [start_path].  The recursion is as deep as the tree. *)
Definition build_tree_lines (start_path : path) (prefix : string)
  : result (list string) :=
  build_tree_lines_fuel (S (path_height start_path)) start_path prefix.

(** The directory structure in a tree-like format: the caption, the line of
    the root under the name of the repository, and the lines of the tree. *)
Definition generate_directory_tree (root_dir : path) (repo_name : string)
  : result (list string) :=
  let lines := ["Directory structure:"] in
  let lines := Py.append lines (connector_last ++ repo_name ++ "/") in
  (sub <~ build_tree_lines root_dir "    " ;;
   Ok (Py.extend lines sub))%res.

(* ================================================================= *)
(** * [--max-file-size]: a Python [float] *)

(** A double is an integer multiple of [2^-1074] (its 53-bit significand
    scaled by a power of two), an infinity or a NaN.  [Finite k] stands for
    [k * 2^-1074]. *)
Inductive pyfloat :=
| Finite (k : Z)
| PosInf
| NegInf
| NaN.

(** [2^1024], the least magnitude that overflows, in units of [2^-1074]. *)
Definition float_overflow : Z := (2 ^ 2098)%Z.

(** [x * 1024]: scaling a double by a power of two is exact, short of
    overflow. *)
Definition float_mul_1024 (x : pyfloat) : pyfloat :=
  match x with
  | Finite k =>
      let k' := (k * 1024)%Z in
      if (float_overflow <=? k')%Z then PosInf
      else if (k' <=? - float_overflow)%Z then NegInf
      else Finite k'
  | other => other
  end.

(** One, in units of [2^-1074]. *)
Definition float_one : Z := (2 ^ 1074)%Z.

(** [n > x] for an [int] and a [float]: Python compares the exact values. *)
Definition int_gt_float (n : Z) (x : pyfloat) : bool :=
  match x with
  | Finite k => (k <? n * float_one)%Z
  | PosInf => false
  | NegInf => true
  | NaN => false
  end.

(** A double: finite values are [m * 2^e] for a significand [m] of at most
    53 bits, in units of [2^-1074], below the overflow threshold. *)
Definition is_double (x : pyfloat) : Prop :=
  match x with
  | Finite k =>
      exists m e : Z,
        k = (m * 2 ^ e)%Z /\ (Z.abs m < 2 ^ 53)%Z /\ (0 <= e)%Z
        /\ (Z.abs k < float_overflow)%Z
  | _ => True
  end.

(** A limit of two bytes, [2 / (1024 * 1024)] megabytes, which is the
    double [2^-19]. *)
Definition two_bytes_limit : pyfloat := Finite (2 ^ 1055)%Z.

(** The exact value of the double [Finite k]. *)
Definition float_value (k : Z) : Q := Qmake k (2 ^ 1074)%positive.

(** The size in bytes strictly exceeds [limit * 1024 * 1024], the limit
    being read as the exact value of the double, and an infinite or
    undefined limit as IEEE 754 compares it. *)
Definition exceeds_limit (size : Z) (limit : pyfloat) : Prop :=
  match limit with
  | Finite k =>
      Qlt (Qmult (Qmult (float_value k) (inject_Z 1024)) (inject_Z 1024))
          (inject_Z size)
  | PosInf => False
  | NegInf => True
  | NaN => False
  end.

(* ================================================================= *)
(** * The output streams and the statements of [main] *)

(** The console (the lines [print] wrote) and the text written so far to
    the contents file. *)
Record world := mk_world {
  stdout : list string;
  global_out : string
}.

(** How a statement ends: normally, by an exception, or by [continue]. *)
Inductive outcome (A : Type) : Type :=
| Normal (a : A)
| Exception (e : exn)
| ContinueLoop.

Arguments Normal {A} a.

Arguments Exception {A} e.

Arguments ContinueLoop {A}.

Definition M (A : Type) : Type := world -> outcome A * world.

Definition ret {A} (a : A) : M A := fun w => (Normal a, w).

Definition bind {A B} (m : M A) (k : A -> M B) : M B :=
  fun w =>
    match m w with
    | (Normal a, w') => k a w'
    | (Exception e, w') => (Exception e, w')
    | (ContinueLoop, w') => (ContinueLoop, w')
    end.

Declare Scope io_scope.

Delimit Scope io_scope with io.

Notation "x <- e ;; k" := (bind e (fun x => k))
  (at level 61, e at next level, right associativity) : io_scope.

Notation "e ;; k" := (bind e (fun _ => k))
  (at level 61, right associativity) : io_scope.

(** A call that may raise. *)
Definition lift {A} (r : result A) : M A :=
  fun w =>
    match r with
    | Ok a => (Normal a, w)
    | Raise e => (Exception e, w)
    end.

(** [continue] *)
Definition continue {A} : M A := fun w => (ContinueLoop, w).

(** [print(line)] *)
Definition print (line : string) : M unit :=
  fun w => (Normal tt, mk_world (Py.append (stdout w) line) (global_out w)).

(** [global_out.write(s)] *)
Definition write (s : string) : M unit :=
  fun w => (Normal tt, mk_world (stdout w) (global_out w ++ s)).

(** [try: body / except Exception as e: handler(e)]: the handler runs in
    the state the body left. *)
Definition try_except {A} (body : M A) (handler : exn -> M A) : M A :=
  fun w =>
    match body w with
    | (Exception e, w') => handler e w'
    | other => other
    end.

(** [try: body / except OSError as e: handler(e)] *)
Definition try_except_OSError {A} (body : M A) (handler : exn -> M A) : M A :=
  fun w =>
    match body w with
    | (Exception e, w') =>
        match exn_class_of e with
        | OSError => handler e w'
        | _ => (Exception e, w')
        end
    | other => other
    end.

(** [for x in l: body(x)]; [continue] ends the current turn only. *)
Fixpoint for_each {X : Type} (l : list X) (body : X -> M unit) : M unit :=
  match l with
  | [] => ret tt
  | x :: rest =>
      fun w =>
        match body x w with
        | (Normal _, w') => for_each rest body w'
        | (ContinueLoop, w') => for_each rest body w'
        | (Exception e, w') => (Exception e, w')
        end
  end.

(* ================================================================= *)
(** * [os.walk], top-down *)

(** [entry.is_dir()] *)
Definition entry_is_dir (e : string * node) : bool :=
  match snd e with
  | Dir _ _ => true
  | File _ => false
  end.

(** The entries of a directory as [os.scandir] gives them, split into the
    names of the directories and the other names. *)
Definition scandir (p : path) : result (list string * list string) :=
  match target p with
  | Some (Dir None entries) =>
      Ok (map fst (filter entry_is_dir entries),
          map fst (filter (fun e => negb (entry_is_dir e)) entries))
  | Some (Dir (Some msg) _) => Raise (mk_exn OSError msg)
  | Some (File _) => Raise (mk_exn OSError "Not a directory")
  | None => Raise (mk_exn OSError "No such file or directory")
  end.

(** [for top, dirs, files in os.walk(top): body].  The body returns the
    list it left in [dirs]: the walk descends into the names that remain.
    A directory that cannot be scanned is passed over ([onerror] is
    [None]). *)
Fixpoint os_walk_fuel (fuel : nat) (top : path)
         (body : path -> list string -> list string -> M (list string))
  : M unit :=
  match fuel with
  | O => ret tt
  | S fuel' =>
      match scandir top with
      | Raise _ => ret tt
      | Ok (dirs, nondirs) =>
          (dirs' <- body top dirs nondirs ;;
           for_each dirs'
             (fun dirname => os_walk_fuel fuel' (os_path_join top dirname) body))%io
      end
  end.

(** [os.walk(top)], with the depth of the tree as fuel. *)
Definition os_walk (top : path)
           (body : path -> list string -> list string -> M (list string))
  : M unit :=
  os_walk_fuel (S (path_height top)) top body.

(** [dirs.remove(x)]: the first occurrence goes. *)
Fixpoint list_remove (x : string) (l : list string) : list string :=
  match l with
  | [] => []
  | y :: rest => if String.eqb x y then rest else y :: list_remove x rest
  end.

(* ================================================================= *)
(** * The content concatenator ([main], the walk) *)

Definition ESC : string := String (ascii_of_nat 27) EmptyString.

Definition LF : string := String (ascii_of_nat 10) EmptyString.

Definition separator : string :=
  "================================================".

Section Concatenator.

Variable excluded_extensions : list string.

Variable max_file_size : option pyfloat.

(** The body of [for file in files]. *)
Definition process_file (current_root : path) (file : string) : M unit :=
  (let filepath := os_path_join current_root file in
   let relative_path := os_path_relpath filepath in
   let file_ext := Py.lower (snd (splitext file)) in
   (if extension_excluded excluded_extensions file_ext then
      print (ESC ++ "[6;33;40m" ++ "[!] Skipping file " ++ relative_path
             ++ " due to excluded extension (" ++ file_ext ++ ")."
             ++ ESC ++ "[0m") ;;
      continue
    else ret tt) ;;
   match max_file_size with
   | Some limit =>
       file_size <-
         try_except_OSError (lift (os_path_getsize filepath))
           (fun e =>
              print ("[!] Could not get size of " ++ relative_path ++ ": "
                     ++ exn_str e) ;;
              continue) ;;
       let max_size_bytes := float_mul_1024 (float_mul_1024 limit) in
       if int_gt_float file_size max_size_bytes then
         print (ESC ++ "[6;33;40m" ++ "[!] Skipping file " ++ relative_path
                ++ " as it exceeds the maximum allowed size ("
                ++ Py.str_of_int file_size ++ " bytes)." ++ ESC ++ "[0m") ;;
         continue
       else ret tt
   | None => ret tt
   end ;;
   write (separator ++ LF) ;;
   write ("File: " ++ relative_path ++ LF) ;;
   write (separator ++ LF) ;;
   try_except
     (content <- lift (open_read filepath) ;;
      write content)
     (fun e => write ("[!] Error reading file: " ++ exn_str e ++ LF)) ;;
   write (LF ++ LF))%io.

(** The body of [for current_root, dirs, files in os.walk(tmpdirname)]. *)
Definition walk_body (current_root : path) (dirs files : list string)
  : M (list string) :=
  (let dirs := if Py.mem ".git" dirs then list_remove ".git" dirs else dirs in
   for_each files (process_file current_root) ;;
   ret dirs)%io.

(** The walk: [for current_root, dirs, files in os.walk(tmpdirname)]. *)
Definition concatenate (tmpdirname : path) : M unit :=
  os_walk tmpdirname walk_body.

End Concatenator.

(** Nothing printed, nothing written. *)
Definition empty_world : world := mk_world [] EmptyString.

(* ================================================================= *)
(** * Small trees *)

Definition sample_tree : node :=
  Dir None
    [ ("src", Dir None [ ("main.py", File (mk_file (inl 10%Z) (Decoded "x = 1")));
                         ("lib", Dir None []) ]);
      ("README.md", File (mk_file (inl 3%Z) (Decoded "hi")));
      (".git", Dir None [ ("HEAD", File (mk_file (inl 4%Z) (Decoded "ref"))) ]);
      ("a.bin", File (mk_file (inl 2%Z) (DecodeFails "invalid start byte"))) ].

Definition nested_git_tree : node :=
  Dir None
    [ (".git", Dir None [ ("config", File (mk_file (inl 5%Z) (Decoded "[core]"))) ]);
      ("pkg", Dir None
         [ (".git", Dir None
              [ ("objects", Dir None
                   [ ("pack", File (mk_file (inr "Permission denied")
                                            (OpenFails "Permission denied"))) ]) ]);
           ("mod.py", File (mk_file (inl 4%Z) (Decoded "pass"))) ]);
      ("x.log", File (mk_file (inl 1%Z) (Decoded "l"))) ].

(** A directory with the files [a.txt] and [b.log] and the file [c.txt] in
    the directory [sub]. *)
Definition three_files_tree : node :=
  Dir None
    [ ("sub", Dir None [ ("c.txt", File (mk_file (inl 1%Z) (Decoded "c"))) ]);
      ("b.log", File (mk_file (inl 1%Z) (Decoded "b")));
      ("a.txt", File (mk_file (inl 1%Z) (Decoded "a"))) ].

(* ================================================================= *)
(** * Definitions the properties are stated with *)

(** [c] occurs in [s]. *)
Fixpoint has_char (c : ascii) (s : string) : bool :=
  match s with
  | EmptyString => false
  | String a s' => Ascii.eqb a c || has_char c s'
  end.

(** [s] is made of [c] only. *)
Fixpoint only_char (c : ascii) (s : string) : bool :=
  match s with
  | EmptyString => true
  | String a s' => Ascii.eqb a c && only_char c s'
  end.

(** A user-supplied extension with its leading dot. *)
Definition with_dot (ext : string) : string :=
  if Py.startswith ext "." then ext else "." ++ ext.

(** The three console messages of the checks. *)
Definition skip_extension_message (relative_path file_ext : string) : string :=
  ESC ++ "[6;33;40m" ++ "[!] Skipping file " ++ relative_path
  ++ " due to excluded extension (" ++ file_ext ++ ")." ++ ESC ++ "[0m".

Definition no_size_message (relative_path msg : string) : string :=
  "[!] Could not get size of " ++ relative_path ++ ": " ++ msg.

Definition too_large_message (relative_path : string) (file_size : Z) : string :=
  ESC ++ "[6;33;40m" ++ "[!] Skipping file " ++ relative_path
  ++ " as it exceeds the maximum allowed size ("
  ++ Py.str_of_int file_size ++ " bytes)." ++ ESC ++ "[0m".

(** The world after one more console line. *)
Definition logged (w : world) (line : string) : world :=
  mk_world (Py.append (stdout w) line) (global_out w).

(** The world after more text in the contents file. *)
Definition written (w : world) (text : string) : world :=
  mk_world (stdout w) (global_out w ++ text).

(** The error line written in place of a file's content. *)
Definition error_line (msg : string) : string :=
  "[!] Error reading file: " ++ msg ++ LF.

(** What stands between the second separator line and the two newlines
    that end a block. *)
Definition content_section (filepath : path) : string :=
  match open_read filepath with
  | Ok text => text
  | Raise e => error_line (exn_str e)
  end.

(** The block written for a file. *)
Definition file_block (filepath : path) : string :=
  separator ++ LF ++ "File: " ++ os_path_relpath filepath ++ LF
  ++ separator ++ LF ++ content_section filepath ++ LF ++ LF.

(** A file passes the extension check and the size check. *)
Definition passes_checks (excl : list string) (max : option pyfloat)
           (current_root : path) (file : string) : bool :=
  negb (extension_excluded excl (file_ext_of file))
  && match max with
     | None => true
     | Some limit =>
         match os_path_getsize (os_path_join current_root file) with
         | Ok size =>
             negb (int_gt_float size (float_mul_1024 (float_mul_1024 limit)))
         | Raise _ => false
         end
     end.

(** [c * n] *)
Fixpoint repeat_char (c : ascii) (n : nat) : string :=
  match n with
  | O => EmptyString
  | S n' => String c (repeat_char c n')
  end.

(** The error placeholder as the specification words it, without a
    newline of its own. *)
Definition spec_error_placeholder (msg : string) : string :=
  "[!] Error reading file: " ++ msg.

(** The block of a file with that placeholder. *)
Definition spec_file_block (filepath : path) : string :=
  separator ++ LF ++ "File: " ++ os_path_relpath filepath ++ LF
  ++ separator ++ LF
  ++ match open_read filepath with
     | Ok text => text
     | Raise e => spec_error_placeholder (exn_str e)
     end
  ++ LF ++ LF.

(** The outcome is not an exception. *)
Definition no_exception {A} (o : outcome A) : Prop :=
  match o with
  | Exception _ => False
  | _ => True
  end.

(** The order of [sorted]: [a <= b] on strings. *)
Definition name_le (a b : string) : Prop := String.leb a b = true.

(** No sibling follows. *)
Definition is_last (rest : list string) : bool :=
  match rest with
  | [] => true
  | _ => false
  end.

(** The connector of an entry followed by the siblings [rest]. *)
Definition connector_of (rest : list string) : string :=
  if is_last rest then connector_last else connector_mid.

(** What the prefix of the children of that entry is extended with. *)
Definition continuation_of (rest : list string) : string :=
  if is_last rest then continue_blank else continue_bar.

(** [rendered entries prefix items lines]: [lines] depicts the entries named
    [items] of a directory listing [entries], each with its subtree right
    after its own line. *)
Inductive rendered
  : list (string * node) -> string -> list string -> list string -> Prop :=
| rendered_nil entries prefix :
    rendered entries prefix [] []
| rendered_file entries prefix item rest f lines :
    lookup item entries = Some (File f) ->
    rendered entries prefix rest lines ->
    rendered entries prefix (item :: rest)
             ((prefix ++ connector_of rest ++ item) :: lines)
| rendered_dir entries prefix item rest sub sub_lines lines :
    lookup item entries = Some (Dir None sub) ->
    rendered sub (prefix ++ continuation_of rest) (sorted (map fst sub))
             sub_lines ->
    rendered entries prefix rest lines ->
    rendered entries prefix (item :: rest)
             ((prefix ++ connector_of rest ++ item ++ "/")
                :: List.app sub_lines lines).

(** The body of the loop of [build_tree_lines], the recursive call and the
    length of [items] being given. *)
Definition tree_body (rec : path -> string -> result (list string))
           (start_path : path) (prefix : string) (n : Z)
  : Z -> string -> list string -> result (list string) :=
  fun index item lines =>
    let path := os_path_join start_path item in
    let connector :=
      if (index =? n - 1)%Z then connector_last else connector_mid in
    if os_path_isdir path then
      let line := prefix ++ connector ++ item ++ "/" in
      let lines := Py.append lines line in
      let extension_prefix :=
        if (index =? n - 1)%Z then prefix ++ continue_blank
        else prefix ++ continue_bar in
      (sub <~ rec path extension_prefix ;;
       Ok (Py.extend lines sub))%res
    else
      Ok (Py.append lines (prefix ++ connector ++ item)).

(** The entry named [item] and the entries below it. *)
Definition entries_of (entries : list (string * node)) (item : string) : nat :=
  match lookup item entries with
  | Some c => S (count_entries c)
  | None => 1%nat
  end.

(** The entries named [items], with everything below them. *)
Definition items_count (entries : list (string * node)) (items : list string)
  : nat :=
  list_sum (map (entries_of entries) items).

(** A line of a sibling group under [prefix]: the prefix, then a connector. *)
Definition is_sibling_line (prefix line : string) : bool :=
  Py.startswith line (prefix ++ connector_mid)
  || Py.startswith line (prefix ++ connector_last).

(** The lines of the sibling group under [prefix] among [lines]. *)
Definition sibling_lines (prefix : string) (lines : list string) : list string :=
  filter (is_sibling_line prefix) lines.

(** The line of the entry [item], followed by the siblings [rest]. *)
Definition entry_line (entries : list (string * node)) (prefix : string)
           (item : string) (rest : list string) : string :=
  prefix ++ connector_of rest ++ item
  ++ match lookup item entries with
     | Some (Dir _ _) => "/"
     | _ => EmptyString
     end.

(** The lines of the entries [items], in their order. *)
Fixpoint entry_lines (entries : list (string * node)) (prefix : string)
         (items : list string) : list string :=
  match items with
  | [] => []
  | item :: rest =>
      entry_line entries prefix item rest :: entry_lines entries prefix rest
  end.

(** The tree without its directories named [.git], at every depth. *)
Fixpoint erase_git (n : node) : node :=
  match n with
  | File f => File f
  | Dir err entries =>
      Dir err
        ((fix erase (l : list (string * node)) : list (string * node) :=
            match l with
            | [] => []
            | (name, c) :: rest =>
                match c with
                | File _ => (name, c) :: erase rest
                | Dir _ _ =>
                    if String.eqb name ".git" then erase rest
                    else (name, erase_git c) :: erase rest
                end
            end) entries)
  end.

(** The same on the entries of a directory. *)
Fixpoint erase_entries (l : list (string * node)) : list (string * node) :=
  match l with
  | [] => []
  | (name, c) :: rest =>
      match c with
      | File _ => (name, c) :: erase_entries rest
      | Dir _ _ =>
          if String.eqb name ".git" then erase_entries rest
          else (name, erase_git c) :: erase_entries rest
      end
  end.

(** A directory named [.git] stands somewhere in the tree. *)
Fixpoint has_git_dir (n : node) : bool :=
  match n with
  | File _ => false
  | Dir _ entries =>
      (fix any (l : list (string * node)) : bool :=
         match l with
         | [] => false
         | (name, c) :: rest =>
             match c with
             | File _ => any rest
             | Dir _ _ => String.eqb name ".git" || has_git_dir c || any rest
             end
         end) entries
  end.

(** The same on the entries of a directory. *)
Definition any_git_dir (l : list (string * node)) : bool :=
  existsb (fun e => match snd e with
                    | File _ => false
                    | Dir _ _ => String.eqb (fst e) ".git" || has_git_dir (snd e)
                    end) l.

(** The directories the walk visits, in order, each with the names of its
    files, as the specification words it: every directory below the root
    that can be scanned, those named [.git] and all below them left out. *)
Fixpoint walk_visits (n : node) (segs : list string)
  : list (path * list string) :=
  match n with
  | File _ => []
  | Dir (Some _) _ => []
  | Dir None entries =>
      (mk_path segs (Some n),
       map fst (filter (fun e => negb (entry_is_dir e)) entries))
        :: (fix below (l : list (string * node)) : list (path * list string) :=
              match l with
              | [] => []
              | (name, c) :: rest =>
                  match c with
                  | File _ => below rest
                  | Dir _ _ =>
                      if String.eqb name ".git" then below rest
                      else List.app (walk_visits c (List.app segs [name]))
                                    (below rest)
                  end
              end) entries
  end.

(** The visits below the entries of a directory whose path is [segs]. *)
Fixpoint visits_below (segs : list string) (l : list (string * node))
  : list (path * list string) :=
  match l with
  | [] => []
  | (name, c) :: rest =>
      match c with
      | File _ => visits_below segs rest
      | Dir _ _ =>
          if String.eqb name ".git" then visits_below segs rest
          else List.app (walk_visits c (List.app segs [name]))
                        (visits_below segs rest)
      end
  end.

(** What the walk does in one visited directory. *)
Definition visit (excl : list string) (max : option pyfloat)
           (v : path * list string) : M unit :=
  for_each (snd v) (process_file excl max (fst v)).

(** The texts of a list, one after the other. *)
Definition join_all (l : list string) : string :=
  fold_right String.append EmptyString l.

(** The blocks of the files of one visited directory that pass the checks. *)
Definition visit_blocks (excl : list string) (max : option pyfloat)
           (v : path * list string) : string :=
  join_all (map (fun file => file_block (os_path_join (fst v) file))
                (filter (passes_checks excl max (fst v)) (snd v))).

(** What the contents file holds after the walk of a tree. *)
Definition contents_of (excl : list string) (max : option pyfloat)
           (root : node) : string :=
  join_all (map (visit_blocks excl max) (walk_visits root [])).

(* ================================================================= *)
(** * The text of names *)

(** Python strings are modelled by the bytes of their UTF-8 encoding.  A
    name that is ASCII, or valid UTF-8, is a string on which the bytes say
    all there is: [str.lower] changes the letters [A]-[Z] only on ASCII
    text, the order of the bytes is the order of the code points on valid
    UTF-8, and valid UTF-8 can be written to a file opened with
    [encoding="utf-8"]. *)

(** Every character of [s] is ASCII. *)
Fixpoint is_ascii (s : string) : bool :=
  match s with
  | EmptyString => true
  | String a s' => (nat_of_ascii a <? 128)%nat && is_ascii s'
  end.

(** A continuation byte, [10xxxxxx]. *)
Definition continuation (c : ascii) : bool :=
  ((128 <=? nat_of_ascii c) && (nat_of_ascii c <=? 191))%nat.

(** The byte after the first one of a three-byte sequence: no overlong
    form, no surrogate. *)
Definition second_of_three (lead : nat) (c : ascii) : bool :=
  (if lead =? 224 then (160 <=? nat_of_ascii c) && (nat_of_ascii c <=? 191)
   else if lead =? 237 then (128 <=? nat_of_ascii c) && (nat_of_ascii c <=? 159)
   else continuation c)%nat.

(** The byte after the first one of a four-byte sequence: no overlong
    form, nothing above [U+10FFFF]. *)
Definition second_of_four (lead : nat) (c : ascii) : bool :=
  (if lead =? 240 then (144 <=? nat_of_ascii c) && (nat_of_ascii c <=? 191)
   else if lead =? 244 then (128 <=? nat_of_ascii c) && (nat_of_ascii c <=? 143)
   else continuation c)%nat.

(** [s] is the UTF-8 encoding of a sequence of code points, none of them
    a surrogate. *)
Fixpoint valid_utf8 (s : string) : bool :=
  match s with
  | EmptyString => true
  | String a s1 =>
      let lead := nat_of_ascii a in
      if (lead <? 128)%nat then valid_utf8 s1
      else if ((194 <=? lead) && (lead <=? 223))%nat then
        match s1 with
        | String b s2 => continuation b && valid_utf8 s2
        | _ => false
        end
      else if ((224 <=? lead) && (lead <=? 239))%nat then
        match s1 with
        | String b (String c s3) =>
            second_of_three lead b && continuation c && valid_utf8 s3
        | _ => false
        end
      else if ((240 <=? lead) && (lead <=? 244))%nat then
        match s1 with
        | String b (String c (String d s4)) =>
            second_of_four lead b && continuation c && continuation d
            && valid_utf8 s4
        | _ => false
        end
      else false
  end.

(** The value of a byte. *)
Definition byte (c : ascii) : Z := Z.of_nat (nat_of_ascii c).

(** The code points [s] encodes. *)
Fixpoint code_points (s : string) : list Z :=
  match s with
  | EmptyString => []
  | String a s1 =>
      let lead := nat_of_ascii a in
      if (lead <? 128)%nat then byte a :: code_points s1
      else if (lead <? 224)%nat then
        match s1 with
        | String b s2 =>
            ((byte a - 192) * 64 + (byte b - 128))%Z :: code_points s2
        | _ => [byte a]
        end
      else if (lead <? 240)%nat then
        match s1 with
        | String b (String c s3) =>
            ((byte a - 224) * 4096 + (byte b - 128) * 64 + (byte c - 128))%Z
              :: code_points s3
        | _ => [byte a]
        end
      else
        match s1 with
        | String b (String c (String d s4)) =>
            ((byte a - 240) * 262144 + (byte b - 128) * 4096
             + (byte c - 128) * 64 + (byte d - 128))%Z
              :: code_points s4
        | _ => [byte a]
        end
  end.

(** The order of [sorted] on strings: code point by code point. *)
Fixpoint code_points_le (l1 l2 : list Z) : bool :=
  match l1, l2 with
  | [], _ => true
  | _ :: _, [] => false
  | x :: r1, y :: r2 => (x <? y)%Z || ((x =? y)%Z && code_points_le r1 r2)
  end.

(** A string that starts with the bytes of one code point, a valid string
    after them. *)
Inductive first_char : string -> Prop :=
| first_one a s :
    (nat_of_ascii a < 128)%nat -> valid_utf8 s = true ->
    first_char (String a s)
| first_two a b s :
    (194 <= nat_of_ascii a <= 223)%nat ->
    (128 <= nat_of_ascii b <= 191)%nat -> valid_utf8 s = true ->
    first_char (String a (String b s))
| first_three a b c s :
    (224 <= nat_of_ascii a <= 239)%nat ->
    (128 <= nat_of_ascii b <= 191)%nat ->
    (nat_of_ascii a = 224 -> 160 <= nat_of_ascii b)%nat ->
    (128 <= nat_of_ascii c <= 191)%nat -> valid_utf8 s = true ->
    first_char (String a (String b (String c s)))
| first_four a b c d s :
    (240 <= nat_of_ascii a <= 244)%nat ->
    (128 <= nat_of_ascii b <= 191)%nat ->
    (nat_of_ascii a = 240 -> 144 <= nat_of_ascii b)%nat ->
    (128 <= nat_of_ascii c <= 191)%nat ->
    (128 <= nat_of_ascii d <= 191)%nat -> valid_utf8 s = true ->
    first_char (String a (String b (String c (String d s)))).

(** Every name of the tree, at every depth, satisfies [ok]. *)
Fixpoint names_all (ok : string -> bool) (n : node) : bool :=
  match n with
  | File _ => true
  | Dir _ entries =>
      (fix all (l : list (string * node)) : bool :=
         match l with
         | [] => true
         | (name, c) :: rest => ok name && names_all ok c && all rest
         end) entries
  end.

(** An upper-case ASCII letter. *)
Definition is_upper (a : ascii) : bool :=
  ((65 <=? nat_of_ascii a) && (nat_of_ascii a <=? 90))%nat.




(* ================================================================= *)
(** * The clone on disk: symbolic links *)

(** What is on disk: files, directories, and symbolic links, each link
    with what it resolves to ([None] when it dangles or cannot be
    resolved).  A link that leads back to a directory above it resolves,
    level after level, until the system refuses to follow it further: the
    nesting is finite. *)
Inductive disk :=
| DiskFile (f : file_info)
| DiskDir (listing_error : option string) (entries : list (string * disk))
| Symlink (resolved : option disk).

(** What a dangling link is to the calls that follow links: not a
    directory, and nothing that can be measured or opened. *)
Definition dangling : node :=
  File (mk_file (inr "No such file or directory")
                (OpenFails "No such file or directory")).

(** The tree as the calls that follow links observe it: [os.listdir],
    [os.path.isdir], [os.path.getsize] and [open].  This is what
    [build_tree_lines] sees. *)
Fixpoint followed (d : disk) : node :=
  match d with
  | DiskFile f => File f
  | DiskDir err entries =>
      Dir err
          ((fix all (l : list (string * disk)) : list (string * node) :=
              match l with
              | [] => []
              | (name, c) :: rest => (name, followed c) :: all rest
              end) entries)
  | Symlink None => dangling
  | Symlink (Some t) => followed t
  end.

(** The tree as [os.walk] observes it.  [entry.is_dir()] follows links,
    so a link to a directory is among [dirs]; [os.walk] does not walk into
    it ([followlinks] is false): it is a directory that yields nothing,
    as one that cannot be scanned.  A link to a file is a file. *)
Fixpoint walked (d : disk) : node :=
  match d with
  | DiskFile f => File f
  | DiskDir err entries =>
      Dir err
          ((fix all (l : list (string * disk)) : list (string * node) :=
              match l with
              | [] => []
              | (name, c) :: rest => (name, walked c) :: all rest
              end) entries)
  | Symlink None => dangling
  | Symlink (Some t) =>
      match followed t with
      | File f => File f
      | Dir _ _ => Dir (Some "symbolic link") []
      end
  end.

(** The entries on disk below [d]: files, directories and links, a link
    counting for one, whatever it leads to. *)
Fixpoint disk_entries (d : disk) : nat :=
  match d with
  | DiskDir _ entries =>
      (fix count (l : list (string * disk)) : nat :=
         match l with
         | [] => O
         | (_, c) :: rest => S (disk_entries c + count rest)
         end) entries
  | _ => O
  end.

(** The entries seen through the links below [d]: for each link, the
    entries of the directory it resolves to. *)
Fixpoint linked_entries (d : disk) : nat :=
  match d with
  | DiskFile _ => O
  | DiskDir _ entries =>
      (fix count (l : list (string * disk)) : nat :=
         match l with
         | [] => O
         | (_, c) :: rest => (linked_entries c + count rest)%nat
         end) entries
  | Symlink None => O
  | Symlink (Some t) => count_entries (followed t)
  end.

(** No link below [d] leads to a directory. *)
Fixpoint no_linked_directory (d : disk) : bool :=
  match d with
  | DiskFile _ => true
  | DiskDir _ entries =>
      (fix all (l : list (string * disk)) : bool :=
         match l with
         | [] => true
         | (_, c) :: rest => no_linked_directory c && all rest
         end) entries
  | Symlink None => true
  | Symlink (Some t) =>
      match followed t with
      | File _ => true
      | Dir _ _ => false
      end
  end.

(** A tree without links, on disk. *)
Fixpoint on_disk (n : node) : disk :=
  match n with
  | File f => DiskFile f
  | Dir err entries =>
      DiskDir err
          ((fix all (l : list (string * node)) : list (string * disk) :=
              match l with
              | [] => []
              | (name, c) :: rest => (name, on_disk c) :: all rest
              end) entries)
  end.

(** [sample_tree], on disk. *)
Definition sample_disk : disk := on_disk sample_tree.

(** A directory [real] with one file, and a link [link] to it. *)
Definition linked_clone : disk :=
  DiskDir None
    [ ("real", DiskDir None [ ("a", DiskFile (mk_file (inl 1%Z) (Decoded "a"))) ]);
      ("link", Symlink (Some (DiskDir None
                                [ ("a", DiskFile (mk_file (inl 1%Z) (Decoded "a"))) ]))) ].

(* ================================================================= *)
(** * The listing of a directory, entry by entry *)

(** The lines [build_tree_lines] returned, none when it raised. *)
Definition lines_of (r : result (list string)) : list string :=
  match r with
  | Ok lines => lines
  | Raise _ => []
  end.

(** The lines of the entries named [items] of the directory [start_path],
    in the order of [items]: the line of each, and right after the line of
    a directory what [build_tree_lines] returns for that directory. *)
Fixpoint listing (start_path : path) (prefix : string) (items : list string)
  : list string :=
  match items with
  | [] => []
  | item :: rest =>
      let path := os_path_join start_path item in
      if os_path_isdir path then
        (prefix ++ connector_of rest ++ item ++ "/")
          :: List.app (lines_of (build_tree_lines path
                                   (prefix ++ continuation_of rest)))
                      (listing start_path prefix rest)
      else
        (prefix ++ connector_of rest ++ item) :: listing start_path prefix rest
  end.

(* ================================================================= *)
(** * Definitions the further properties are stated with *)

(** The console line of a file that fails a check, by the check that
    stops it; [None] for a file that passes both. *)
Definition skip_report (excl : list string) (max : option pyfloat)
           (current_root : path) (file : string) : option string :=
  let relative_path := os_path_relpath (os_path_join current_root file) in
  if extension_excluded excl (file_ext_of file) then
    Some (skip_extension_message relative_path (file_ext_of file))
  else
    match max with
    | None => None
    | Some limit =>
        match os_path_getsize (os_path_join current_root file) with
        | Raise e => Some (no_size_message relative_path (exn_str e))
        | Ok size =>
            if int_gt_float size (float_mul_1024 (float_mul_1024 limit))
            then Some (too_large_message relative_path size)
            else None
        end
    end.

(** The console lines of the files of one visited directory. *)
Definition visit_reports (excl : list string) (max : option pyfloat)
           (v : path * list string) : list string :=
  flat_map (fun file => match skip_report excl max (fst v) file with
                        | Some line => [line]
                        | None => []
                        end) (snd v).

(** What the walk of a tree prints. *)
Definition console_of (excl : list string) (max : option pyfloat)
           (root : node) : list string :=
  flat_map (visit_reports excl max) (walk_visits root []).


(** An extension, as the user gives it, with a dot beyond its first
    character ([tar.gz], [.tar.gz]). *)
Definition inner_dot (ext : string) : bool :=
  has_char "." (Py.slice_from 1 (with_dot ext)).

(** Some directory of the tree cannot be listed. *)
Fixpoint unreadable_inside (n : node) : bool :=
  match n with
  | File _ => false
  | Dir (Some _) _ => true
  | Dir None entries =>
      (fix any (l : list (string * node)) : bool :=
         match l with
         | [] => false
         | (_, c) :: rest => unreadable_inside c || any rest
         end) entries
  end.

(** The result of a call, its lines changed by [f]. *)
Definition map_lines (f : string -> string) (r : result (list string))
  : result (list string) :=
  match r with
  | Ok lines => Ok (map f lines)
  | Raise e => Raise e
  end.

(** Two trees that differ only by the order in which the directories list
    their entries and by what the files hold: the same names in every
    directory, a file where the other has a file, a directory where the
    other has one, and the same listing errors. *)
Inductive same_tree : node -> node -> Prop :=
| same_file (f f' : file_info) : same_tree (File f) (File f')
| same_dir (err : option string) (entries entries' : list (string * node)) :
    (forall name, In name (map fst entries) <-> In name (map fst entries')) ->
    (forall name c c',
        lookup name entries = Some c -> lookup name entries' = Some c' ->
        same_tree c c') ->
    same_tree (Dir err entries) (Dir err entries').

(** One repository as two systems may list it: the entries in another
    order, the files with other contents. *)
Definition listed_one_way : node :=
  Dir None
    [ ("b.txt", File (mk_file (inl 1%Z) (Decoded "b")));
      ("a", Dir None [ ("y", File (mk_file (inl 1%Z) (Decoded "y")));
                       ("x", File (mk_file (inl 1%Z) (Decoded "x"))) ]) ].

Definition listed_another_way : node :=
  Dir None
    [ ("a", Dir None [ ("x", File (mk_file (inl 7%Z) (OpenFails "Permission denied")));
                       ("y", File (mk_file (inl 0%Z) (Decoded EmptyString))) ]);
      ("b.txt", File (mk_file (inr "Input/output error") (DecodeFails "invalid start byte"))) ].

(* ================================================================= *)
(** * [main], after the arguments are parsed *)

(** [args], as [parser.parse_args()] returns it. *)
Record args := mk_args {
  repo_url : string;
  dir_structure_file : string;
  output_name : string;
  exclude_ext : list string;
  max_file_size : option pyfloat
}.

(** What [subprocess.check_call(["git", "clone", ...])] does: [git] fills
    the temporary directory, or it exits with a status that is not zero
    ([CalledProcessError], with its [str]), or it cannot be started (an
    [OSError]). *)
Inductive clone_outcome :=
| Cloned (root : disk)
| CloneExits (msg : string)
| CloneNotRun (msg : string).

(** What the system answers to the calls of [main] outside the clone: the
    working directory, [os.makedirs] and [open(path, "w")] (the message of
    the [OSError] when they fail), [tempfile.TemporaryDirectory] (the name
    of the directory, or the message of the [OSError]) and [git clone];
    and whether two paths lead to one file ([./out.txt] and [out.txt], a
    link and what it leads to). *)
Record env := mk_env {
  getcwd : string;
  makedirs : string -> option string;
  mkdtemp : string + string;
  git_clone : string -> clone_outcome;
  open_w : string -> option string;
  samefile : string -> string -> bool
}.

(** Two paths that name one file: the same string, or two strings the
    system resolves to the same file. *)
Definition same_path (os : env) (p q : string) : bool :=
  String.eqb p q || samefile os p q || samefile os q p.

(** What [main] leaves: the console, the directories it made and, for
    each file it opened for writing, under the path it was last opened
    with, the text written to it since (opening for writing
    truncates). *)
Record system := mk_system {
  console : list string;
  made_dirs : list string;
  files : list (string * string)
}.

(** How [main] ends: it returns, [sys.exit(code)], or an exception no
    statement catches. *)
Inductive exit_status :=
| Returned
| Exited (code : Z)
| Uncaught (e : exn).

(** [os.path.join(a, b)] on the names of the output, as [posixpath]
    computes it. *)
Definition posixpath_join (a b : string) : string :=
  if Py.startswith b "/" then b
  else if (String.eqb a EmptyString || Py.endswith a "/")%bool then a ++ b
  else a ++ "/" ++ b.


(** The file [path] leads to holds [text] from now on. *)
Definition file_set (os : env) (path text : string) (fs : list (string * string))
  : list (string * string) :=
  (path, text) :: filter (fun e => negb (same_path os path (fst e))) fs.

(** [print(line)] *)
Definition sys_print (s : system) (line : string) : system :=
  mk_system (Py.append (console s) line) (made_dirs s) (files s).

(** [output_dir] *)
Definition output_dir (a : args) (os : env) : string :=
  posixpath_join (getcwd os) (get_repo_name (repo_url a)).

(** [dir_structure_file], the path of the tree file. *)
Definition dir_structure_path (a : args) (os : env) : string :=
  posixpath_join (output_dir a os) (dir_structure_file a).

(** [global_file], the path of the contents file. *)
Definition global_file (a : args) (os : env) : string :=
  posixpath_join (output_dir a os) (output_name a).

Definition cloning_message (tmpdirname : string) : string :=
  ESC ++ "[6;33;40m" ++ "[i] Cloning repository into temporary directory: "
  ++ tmpdirname ++ ESC ++ "[0m".

Definition clone_error_message (msg : string) : string :=
  "[!] Error cloning repository: " ++ msg.

Definition tree_saved_message (path : string) : string :=
  ESC ++ "[6;30;42m" ++ "[i] Directory structure saved in: " ++ path
  ++ ESC ++ "[0m".

Definition contents_saved_message (path : string) : string :=
  ESC ++ "[6;30;42m" ++ "[i] Global file content saved in: " ++ path
  ++ ESC ++ "[0m".

(** [for line in tree_lines: f.write(line + "\n")], on the text of [f]. *)
Definition write_lines (tree_lines : list string) (text : string) : string :=
  fold_left (fun text line => text ++ (line ++ LF)) tree_lines text.

(** [main], from the normalisation of the extensions on.  The tree is
    rendered from the clone as the calls that follow links see it, the
    walk is over the clone as [os.walk] sees it.  Writing to a file that is
    open and printing do not fail, and the recursion of the renderer is as
    deep as the tree. *)
Definition main (a : args) (os : env) : exit_status * system :=
  let s := mk_system [] [] [] in
  let excluded_extensions := normalize_extensions (exclude_ext a) in
  let repo_name := get_repo_name (repo_url a) in
  match makedirs os (output_dir a os) with
  | Some msg => (Uncaught (mk_exn OSError msg), s)
  | None =>
      let s := mk_system (console s) (Py.append (made_dirs s) (output_dir a os))
                         (files s) in
      match mkdtemp os with
      | inr msg => (Uncaught (mk_exn OSError msg), s)
      | inl tmpdirname =>
          let s := sys_print s (cloning_message tmpdirname) in
          match git_clone os (repo_url a) with
          | CloneExits msg => (Exited 1, sys_print s (clone_error_message msg))
          | CloneNotRun msg => (Uncaught (mk_exn OSError msg), s)
          | Cloned root =>
              match generate_directory_tree (tmpdir (followed root)) repo_name with
              | Raise e => (Uncaught e, s)
              | Ok tree_lines =>
                  match open_w os (dir_structure_path a os) with
                  | Some msg => (Uncaught (mk_exn OSError msg), s)
                  | None =>
                      let f := write_lines tree_lines EmptyString in
                      let s := mk_system (console s) (made_dirs s)
                                 (file_set os (dir_structure_path a os) f (files s)) in
                      let s := sys_print s (tree_saved_message (dir_structure_path a os)) in
                      match open_w os (global_file a os) with
                      | Some msg => (Uncaught (mk_exn OSError msg), s)
                      | None =>
                          let (o, w) :=
                            concatenate excluded_extensions (max_file_size a)
                                        (tmpdir (walked root))
                                        (mk_world (console s) EmptyString) in
                          let s := mk_system (stdout w) (made_dirs s)
                                     (file_set os (global_file a os) (global_out w)
                                               (files s)) in
                          match o with
                          | Exception e => (Uncaught e, s)
                          | _ => (Returned,
                                  sys_print s (contents_saved_message (global_file a os)))
                          end
                      end
                  end
              end
          end
      end
  end.

(** The text of the tree file: each line and a newline. *)
Definition tree_text (tree_lines : list string) : string :=
  join_all (map (fun line => line ++ LF) tree_lines).

(** A clone: a directory, the names of each directory distinct and valid
    UTF-8. *)
Definition is_clone (root : disk) : Prop :=
  well_formed (followed root)
  /\ names_all valid_utf8 (followed root) = true
  /\ exists err entries, root = DiskDir err entries.

(** A run: the defaults of the options, and a system on which every call
    succeeds and the clone is [sample_tree]. *)
Definition default_args (url : string) : args :=
  mk_args url "directory_structure.txt" "contents.txt" [] None.

Definition sample_env : env :=
  mk_env "/home/user" (fun _ => None) (inl "/tmp/tmpa1b2c3")
         (fun _ => Cloned sample_disk) (fun _ => None) (fun _ _ => false).

(** The same system, [git clone] exiting with status 128. *)
Definition no_clone_env : env :=
  mk_env "/home/user" (fun _ => None) (inl "/tmp/tmpa1b2c3")
         (fun _ => CloneExits "Command returned non-zero exit status 128.")
         (fun _ => None) (fun _ _ => false).

(** The clone of a submodule: [.git] is a file there. *)
Definition submodule_tree : node :=
  Dir None
    [ (".git", File (mk_file (inl 28%Z) (Decoded "gitdir: ../.git/modules/sub")));
      ("lib.py", File (mk_file (inl 4%Z) (Decoded "pass"))) ].

(* ================================================================= *)
(** * Properties *)

(* ----------------------------------------------------------------- *)
(** ** The program on small inputs *)

Example get_repo_name_doc :
  get_repo_name "https://github.com/user/repo.git" = "repo".
Proof. reflexivity. Qed.

Example splitext_examples :
  splitext "a.TXT" = ("a", ".TXT") /\ splitext "Makefile" = ("Makefile", EmptyString)
  /\ splitext ".gitignore" = (".gitignore", EmptyString)
  /\ splitext "..x" = ("..x", EmptyString) /\ splitext "a.tar.gz" = ("a.tar", ".gz")
  /\ splitext "end." = ("end", ".").
Proof. repeat split. Qed.

Example normalize_examples :
  normalize_extensions ["LOG"; ".Tmp"; EmptyString] = [".log"; ".tmp"; "."].
Proof. reflexivity. Qed.

Example sample_tree_lines :
  generate_directory_tree (tmpdir sample_tree) "repo" =
  Ok [ "Directory structure:";
       "└── repo/";
       "    ├── .git/";
       "    │   └── HEAD";
       "    ├── README.md";
       "    ├── a.bin";
       "    └── src/";
       "        ├── lib/";
       "        └── main.py" ].
Proof. reflexivity. Qed.

Example sample_tree_rendered :
  build_tree_lines (tmpdir sample_tree) "  " =
  Ok [ "  ├── .git/";
       "  │   └── HEAD";
       "  ├── README.md";
       "  ├── a.bin";
       "  └── src/";
       "      ├── lib/";
       "      └── main.py" ].
Proof. reflexivity. Qed.

Example sample_contents :
  global_out (snd (concatenate [".md"] None (tmpdir sample_tree) empty_world)) =
  separator ++ LF ++ "File: a.bin" ++ LF ++ separator ++ LF
  ++ "[!] Error reading file: invalid start byte" ++ LF ++ LF ++ LF
  ++ separator ++ LF ++ "File: src/main.py" ++ LF ++ separator ++ LF
  ++ "x = 1" ++ LF ++ LF.
Proof. reflexivity. Qed.

Example three_files_contents :
  concatenate [] None (tmpdir three_files_tree) empty_world
  = (Normal tt,
     mk_world []
       (separator ++ LF ++ "File: b.log" ++ LF ++ separator ++ LF
        ++ "b" ++ LF ++ LF
        ++ separator ++ LF ++ "File: a.txt" ++ LF ++ separator ++ LF
        ++ "a" ++ LF ++ LF
        ++ separator ++ LF ++ "File: sub/c.txt" ++ LF ++ separator ++ LF
        ++ "c" ++ LF ++ LF))
  /\ concatenate (normalize_extensions ["LOG"]) None (tmpdir three_files_tree)
                 empty_world
     = (Normal tt,
        mk_world [skip_extension_message "b.log" ".log"]
          (separator ++ LF ++ "File: a.txt" ++ LF ++ separator ++ LF
           ++ "a" ++ LF ++ LF
           ++ separator ++ LF ++ "File: sub/c.txt" ++ LF ++ separator ++ LF
           ++ "c" ++ LF ++ LF)).
Proof. split; reflexivity. Qed.

(* ----------------------------------------------------------------- *)
(** ** Facts about strings *)

Lemma append_nil_r (s : string) : s ++ EmptyString = s.
Proof. induction s; simpl; congruence. Qed.

Lemma append_assoc (a b c : string) : (a ++ b) ++ c = a ++ b ++ c.
Proof. induction a; simpl; congruence. Qed.

Lemma append_inv_l (p a b : string) : p ++ a = p ++ b -> a = b.
Proof. induction p; simpl; intros H; [assumption | inversion H; auto]. Qed.

Lemma substring_full (s : string) : substring 0 (String.length s) s = s.
Proof. induction s; simpl; congruence. Qed.

Lemma substring_split (n : nat) (s : string) :
  (n <= String.length s)%nat ->
  s = substring 0 n s ++ substring n (String.length s - n) s.
Proof.
  revert n; induction s as [|a s IH]; intros [|n] Hn; simpl in *;
    try lia; try reflexivity.
  - rewrite substring_full. reflexivity.
  - rewrite <- IH by lia. reflexivity.
Qed.

Lemma endswith_split (s p : string) :
  Py.endswith s p = true ->
  s = Py.drop_last (String.length p) s ++ p.
Proof.
  unfold Py.endswith, Py.drop_last. intros H.
  apply andb_true_iff in H. destruct H as [Hlen Heq].
  apply Nat.leb_le in Hlen. apply String.eqb_eq in Heq.
  rewrite (substring_split (String.length s - String.length p) s) at 1 by lia.
  f_equal. replace (String.length s - (String.length s - String.length p))%nat
    with (String.length p) by lia. exact Heq.
Qed.

Lemma has_char_append (c : ascii) (a b : string) :
  has_char c (a ++ b) = has_char c a || has_char c b.
Proof.
  induction a as [|x a IH]; simpl; [reflexivity|].
  rewrite IH, orb_assoc. reflexivity.
Qed.

Lemma startswith_append (p a b : string) :
  Py.startswith (p ++ a) (p ++ b) = Py.startswith a b.
Proof.
  induction p as [|x p IH]; simpl; [reflexivity|].
  rewrite Ascii.eqb_refl, IH. reflexivity.
Qed.

Lemma startswith_dot (s : string) :
  Py.startswith s "." = true <-> exists r, s = "." ++ r.
Proof.
  split.
  - destruct s as [|a s]; simpl; [discriminate|].
    destruct (Ascii.eqb_spec a ".") as [->|]; [|discriminate].
    intros _. exists s. reflexivity.
  - intros [r ->]. reflexivity.
Qed.

Lemma rstrip_tail (c : ascii) (s : string) :
  exists tail, s = Py.rstrip c s ++ tail /\ only_char c tail = true.
Proof.
  induction s as [|a s [tail [Hs Ht]]]; simpl.
  - exists EmptyString. auto.
  - destruct (Py.rstrip c s) as [|b r] eqn:Hr.
    + destruct (Ascii.eqb a c) eqn:Hac.
      * exists (String a tail). simpl in *. rewrite Hac, Ht.
        split; [congruence | reflexivity].
      * exists tail. simpl in *. split; congruence.
    + exists tail. simpl in *. split; congruence.
Qed.

Lemma rstrip_no_trailing (c : ascii) (s h : string) :
  Py.rstrip c s <> h ++ String c EmptyString.
Proof.
  revert h; induction s as [|a s IH]; intros h; simpl.
  - destruct h; discriminate.
  - destruct (Py.rstrip c s) as [|b r] eqn:Hr.
    + destruct (Ascii.eqb a c) eqn:Hac.
      * destruct h; discriminate.
      * destruct h as [|a' [|? ?]]; simpl; intros H; inversion H; subst.
        rewrite Ascii.eqb_refl in Hac. discriminate.
    + destruct h as [|a' h']; simpl; intros H; inversion H; subst.
      eapply IH; eauto.
Qed.

Lemma split_not_nil (c : ascii) (s : string) : Py.split c s <> [].
Proof.
  destruct s as [|a s]; simpl; [discriminate|].
  destruct (Ascii.eqb a c); [discriminate|].
  destruct (Py.split c s); discriminate.
Qed.

Lemma split_join (c : ascii) (s : string) :
  String.concat (String c EmptyString) (Py.split c s) = s.
Proof.
  induction s as [|a s IH]; simpl; [reflexivity|].
  destruct (Ascii.eqb a c) eqn:Hac.
  - apply Ascii.eqb_eq in Hac. subst a.
    pose proof (split_not_nil c s) as Hne.
    destruct (Py.split c s) as [|h t]; [congruence|].
    simpl in *. rewrite IH. reflexivity.
  - destruct (Py.split c s) as [|h [|h' t]]; simpl in *; congruence.
Qed.

Lemma split_segments (c : ascii) (s : string) :
  Forall (fun seg => has_char c seg = false) (Py.split c s).
Proof.
  induction s as [|a s IH]; simpl.
  - constructor; auto.
  - destruct (Ascii.eqb a c) eqn:Hac.
    + constructor; auto.
    + destruct (Py.split c s) as [|h t].
      * constructor; auto. simpl. rewrite Hac. reflexivity.
      * inversion IH; subst. constructor; auto. simpl. rewrite Hac. auto.
Qed.

Lemma concat_last (sep : string) (l : list string) :
  l <> [] ->
  exists head, String.concat sep l = head ++ List.last l EmptyString
               /\ (head = EmptyString \/ exists h, head = h ++ sep).
Proof.
  induction l as [|x l IH]; intros Hne; [congruence|].
  destruct l as [|y l].
  - exists EmptyString. simpl. auto.
  - destruct IH as [head [Hc Hh]]; [discriminate|].
    exists (x ++ sep ++ head). split.
    + change (String.concat sep (x :: y :: l))
        with (x ++ sep ++ String.concat sep (y :: l)).
      rewrite Hc. rewrite !append_assoc. reflexivity.
    + right. destruct Hh as [-> | [h ->]].
      * exists x. rewrite append_nil_r. reflexivity.
      * exists (x ++ sep ++ h). rewrite !append_assoc. reflexivity.
Qed.

Lemma last_segment (c : ascii) (s : string) :
  exists head,
    s = head ++ Py.last_item (Py.split c s)
    /\ has_char c (Py.last_item (Py.split c s)) = false
    /\ (head = EmptyString \/ exists h, head = h ++ String c EmptyString).
Proof.
  destruct (concat_last (String c EmptyString) (Py.split c s) (split_not_nil c s))
    as [head [Hc Hh]].
  rewrite split_join in Hc.
  exists head. repeat split; auto.
  pose proof (split_segments c s) as HF.
  rewrite Forall_forall in HF. apply HF.
  unfold Py.last_item.
  destruct (Py.split c s) as [|x l] eqn:E; [exfalso; eapply split_not_nil; eauto|].
  rewrite (app_removelast_last EmptyString (l := x :: l)) at 2 by discriminate.
  apply in_or_app. right. left. reflexivity.
Qed.

(* ----------------------------------------------------------------- *)
(** ** C9: the repository name *)

(** C9.  For every source location, [get_repo_name] returns the last path
    segment of the location once its trailing slashes are stripped, without
    its [.git] suffix when it has one: the location is [head ++ seg ++ tail]
    where [tail] is made of slashes only, [seg] holds no slash, [head] is
    empty or ends with a slash (and is empty when [seg] is), and the result
    is [seg] with a trailing [.git] removed.  The location
    [https://host/user/repo.git] gives [repo]. *)
Theorem get_repo_name_last_segment :
  (forall url : string,
    exists head seg tail,
      url = head ++ seg ++ tail
      /\ only_char "/" tail = true
      /\ has_char "/" seg = false
      /\ (head = EmptyString \/ exists h, head = h ++ "/")
      /\ (seg = EmptyString -> head = EmptyString)
      /\ (seg = get_repo_name url ++ ".git"
          \/ (Py.endswith seg ".git" = false /\ seg = get_repo_name url)))
  /\ get_repo_name "https://host/user/repo.git" = "repo"
  /\ get_repo_name "https://host/user/repo.git/" = "repo"
  /\ get_repo_name "https://host/user/repo" = "repo".
Proof.
  split; [|repeat split].
  intros url. unfold get_repo_name.
  destruct (rstrip_tail "/" url) as [tail [Hurl Htail]].
  destruct (last_segment "/" (Py.rstrip "/" url)) as [head [Hseg [Hno Hhead]]].
  set (seg := Py.last_item (Py.split "/" (Py.rstrip "/" url))) in *.
  exists head, seg, tail. repeat split; auto.
  - rewrite <- append_assoc, <- Hseg. exact Hurl.
  - intros Hempty. destruct Hhead as [-> | [h ->]]; [reflexivity|].
    exfalso. rewrite Hempty, append_nil_r in Hseg.
    eapply rstrip_no_trailing; eauto.
  - destruct (Py.endswith seg ".git") eqn:He.
    + left. apply endswith_split in He. exact He.
    + right. auto.
Qed.

Lemma get_repo_name_last_segment_witness :
  get_repo_name "git@host:user/repo.git//" = "repo"
  /\ exists head seg tail,
       "git@host:user/repo.git//" = head ++ seg ++ tail
       /\ only_char "/" tail = true
       /\ has_char "/" seg = false
       /\ (head = EmptyString \/ exists h, head = h ++ "/")
       /\ (seg = EmptyString -> head = EmptyString)
       /\ (seg = get_repo_name "git@host:user/repo.git//" ++ ".git"
           \/ (Py.endswith seg ".git" = false
               /\ seg = get_repo_name "git@host:user/repo.git//")).
Proof.
  split; [reflexivity|].
  exact (proj1 get_repo_name_last_segment "git@host:user/repo.git//").
Defined.

(* ----------------------------------------------------------------- *)
(** ** The exclusion list and [splitext] *)

Lemma lower_ascii_idempotent (c : ascii) :
  Py.lower_ascii (Py.lower_ascii c) = Py.lower_ascii c.
Proof.
  unfold Py.lower_ascii.
  destruct ((65 <=? nat_of_ascii c) && (nat_of_ascii c <=? 90))%nat eqn:E.
  - apply andb_true_iff in E. destruct E as [E1 E2].
    apply Nat.leb_le in E1, E2.
    rewrite nat_ascii_embedding by lia.
    replace (nat_of_ascii c + 32 <=? 90)%nat with false
      by (symmetry; apply Nat.leb_gt; lia).
    rewrite andb_false_r. reflexivity.
  - rewrite E. reflexivity.
Qed.

Lemma lower_idempotent (s : string) : Py.lower (Py.lower s) = Py.lower s.
Proof.
  induction s as [|a s IH]; simpl; [reflexivity|].
  rewrite lower_ascii_idempotent, IH. reflexivity.
Qed.

Lemma lower_with_dot (ext : string) :
  Py.lower (with_dot ext) = "." ++ Py.lower (if Py.startswith ext "." then Py.slice_from 1 ext else ext).
Proof.
  unfold with_dot. destruct (Py.startswith ext ".") eqn:E.
  - apply startswith_dot in E. destruct E as [r ->].
    unfold Py.slice_from. simpl. rewrite Nat.sub_0_r, substring_full.
    reflexivity.
  - reflexivity.
Qed.

Lemma normalize_step_fold (exts acc : list string) :
  fold_left normalize_step exts acc
  = List.app acc (map (fun e => Py.lower (with_dot e)) exts).
Proof.
  revert acc; induction exts as [|e exts IH]; intros acc; simpl.
  - rewrite app_nil_r. reflexivity.
  - rewrite IH. unfold normalize_step, with_dot, Py.append.
    destruct (Py.startswith e "."); simpl; rewrite <- app_assoc; reflexivity.
Qed.

Lemma normalize_extensions_map (exts : list string) :
  normalize_extensions exts = map (fun e => Py.lower (with_dot e)) exts.
Proof. unfold normalize_extensions. rewrite normalize_step_fold. reflexivity. Qed.

Lemma mem_In (x : string) (l : list string) : Py.mem x l = true <-> In x l.
Proof.
  unfold Py.mem. rewrite existsb_exists. split.
  - intros [y [Hy He]]. apply String.eqb_eq in He. subst. assumption.
  - intros H. exists x. split; [assumption | apply String.eqb_refl].
Qed.

Lemma extension_excluded_In (excl : list string) (ext : string) :
  extension_excluded excl ext = true <-> In ext excl.
Proof.
  unfold extension_excluded. destruct excl as [|e excl].
  - split; [discriminate | intros []].
  - apply mem_In.
Qed.

Lemma normalized_starts_with_dot (exts : list string) :
  Forall (fun e => exists r, e = "." ++ r) (normalize_extensions exts).
Proof.
  rewrite normalize_extensions_map. apply Forall_forall.
  intros e He. apply in_map_iff in He. destruct He as [x [<- _]].
  rewrite lower_with_dot. eauto.
Qed.

Lemma rfind_from_bounds (c : ascii) (s : string) (i : Z) :
  (0 <= i)%Z ->
  (Py.rfind_from c s i = -1 \/
   (i <= Py.rfind_from c s i < i + Z.of_nat (String.length s)))%Z.
Proof.
  revert i; induction s as [|a s IH]; intros i Hi; simpl; [auto|].
  destruct (IH (i + 1)%Z ltac:(lia)) as [H | H].
  - rewrite H. simpl. destruct (Ascii.eqb a c); [right; lia | left; reflexivity].
  - right. destruct (Z.leb_spec 0 (Py.rfind_from c s (i + 1))); lia.
Qed.

Lemma rfind_from_absent (c : ascii) (s : string) (i : Z) :
  has_char c s = false -> Py.rfind_from c s i = (-1)%Z.
Proof.
  revert i; induction s as [|a s IH]; intros i H; simpl in *; [reflexivity|].
  apply orb_false_iff in H. destruct H as [Ha Hs].
  rewrite IH by assumption. simpl. rewrite Ha. reflexivity.
Qed.

(** A name without a dot has the empty extension. *)
Lemma splitext_no_dot (p : string) :
  has_char "." p = false -> snd (splitext p) = EmptyString.
Proof.
  intros H. unfold splitext, Py.rfind.
  rewrite (rfind_from_absent "." p 0 H).
  destruct (rfind_from_bounds "/" p 0 ltac:(lia)) as [E | E].
  - rewrite E. reflexivity.
  - destruct (Z.ltb_spec (Py.rfind_from "/" p 0) (-1)); [lia | reflexivity].
Qed.

(** A name whose only dot is the leading one has the empty extension. *)
Lemma splitext_dotfile (r : string) :
  has_char "." r = false -> snd (splitext ("." ++ r)) = EmptyString.
Proof.
  intros H. unfold splitext, Py.rfind.
  assert (Hdot : Py.rfind_from "." ("." ++ r) 0 = 0%Z).
  { simpl. rewrite (rfind_from_absent "." r _ H). reflexivity. }
  rewrite Hdot.
  destruct (rfind_from_bounds "/" ("." ++ r) 0 ltac:(lia)) as [E | E].
  - rewrite E. reflexivity.
  - destruct (Z.ltb_spec (Py.rfind_from "/" ("." ++ r) 0) 0); [lia | reflexivity].
Qed.

(* ----------------------------------------------------------------- *)
(** ** What [process_file] does, case by case *)

Lemma getsize_raises_OSError (p : path) (e : exn) :
  os_path_getsize p = Raise e -> exn_class_of e = OSError.
Proof.
  unfold os_path_getsize.
  destruct (target p) as [[f | err entries]|]; try discriminate.
  - destruct (file_size f); [discriminate|]. intros H; inversion H; reflexivity.
  - intros H; inversion H; reflexivity.
Qed.

(** Entering [process_file] with the outcome [H] of the extension check. *)
Ltac enter_process_file file H :=
  unfold process_file; fold (file_ext_of file); rewrite H.

Lemma write_block_eq (current_root : path) (file : string) (w : world) :
  (write (separator ++ LF) ;;
   write ("File: " ++ os_path_relpath (os_path_join current_root file) ++ LF) ;;
   write (separator ++ LF) ;;
   try_except
     (content <- lift (open_read (os_path_join current_root file)) ;;
      write content)
     (fun e => write ("[!] Error reading file: " ++ exn_str e ++ LF)) ;;
   write (LF ++ LF))%io w
  = (Normal tt, written w (file_block (os_path_join current_root file))).
Proof.
  unfold file_block, content_section, error_line, written.
  cbv [bind write try_except lift global_out stdout].
  destruct (open_read (os_path_join current_root file)) as [text | e];
    f_equal; f_equal; rewrite !append_assoc; reflexivity.
Qed.

Lemma process_file_excluded (excl : list string) (current_root : path)
      (file : string) (max : option pyfloat) (w : world) :
  extension_excluded excl (file_ext_of file) = true ->
  process_file excl max current_root file w
  = (ContinueLoop,
     logged w (skip_extension_message
                 (os_path_relpath (os_path_join current_root file))
                 (file_ext_of file))).
Proof.
  intros H. enter_process_file file H. reflexivity.
Qed.

Lemma process_file_no_limit (excl : list string) (current_root : path)
      (file : string) (w : world) :
  extension_excluded excl (file_ext_of file) = false ->
  process_file excl None current_root file w
  = (Normal tt, written w (file_block (os_path_join current_root file))).
Proof.
  intros H. enter_process_file file H.
  rewrite <- write_block_eq. reflexivity.
Qed.

Lemma process_file_no_size (excl : list string) (current_root : path)
      (file : string) (limit : pyfloat) (w : world) (e : exn) :
  extension_excluded excl (file_ext_of file) = false ->
  os_path_getsize (os_path_join current_root file) = Raise e ->
  process_file excl (Some limit) current_root file w
  = (ContinueLoop,
     logged w (no_size_message
                 (os_path_relpath (os_path_join current_root file))
                 (exn_str e))).
Proof.
  intros H Hsize. enter_process_file file H.
  cbv [bind ret try_except_OSError lift]. rewrite Hsize.
  rewrite (getsize_raises_OSError _ _ Hsize). reflexivity.
Qed.

Lemma process_file_too_large (excl : list string) (current_root : path)
      (file : string) (limit : pyfloat) (w : world) (size : Z) :
  extension_excluded excl (file_ext_of file) = false ->
  os_path_getsize (os_path_join current_root file) = Ok size ->
  int_gt_float size (float_mul_1024 (float_mul_1024 limit)) = true ->
  process_file excl (Some limit) current_root file w
  = (ContinueLoop,
     logged w (too_large_message
                 (os_path_relpath (os_path_join current_root file)) size)).
Proof.
  intros H Hsize Hgt. enter_process_file file H.
  cbv [bind ret try_except_OSError lift]. rewrite Hsize, Hgt.
  reflexivity.
Qed.

Lemma process_file_within_limit (excl : list string) (current_root : path)
      (file : string) (limit : pyfloat) (w : world) (size : Z) :
  extension_excluded excl (file_ext_of file) = false ->
  os_path_getsize (os_path_join current_root file) = Ok size ->
  int_gt_float size (float_mul_1024 (float_mul_1024 limit)) = false ->
  process_file excl (Some limit) current_root file w
  = (Normal tt, written w (file_block (os_path_join current_root file))).
Proof.
  intros H Hsize Hgt. enter_process_file file H.
  rewrite <- write_block_eq.
  cbv [bind ret try_except_OSError lift]. rewrite Hsize, Hgt.
  reflexivity.
Qed.

Lemma process_file_passes excl max current_root file w :
  passes_checks excl max current_root file = true ->
  process_file excl max current_root file w
  = (Normal tt, written w (file_block (os_path_join current_root file))).
Proof.
  unfold passes_checks. intros H. apply andb_true_iff in H.
  destruct H as [Hext Hsize]. apply negb_true_iff in Hext.
  destruct max as [limit|].
  - destruct (os_path_getsize (os_path_join current_root file)) as [size|e] eqn:E;
      [|discriminate].
    apply negb_true_iff in Hsize.
    eapply process_file_within_limit; eauto.
  - apply process_file_no_limit; assumption.
Qed.

Lemma process_file_skips excl max current_root file w :
  passes_checks excl max current_root file = false ->
  exists line,
    process_file excl max current_root file w = (ContinueLoop, logged w line).
Proof.
  unfold passes_checks. intros H.
  destruct (extension_excluded excl (file_ext_of file)) eqn:Hext.
  - eexists. apply process_file_excluded; assumption.
  - simpl in H. destruct max as [limit|]; [|discriminate].
    destruct (os_path_getsize (os_path_join current_root file)) as [size|e] eqn:E.
    + apply negb_false_iff in H. eexists.
      eapply process_file_too_large; eauto.
    + eexists. eapply process_file_no_size; eauto.
Qed.

(** The three console messages are different texts. *)
Lemma skip_extension_not_no_size rel ext rel' msg :
  skip_extension_message rel ext <> no_size_message rel' msg.
Proof. unfold skip_extension_message, no_size_message, ESC. discriminate. Qed.

Lemma skip_extension_not_too_large rel ext size :
  skip_extension_message rel ext <> too_large_message rel size.
Proof.
  unfold skip_extension_message, too_large_message. intros H.
  do 4 apply append_inv_l in H. discriminate.
Qed.

Lemma logged_inj w a b : logged w a = logged w b -> a = b.
Proof.
  unfold logged, Py.append. intros H. inversion H as [H1].
  apply app_inv_head in H1. congruence.
Qed.

Lemma process_file_excluded_iff excl max current_root file w :
  process_file excl max current_root file w
  = (ContinueLoop,
     logged w (skip_extension_message
                 (os_path_relpath (os_path_join current_root file))
                 (file_ext_of file)))
  <-> extension_excluded excl (file_ext_of file) = true.
Proof.
  split; [|apply process_file_excluded].
  intros H.
  destruct (extension_excluded excl (file_ext_of file)) eqn:Hext; auto.
  exfalso.
  destruct (passes_checks excl max current_root file) eqn:Hp.
  - rewrite (process_file_passes _ _ _ _ _ Hp) in H. discriminate.
  - unfold passes_checks in Hp. rewrite Hext in Hp. simpl in Hp.
    destruct max as [limit|]; [|discriminate].
    destruct (os_path_getsize (os_path_join current_root file))
      as [size|e] eqn:E.
    + apply negb_false_iff in Hp.
      rewrite (process_file_too_large _ _ _ _ _ _ Hext E Hp) in H.
      apply (f_equal snd) in H. simpl in H. apply logged_inj in H.
      symmetry in H. eapply skip_extension_not_too_large; eauto.
    + rewrite (process_file_no_size _ _ _ _ _ _ Hext E) in H.
      apply (f_equal snd) in H. simpl in H. apply logged_inj in H.
      symmetry in H. eapply skip_extension_not_no_size; eauto.
Qed.

(* ----------------------------------------------------------------- *)
(** ** C5: the extension check *)


Lemma is_upper_spec (a : ascii) :
  is_upper a = true <-> (65 <= nat_of_ascii a <= 90)%nat.
Proof.
  unfold is_upper. rewrite andb_true_iff, !Nat.leb_le. tauto.
Qed.

Lemma lower_ascii_nat (a : ascii) :
  nat_of_ascii (Py.lower_ascii a)
  = if is_upper a then (nat_of_ascii a + 32)%nat else nat_of_ascii a.
Proof.
  unfold Py.lower_ascii. fold (is_upper a).
  destruct (is_upper a) eqn:E; [|reflexivity].
  apply is_upper_spec in E. apply nat_ascii_embedding. lia.
Qed.





Lemma is_ascii_append (a b : string) :
  is_ascii (a ++ b) = is_ascii a && is_ascii b.
Proof.
  induction a as [|x a IH]; simpl; [reflexivity|].
  rewrite IH, andb_assoc. reflexivity.
Qed.


Lemma is_ascii_lower (s : string) :
  is_ascii s = true -> is_ascii (Py.lower s) = true.
Proof.
  induction s as [|a s IH]; simpl; [reflexivity|].
  intros H. apply andb_true_iff in H. destruct H as [Ha Hs].
  rewrite (IH Hs), andb_true_r. apply Nat.ltb_lt in Ha. apply Nat.ltb_lt.
  rewrite lower_ascii_nat.
  destruct (is_upper a) eqn:E; [apply is_upper_spec in E; lia | exact Ha].
Qed.




(* ----------------------------------------------------------------- *)
(** ** C10: files without an extension *)

(** C10.  Whatever exclusion list the user supplies, every normalised
    excluded extension is a dot followed by some text, hence not empty; a
    file name with no dot, a file name whose only dot is the leading one,
    and more generally any name on which [splitext] gives the empty
    extension, has the empty lower-cased extension and is not skipped by
    the extension check. *)
Theorem empty_extension_never_excluded :
  forall (exclude_ext : list string) (max : option pyfloat)
         (current_root : path) (file : string) (w : world),
    (has_char "." file = false
     \/ (exists r, file = "." ++ r /\ has_char "." r = false)
     \/ snd (splitext file) = EmptyString) ->
    Forall (fun e => exists r, e = "." ++ r) (normalize_extensions exclude_ext)
    /\ file_ext_of file = EmptyString
    /\ extension_excluded (normalize_extensions exclude_ext) (file_ext_of file)
       = false
    /\ process_file (normalize_extensions exclude_ext) max current_root file w
       <> (ContinueLoop,
           logged w (skip_extension_message
                       (os_path_relpath (os_path_join current_root file))
                       (file_ext_of file))).
Proof.
  intros exclude_ext max current_root file w H.
  assert (Hext : snd (splitext file) = EmptyString).
  { destruct H as [H | [[r [-> H]] | H]];
      [apply splitext_no_dot | apply splitext_dotfile | ]; assumption. }
  assert (Hdots := normalized_starts_with_dot exclude_ext).
  assert (Hempty : file_ext_of file = EmptyString).
  { unfold file_ext_of. rewrite Hext. reflexivity. }
  assert (Hnot : ~ In (file_ext_of file) (normalize_extensions exclude_ext)).
  { rewrite Hempty. intros Hin. rewrite Forall_forall in Hdots.
    destruct (Hdots _ Hin) as [r Hr]. discriminate. }
  repeat split; auto.
  - destruct (extension_excluded (normalize_extensions exclude_ext)
                                 (file_ext_of file)) eqn:E; auto.
    apply extension_excluded_In in E. contradiction.
  - intros Hskip. apply Hnot. apply extension_excluded_In.
    apply (process_file_excluded_iff _ max current_root file w). exact Hskip.
Qed.

Lemma empty_extension_never_excluded_witness :
  has_char "." "Makefile" = false
  /\ extension_excluded (normalize_extensions ["LOG"; ".txt"])
                        (file_ext_of "Makefile") = false.
Proof.
  split; [reflexivity|].
  exact (proj1 (proj2 (proj2
    (empty_extension_never_excluded ["LOG"; ".txt"] None (tmpdir sample_tree)
       "Makefile" empty_world (or_introl eq_refl))))).
Defined.

(* ----------------------------------------------------------------- *)
(** ** C6: the size check *)

Lemma float_overflow_large :
  (9223372036854775808 * float_one <= float_overflow)%Z.
Proof. apply Z.leb_le. vm_compute. reflexivity. Qed.

Lemma float_one_pos : (0 < float_one)%Z.
Proof. unfold float_one. apply Z.pow_pos_nonneg; lia. Qed.

(** Scaling a double by 1024 gives a double: the product is exact, or it
    overflows to an infinity. *)
Lemma float_mul_1024_double (x : pyfloat) :
  is_double x -> is_double (float_mul_1024 x).
Proof.
  destruct x as [k| | |]; try exact (fun _ => I).
  intros H. unfold is_double in H. destruct H as [m [e [Hk [Hm [He Hbound]]]]].
  unfold float_mul_1024.
  destruct (Z.leb_spec float_overflow (k * 1024)); [exact I|].
  destruct (Z.leb_spec (k * 1024) (- float_overflow)); [exact I|].
  exists m, (e + 10)%Z. split; [|split; [exact Hm|split; lia]].
  rewrite Z.pow_add_r by lia. rewrite Hk.
  change (2 ^ 10)%Z with 1024%Z. ring.
Qed.

Lemma float_mul_1024_finite (k : Z) :
  (Z.abs (k * 1024) < float_overflow)%Z ->
  float_mul_1024 (Finite k) = Finite (k * 1024).
Proof.
  intros H. unfold float_mul_1024.
  destruct (Z.leb_spec float_overflow (k * 1024)); [lia|].
  destruct (Z.leb_spec (k * 1024) (- float_overflow)); [lia|].
  reflexivity.
Qed.

Lemma two_bytes_limit_double : is_double two_bytes_limit.
Proof.
  exists 1%Z, 1055%Z. split; [|split; [|split]].
  - unfold two_bytes_limit. lia.
  - apply Z.ltb_lt. vm_compute. reflexivity.
  - lia.
  - apply Z.ltb_lt. vm_compute. reflexivity.
Qed.

Lemma float_one_positive : float_one = Zpos (2 ^ 1074)%positive.
Proof. vm_compute. reflexivity. Qed.

Lemma exceeds_limit_finite (size k : Z) :
  exceeds_limit size (Finite k) <-> (k * 1048576 < size * float_one)%Z.
Proof.
  unfold exceeds_limit, Qlt, Qmult, float_value, inject_Z.
  cbn [Qnum Qden]. rewrite !Pos.mul_1_r, float_one_positive. lia.
Qed.

Lemma int_gt_float_scaled (size : Z) (limit : pyfloat) :
  (0 <= size < 9223372036854775808)%Z ->
  int_gt_float size (float_mul_1024 (float_mul_1024 limit)) = true
  <-> exceeds_limit size limit.
Proof.
  intros Hsize. pose proof float_overflow_large as Hover.
  pose proof float_one_pos as HP.
  destruct limit as [k| | |];
    [ | split; [discriminate | intros []]
      | split; intros; [exact I | reflexivity]
      | split; [discriminate | intros []] ].
  rewrite exceeds_limit_finite.
  unfold float_mul_1024, int_gt_float.
  generalize dependent float_one. intros P Hover HP.
  generalize dependent float_overflow. intros F Hover.
  assert (Hbound : (size * P < F)%Z) by nia.
  destruct (Z.leb_spec F (k * 1024)).
  { split; [discriminate | intros; nia]. }
  destruct (Z.leb_spec (k * 1024) (- F)).
  { split; auto. intros _. nia. }
  destruct (Z.leb_spec F (k * 1024 * 1024)).
  { split; [discriminate | intros; nia]. }
  destruct (Z.leb_spec (k * 1024 * 1024) (- F)).
  { split; auto. intros _. nia. }
  rewrite Z.ltb_lt. lia.
Qed.

(** C6.  For a file that reaches the size check: with no maximum
    configured the file is written, whatever its size and even when its
    size cannot be read; with a maximum of [limit] megabytes, a file whose
    stat fails is skipped and the failure is reported on the console, and a
    file whose stat gives [size] is skipped as too large exactly when
    [size] strictly exceeds [limit * 1024 * 1024], and written exactly when
    it does not. *)
Theorem size_check_strict :
  forall (excl : list string) (max : option pyfloat) (current_root : path)
         (file : string) (w : world),
    extension_excluded excl (file_ext_of file) = false ->
    let filepath := os_path_join current_root file in
    let relative_path := os_path_relpath filepath in
    let outcome := process_file excl max current_root file w in
    (max = None -> outcome = (Normal tt, written w (file_block filepath)))
    /\ (forall limit e,
           max = Some limit -> os_path_getsize filepath = Raise e ->
           outcome
           = (ContinueLoop, logged w (no_size_message relative_path (exn_str e))))
    /\ (forall limit size,
           max = Some limit -> os_path_getsize filepath = Ok size ->
           (0 <= size < 9223372036854775808)%Z ->
           (outcome = (ContinueLoop, logged w (too_large_message relative_path size))
            <-> exceeds_limit size limit)
           /\ (outcome = (Normal tt, written w (file_block filepath))
               <-> ~ exceeds_limit size limit)).
Proof.
  intros excl max current_root file w Hext filepath relative_path outcome.
  subst outcome. split; [|split].
  - intros ->. apply process_file_no_limit; assumption.
  - intros limit e -> Hsize. apply process_file_no_size; assumption.
  - intros limit size -> Hsize Hrange.
    pose proof (int_gt_float_scaled size limit Hrange) as Hgt.
    destruct (int_gt_float size (float_mul_1024 (float_mul_1024 limit))) eqn:E.
    + rewrite (process_file_too_large _ _ _ _ _ _ Hext Hsize E).
      split; split; intros H.
      * apply Hgt; reflexivity.
      * reflexivity.
      * discriminate.
      * exfalso. apply H. apply Hgt. reflexivity.
    + rewrite (process_file_within_limit _ _ _ _ _ _ Hext Hsize E).
      split; split; intros H.
      * discriminate.
      * apply Hgt in H. discriminate.
      * intros Hex. apply Hgt in Hex. discriminate.
      * reflexivity.
Qed.

Lemma size_check_strict_witness :
  extension_excluded [] (file_ext_of "README.md") = false
  /\ process_file [] (Some two_bytes_limit) (tmpdir sample_tree) "README.md"
                  empty_world
     = (ContinueLoop, logged empty_world (too_large_message "README.md" 3)).
Proof.
  split; [reflexivity|].
  pose proof (size_check_strict [] (Some two_bytes_limit) (tmpdir sample_tree)
                "README.md" empty_world eq_refl) as [_ [_ H]].
  destruct (H two_bytes_limit 3%Z eq_refl eq_refl ltac:(lia)) as [[_ Hskip] _].
  apply Hskip. vm_compute. reflexivity.
Defined.

(* ----------------------------------------------------------------- *)
(** ** C1: the block written for a file *)

(** C1, as stated, fails on a file that cannot be decoded: the file
    [a.bin] of [sample_tree] passes both checks, and its block ends with
    three newline characters after the placeholder text, not two. *)
Lemma error_block_has_three_newlines :
  passes_checks [] None (tmpdir sample_tree) "a.bin" = true
  /\ open_read (os_path_join (tmpdir sample_tree) "a.bin")
     = Raise (mk_exn UnicodeDecodeError "invalid start byte")
  /\ global_out (snd (process_file [] None (tmpdir sample_tree) "a.bin"
                                   empty_world))
     = separator ++ LF ++ "File: a.bin" ++ LF ++ separator ++ LF
       ++ "[!] Error reading file: invalid start byte" ++ LF ++ LF ++ LF
  /\ spec_file_block (os_path_join (tmpdir sample_tree) "a.bin")
     = separator ++ LF ++ "File: a.bin" ++ LF ++ separator ++ LF
       ++ "[!] Error reading file: invalid start byte" ++ LF ++ LF
  /\ process_file [] None (tmpdir sample_tree) "a.bin" empty_world
     <> (Normal tt,
         written empty_world
           (spec_file_block (os_path_join (tmpdir sample_tree) "a.bin"))).
Proof.
  repeat split; try reflexivity.
  vm_compute. discriminate.
Qed.

(** C1, amended.  For every file that passes the extension check and the
    size check, and whatever was written before, the concatenator appends
    to the contents file exactly: a line of 48 [=] characters, the line
    [File: <relative path>], the same line of 48 [=] characters, the
    content section, and two newline characters.  The content section is
    the file's decoded text when the file can be read, and otherwise the
    line [[!] Error reading file: <message>] with the newline that ends
    it; in that case three newline characters follow the message. *)
Theorem written_block_shape :
  forall (excl : list string) (max : option pyfloat) (current_root : path)
         (file : string) (w : world),
    passes_checks excl max current_root file = true ->
    let filepath := os_path_join current_root file in
    process_file excl max current_root file w
    = (Normal tt,
       mk_world (stdout w)
         (global_out w
          ++ separator ++ LF ++ "File: " ++ os_path_relpath filepath ++ LF
          ++ separator ++ LF ++ content_section filepath ++ LF ++ LF))
    /\ separator = repeat_char "=" 48
    /\ LF = String (ascii_of_nat 10) EmptyString
    /\ (forall text, open_read filepath = Ok text ->
                     content_section filepath = text)
    /\ (forall e, open_read filepath = Raise e ->
                  content_section filepath
                  = "[!] Error reading file: " ++ exn_str e ++ LF).
Proof.
  intros excl max current_root file w Hp filepath.
  split; [|repeat split].
  - rewrite (process_file_passes _ _ _ _ _ Hp). reflexivity.
  - intros text H. unfold content_section. rewrite H. reflexivity.
  - intros e H. unfold content_section. rewrite H. reflexivity.
Qed.

Lemma written_block_shape_witness :
  passes_checks [".md"] (Some two_bytes_limit) (tmpdir sample_tree) "a.bin"
  = true
  /\ global_out (snd (process_file [".md"] (Some two_bytes_limit)
                        (tmpdir sample_tree) "a.bin" empty_world))
     = separator ++ LF ++ "File: a.bin" ++ LF ++ separator ++ LF
       ++ "[!] Error reading file: invalid start byte" ++ LF ++ LF ++ LF.
Proof.
  split; [vm_compute; reflexivity|].
  pose proof (written_block_shape [".md"] (Some two_bytes_limit)
                (tmpdir sample_tree) "a.bin" empty_world) as H.
  destruct H as [H _]; [vm_compute; reflexivity|].
  rewrite H. reflexivity.
Defined.

(* ----------------------------------------------------------------- *)
(** ** The walk never raises *)

Lemma for_each_normal {X} (body : X -> M unit) (l : list X) :
  (forall x w, no_exception (fst (body x w))) ->
  forall w, fst (for_each l body w) = Normal tt.
Proof.
  intros Hbody. induction l as [|x l IH]; intros w; simpl; [reflexivity|].
  specialize (Hbody x w). destruct (body x w) as [[[]|e|] w']; simpl in *;
    auto; contradiction.
Qed.

Lemma process_file_no_exception excl max current_root file w :
  no_exception (fst (process_file excl max current_root file w)).
Proof.
  destruct (passes_checks excl max current_root file) eqn:Hp.
  - rewrite (process_file_passes _ _ _ _ _ Hp). exact I.
  - destruct (process_file_skips _ _ _ _ w Hp) as [line ->]. exact I.
Qed.

Lemma walk_body_normal excl max current_root dirs files w :
  exists w',
    walk_body excl max current_root dirs files w
    = (Normal (if Py.mem ".git" dirs then list_remove ".git" dirs else dirs), w').
Proof.
  unfold walk_body, bind, ret.
  pose proof (for_each_normal (process_file excl max current_root) files
                (process_file_no_exception excl max current_root) w) as H.
  destruct (for_each files (process_file excl max current_root) w) as [o w'].
  simpl in H. subst o. eauto.
Qed.

Lemma os_walk_fuel_normal excl max fuel :
  forall top w, fst (os_walk_fuel fuel top (walk_body excl max) w) = Normal tt.
Proof.
  induction fuel as [|fuel IH]; intros top w; simpl; [reflexivity|].
  destruct (scandir top) as [[dirs nondirs]|e]; [|reflexivity].
  unfold bind.
  destruct (walk_body_normal excl max top dirs nondirs w) as [w' ->].
  apply for_each_normal. intros x w0. rewrite IH. exact I.
Qed.

Lemma concatenate_normal excl max tmpdirname w :
  fst (concatenate excl max tmpdirname w) = Normal tt.
Proof. apply os_walk_fuel_normal. Qed.

(* ----------------------------------------------------------------- *)
(** ** Facts about trees *)

(** Induction on a tree, the entries of a directory satisfying the
    property. *)
Lemma node_induction (P : node -> Prop) :
  (forall f, P (File f)) ->
  (forall err entries, Forall P (entry_nodes entries) -> P (Dir err entries)) ->
  forall n, P n.
Proof.
  intros Hfile Hdir.
  refine (fix IH (n : node) : P n :=
            match n with
            | File f => Hfile f
            | Dir err entries =>
                Hdir err entries
                  ((fix go (l : list (string * node))
                     : Forall P (entry_nodes l) :=
                      match l with
                      | [] => Forall_nil P
                      | (name, c) :: rest => Forall_cons c (IH c) (go rest)
                      end) entries)
            end).
Qed.

Lemma height_Dir err entries : height (Dir err entries) = S (heights entries).
Proof.
  simpl. f_equal. induction entries as [|[n c] l IH]; simpl; [reflexivity|].
  rewrite IH. reflexivity.
Qed.

Lemma readable_Dir err entries :
  readable (Dir err entries)
  <-> err = None /\ Forall readable (entry_nodes entries).
Proof.
  simpl. apply and_iff_compat_l.
  induction entries as [|[n c] l IH]; simpl.
  - split; auto.
  - rewrite IH. split.
    + intros [H1 H2]. constructor; assumption.
    + intros H. inversion H; subst. auto.
Qed.

Lemma well_formed_Dir err entries :
  well_formed (Dir err entries)
  <-> NoDup (map fst entries) /\ Forall well_formed (entry_nodes entries).
Proof.
  simpl. apply and_iff_compat_l.
  induction entries as [|[n c] l IH]; simpl.
  - split; auto.
  - rewrite IH. split.
    + intros [H1 H2]. constructor; assumption.
    + intros H. inversion H; subst. auto.
Qed.

Lemma count_entries_Dir err entries :
  count_entries (Dir err entries) = counts entries.
Proof.
  simpl. induction entries as [|[n c] l IH]; simpl; [reflexivity|].
  rewrite IH. reflexivity.
Qed.

Lemma lookup_In name entries c :
  lookup name entries = Some c -> In (name, c) entries.
Proof.
  induction entries as [|[n c'] l IH]; simpl; [discriminate|].
  destruct (String.eqb_spec name n) as [->|Hne].
  - intros H; inversion H; subst. left; reflexivity.
  - intros H. right. auto.
Qed.

Lemma lookup_names name entries :
  In name (map fst entries) -> exists c, lookup name entries = Some c.
Proof.
  induction entries as [|[n c'] l IH]; simpl; [intros []|].
  destruct (String.eqb_spec name n) as [->|Hne]; [eauto|].
  intros [H | H]; [congruence | auto].
Qed.

Lemma lookup_None name entries :
  ~ In name (map fst entries) -> lookup name entries = None.
Proof.
  induction entries as [|[n c] l IH]; simpl; [reflexivity|].
  intros H. destruct (String.eqb_spec name n) as [->|]; [tauto|].
  apply IH. tauto.
Qed.

Lemma In_lookup name c entries :
  NoDup (map fst entries) -> In (name, c) entries -> lookup name entries = Some c.
Proof.
  induction entries as [|[n c'] l IH]; simpl; intros Hnd Hin; [contradiction|].
  inversion Hnd as [|? ? Hnotin Hnd']; subst.
  destruct Hin as [Heq | Hin].
  - inversion Heq; subst. rewrite String.eqb_refl. reflexivity.
  - destruct (String.eqb_spec name n) as [->|]; [|auto].
    exfalso. apply Hnotin. apply in_map_iff. exists (n, c). auto.
Qed.

Lemma lookup_height name entries c :
  lookup name entries = Some c -> (height c <= heights entries)%nat.
Proof.
  induction entries as [|[n c'] l IH]; simpl; [discriminate|].
  destruct (String.eqb name n).
  - intros H; inversion H; subst. apply Nat.le_max_l.
  - intros H. specialize (IH H). lia.
Qed.

Lemma child_height top err entries name :
  target top = Some (Dir err entries) ->
  (path_height (os_path_join top name) <= heights entries)%nat.
Proof.
  intros Ht. unfold path_height, os_path_join. rewrite Ht. simpl.
  destruct (lookup name entries) as [c|] eqn:Hc; [|lia].
  exact (lookup_height _ _ _ Hc).
Qed.

Lemma lookup_Forall (P : node -> Prop) name entries c :
  Forall P (entry_nodes entries) -> lookup name entries = Some c -> P c.
Proof.
  intros HF H. apply lookup_In in H. rewrite Forall_forall in HF.
  apply HF. unfold entry_nodes. apply in_map_iff. exists (name, c). auto.
Qed.

(** With distinct names, looking a name up gives the node listed with it. *)
Lemma lookup_NoDup entries :
  NoDup (map fst entries) ->
  map (fun name => lookup name entries) (map fst entries)
  = map (fun e => Some (snd e)) entries.
Proof.
  induction entries as [|[n c] l IH]; simpl; intros Hnd; [reflexivity|].
  inversion Hnd as [|? ? Hnotin Hnd']; subst.
  rewrite String.eqb_refl. f_equal.
  rewrite <- (IH Hnd'). apply map_ext_in. intros name Hin.
  destruct (String.eqb_spec name n) as [->|]; [contradiction | reflexivity].
Qed.

Lemma sample_tree_readable : readable sample_tree.
Proof. simpl. tauto. Qed.

Lemma sample_tree_well_formed : well_formed sample_tree.
Proof.
  simpl. repeat split; auto;
    repeat (constructor; [simpl; intuition discriminate|]); constructor.
Qed.

Lemma nested_git_tree_well_formed : well_formed nested_git_tree.
Proof.
  simpl. repeat split; auto;
    repeat (constructor; [simpl; intuition discriminate|]); constructor.
Qed.

(* ----------------------------------------------------------------- *)
(** ** Facts about [sorted] *)

Lemma insert_sorted_perm x l : Permutation (x :: l) (insert_sorted x l).
Proof.
  induction l as [|y l IH]; simpl; [apply Permutation_refl|].
  destruct (String.leb x y); [apply Permutation_refl|].
  eapply perm_trans; [apply perm_swap|]. apply perm_skip. exact IH.
Qed.

Lemma sorted_perm l : Permutation l (sorted l).
Proof.
  induction l as [|x l IH]; simpl; [constructor|].
  eapply perm_trans; [apply perm_skip; exact IH|]. apply insert_sorted_perm.
Qed.

Lemma sorted_In x l : In x (sorted l) <-> In x l.
Proof.
  split; apply Permutation_in;
    [apply Permutation_sym|]; apply sorted_perm.
Qed.

Lemma insert_sorted_HdRel a x l :
  HdRel name_le a l -> name_le a x -> HdRel name_le a (insert_sorted x l).
Proof.
  intros Hl Hax. destruct l as [|y l]; simpl.
  - constructor. assumption.
  - destruct (String.leb x y); constructor; [assumption|].
    inversion Hl; assumption.
Qed.

Lemma insert_sorted_Sorted x l :
  Sorted name_le l -> Sorted name_le (insert_sorted x l).
Proof.
  induction 1 as [|y l Hs IH Hhd]; simpl.
  - repeat constructor.
  - destruct (String.leb x y) eqn:E.
    + constructor; [constructor; assumption|]. constructor. exact E.
    + constructor; [exact IH|].
      apply insert_sorted_HdRel; [assumption|].
      destruct (String.leb_total x y) as [H | H]; [congruence | exact H].
Qed.

Lemma sorted_Sorted l : Sorted name_le (sorted l).
Proof.
  induction l as [|x l IH]; simpl; [constructor|].
  apply insert_sorted_Sorted. exact IH.
Qed.

Lemma ascii_compare_refl (a : ascii) : Ascii.compare a a = Eq.
Proof. unfold Ascii.compare. apply N.compare_refl. Qed.

Lemma ascii_compare_lt_trans (a b c : ascii) :
  Ascii.compare a b = Lt -> Ascii.compare b c = Lt -> Ascii.compare a c = Lt.
Proof.
  unfold Ascii.compare. rewrite !N.compare_lt_iff. apply N.lt_trans.
Qed.

Lemma string_compare_lt_trans (a b c : string) :
  String.compare a b = Lt -> String.compare b c = Lt -> String.compare a c = Lt.
Proof.
  revert b c; induction a as [|x a IH]; intros [|y b] [|z c]; simpl;
    try discriminate; try reflexivity.
  destruct (Ascii.compare x y) eqn:Exy; try discriminate;
    destruct (Ascii.compare y z) eqn:Eyz; try discriminate; intros Hab Hbc.
  - apply Ascii.compare_eq_iff in Exy, Eyz. subst.
    rewrite ascii_compare_refl. eapply IH; eauto.
  - apply Ascii.compare_eq_iff in Exy. subst. rewrite Eyz. reflexivity.
  - apply Ascii.compare_eq_iff in Eyz. subst. rewrite Exy. reflexivity.
  - rewrite (ascii_compare_lt_trans _ _ _ Exy Eyz). reflexivity.
Qed.

Lemma name_le_trans (a b c : string) : name_le a b -> name_le b c -> name_le a c.
Proof.
  unfold name_le, String.leb. intros Hab Hbc.
  destruct (String.compare a b) eqn:Eab; try discriminate;
    destruct (String.compare b c) eqn:Ebc; try discriminate.
  - apply String.compare_eq_iff in Eab. subst. rewrite Ebc. reflexivity.
  - apply String.compare_eq_iff in Eab. subst. rewrite Ebc. reflexivity.
  - apply String.compare_eq_iff in Ebc. subst. rewrite Eab. reflexivity.
  - rewrite (string_compare_lt_trans _ _ _ Eab Ebc). reflexivity.
Qed.

Lemma sorted_StronglySorted l : StronglySorted name_le (sorted l).
Proof.
  apply Sorted_StronglySorted; [|apply sorted_Sorted].
  intros a b c. apply name_le_trans.
Qed.

(* ----------------------------------------------------------------- *)
(** ** The shape of a rendered tree *)

Lemma build_tree_lines_fuel_S fuel start_path prefix :
  build_tree_lines_fuel (S fuel) start_path prefix
  = (names <~ os_listdir start_path ;;
     for_enumerate (sorted names) 0%Z
       (tree_body (build_tree_lines_fuel fuel) start_path prefix
                  (len (sorted names))) [])%res.
Proof. reflexivity. Qed.

Lemma for_enumerate_ext {S : Type} (f g : Z -> string -> S -> result S)
      (items : list string) :
  (forall i item s, In item items -> f i item s = g i item s) ->
  forall i s, for_enumerate items i f s = for_enumerate items i g s.
Proof.
  induction items as [|item rest IH]; intros H i s; simpl; [reflexivity|].
  rewrite (H i item s (or_introl eq_refl)).
  destruct (g i item s) as [s'|e]; [|reflexivity].
  apply IH. intros j x s0 Hx. apply H. right. exact Hx.
Qed.

(** The renderer is given enough fuel: more changes nothing, so the
    recursion error of the fuel-less case is never met. *)
Lemma build_tree_lines_fuel_enough (fuel : nat) :
  forall fuel' start_path prefix,
    (path_height start_path < fuel)%nat ->
    (path_height start_path < fuel')%nat ->
    build_tree_lines_fuel fuel start_path prefix
    = build_tree_lines_fuel fuel' start_path prefix.
Proof.
  induction fuel as [|fuel IH]; intros fuel' p prefix Hf Hf'; [lia|].
  destruct fuel' as [|fuel']; [lia|].
  rewrite !build_tree_lines_fuel_S.
  destruct (os_listdir p) as [names|e] eqn:Hls; [|reflexivity].
  simpl bindR. apply for_enumerate_ext. intros i item lines _.
  unfold tree_body.
  destruct (os_path_isdir (os_path_join p item)); [|reflexivity].
  unfold os_listdir in Hls.
  destruct (target p) as [[f | [msg|] entries]|] eqn:Ht; try discriminate.
  pose proof (child_height p None entries item Ht) as Hchild.
  unfold path_height in Hf, Hf'. rewrite Ht, height_Dir in Hf, Hf'.
  rewrite (IH fuel'); [reflexivity | lia | lia].
Qed.

Lemma last_index (i n : Z) (rest : list string) :
  (i + 1 + len rest = n)%Z -> (i =? n - 1)%Z = is_last rest.
Proof.
  unfold len. intros H. destruct rest as [|x rest]; simpl in *.
  - apply Z.eqb_eq. lia.
  - apply Z.eqb_neq. lia.
Qed.

Lemma tree_loop_rendered rec p prefix entries n :
  target p = Some (Dir None entries) ->
  Forall readable (entry_nodes entries) ->
  (forall item sub pfx,
      lookup item entries = Some (Dir None sub) ->
      exists sub_lines,
        rec (os_path_join p item) pfx = Ok sub_lines
        /\ rendered sub pfx (sorted (map fst sub)) sub_lines) ->
  forall rest i lines0,
    (i + len rest = n)%Z ->
    (forall item, In item rest -> In item (map fst entries)) ->
    exists blk,
      for_enumerate rest i (tree_body rec p prefix n) lines0
      = Ok (List.app lines0 blk)
      /\ rendered entries prefix rest blk.
Proof.
  intros Hp Hread Hrec. induction rest as [|item rest IH]; intros i lines0 Hn Hin.
  - exists []. simpl. rewrite app_nil_r. split; constructor.
  - assert (Hlast : (i =? n - 1)%Z = is_last rest).
    { apply last_index. unfold len in *. simpl List.length in Hn. lia. }
    destruct (lookup_names item entries (Hin item (or_introl eq_refl)))
      as [c Hc].
    assert (Htarget : target (os_path_join p item) = Some c).
    { unfold os_path_join. rewrite Hp. exact Hc. }
    simpl for_enumerate. unfold tree_body at 1.
    unfold os_path_isdir. rewrite Htarget, Hlast.
    destruct c as [f | err sub].
    + destruct (IH (i + 1)%Z
                   (Py.append lines0 (prefix ++ connector_of rest ++ item)))
        as [blk [Hblk Hr]].
      * unfold len in *. simpl List.length in Hn. lia.
      * intros x Hx. apply Hin. right. exact Hx.
      * exists ((prefix ++ connector_of rest ++ item) :: blk). split.
        -- unfold connector_of in *. rewrite Hblk. unfold Py.append.
           rewrite <- app_assoc. reflexivity.
        -- apply rendered_file with (f := f); assumption.
    + assert (Herr : err = None).
      { pose proof (lookup_Forall readable _ _ _ Hread Hc) as H.
        apply readable_Dir in H. tauto. }
      subst err.
      destruct (Hrec item sub (prefix ++ continuation_of rest) Hc)
        as [sub_lines [Hsub Hrs]].
      unfold continuation_of in Hsub.
      replace (if is_last rest then prefix ++ continue_blank
               else prefix ++ continue_bar)
        with (prefix ++ (if is_last rest then continue_blank else continue_bar))
        by (destruct (is_last rest); reflexivity).
      rewrite Hsub. simpl bindR.
      destruct (IH (i + 1)%Z
                   (Py.extend
                      (Py.append lines0
                                 (prefix ++ connector_of rest ++ item ++ "/"))
                      sub_lines))
        as [blk [Hblk Hr]].
      * unfold len in *. simpl List.length in Hn. lia.
      * intros x Hx. apply Hin. right. exact Hx.
      * exists ((prefix ++ connector_of rest ++ item ++ "/")
                  :: List.app sub_lines blk). split.
        -- unfold connector_of in *. rewrite Hblk.
           unfold Py.append, Py.extend.
           rewrite <- !app_assoc. reflexivity.
        -- apply rendered_dir with (sub := sub); assumption.
Qed.

Lemma build_fuel_rendered fuel :
  forall p prefix entries,
    target p = Some (Dir None entries) ->
    Forall readable (entry_nodes entries) ->
    (heights entries < fuel)%nat ->
    exists lines,
      build_tree_lines_fuel fuel p prefix = Ok lines
      /\ rendered entries prefix (sorted (map fst entries)) lines.
Proof.
  induction fuel as [|fuel IH]; intros p prefix entries Hp Hread Hfuel; [lia|].
  rewrite build_tree_lines_fuel_S. unfold os_listdir. rewrite Hp. simpl bindR.
  destruct (tree_loop_rendered (build_tree_lines_fuel fuel) p prefix entries
              (len (sorted (map fst entries))) Hp Hread) with
    (rest := sorted (map fst entries)) (i := 0%Z) (lines0 := @nil string)
    as [blk [Hblk Hr]].
  - intros item sub pfx Hc. apply IH.
    + unfold os_path_join. rewrite Hp. exact Hc.
    + pose proof (lookup_Forall readable _ _ _ Hread Hc) as H.
      apply readable_Dir in H. tauto.
    + pose proof (lookup_height _ _ _ Hc) as H.
      rewrite height_Dir in H. lia.
  - lia.
  - intros item. apply sorted_In.
  - exists blk. split; assumption.
Qed.

Lemma build_tree_lines_rendered p prefix entries :
  target p = Some (Dir None entries) ->
  Forall readable (entry_nodes entries) ->
  exists lines,
    build_tree_lines p prefix = Ok lines
    /\ rendered entries prefix (sorted (map fst entries)) lines.
Proof.
  intros Hp Hread. unfold build_tree_lines, path_height. 
  apply build_fuel_rendered; auto.
  rewrite Hp, height_Dir. lia.
Qed.

(* ----------------------------------------------------------------- *)
(** ** C3: one line per entry *)

Lemma list_sum_perm (l l' : list nat) :
  Permutation l l' -> list_sum l = list_sum l'.
Proof. induction 1; simpl; lia. Qed.

Lemma counts_sum entries :
  counts entries = list_sum (map (fun e => S (count_entries (snd e))) entries).
Proof. induction entries as [|e l IH]; simpl; [reflexivity | rewrite IH; lia]. Qed.

Lemma items_count_sorted entries :
  NoDup (map fst entries) ->
  items_count entries (sorted (map fst entries)) = counts entries.
Proof.
  intros Hnd. unfold items_count.
  rewrite <- (list_sum_perm _ _
                (Permutation_map (entries_of entries) (sorted_perm _))).
  rewrite counts_sum. f_equal.
  unfold entries_of.
  change (map (fun item => match lookup item entries with
                           | Some c => S (count_entries c)
                           | None => 1%nat
                           end) (map fst entries))
    with (map (fun item => (fun o => match o with
                                     | Some c => S (count_entries c)
                                     | None => 1%nat
                                     end) (lookup item entries))
              (map fst entries)).
  rewrite <- (map_map (fun item => lookup item entries)).
  rewrite (lookup_NoDup _ Hnd), map_map. reflexivity.
Qed.

Lemma rendered_length entries prefix items lines :
  rendered entries prefix items lines ->
  Forall well_formed (entry_nodes entries) ->
  List.length lines = items_count entries items.
Proof.
  unfold items_count.
  induction 1 as [entries prefix
                 | entries prefix item rest f lines Hc Hr IH
                 | entries prefix item rest sub sub_lines lines Hc Hsub IHsub Hr IH];
    intros Hwf; simpl.
  - reflexivity.
  - rewrite (IH Hwf). unfold entries_of at 2. rewrite Hc. reflexivity.
  - pose proof (lookup_Forall well_formed _ _ _ Hwf Hc) as Hw.
    apply well_formed_Dir in Hw. destruct Hw as [Hnd Hw].
    rewrite length_app, (IH Hwf), (IHsub Hw).
    fold (items_count sub (sorted (map fst sub))).
    rewrite (items_count_sorted _ Hnd).
    unfold entries_of at 2. rewrite Hc, count_entries_Dir. reflexivity.
Qed.

Lemma disk_induction (P : disk -> Prop) :
  (forall f, P (DiskFile f)) ->
  (forall err entries, Forall P (map snd entries) -> P (DiskDir err entries)) ->
  P (Symlink None) ->
  (forall t, P t -> P (Symlink (Some t))) ->
  forall d, P d.
Proof.
  intros Hfile Hdir Hnone Hlink.
  refine (fix IH (d : disk) : P d :=
            match d with
            | DiskFile f => Hfile f
            | DiskDir err entries =>
                Hdir err entries
                  ((fix go (l : list (string * disk))
                     : Forall P (map snd l) :=
                      match l with
                      | [] => Forall_nil P
                      | (name, c) :: rest => Forall_cons _ (IH c) (go rest)
                      end) entries)
            | Symlink None => Hnone
            | Symlink (Some t) => Hlink t (IH t)
            end).
Qed.

Lemma followed_DiskDir err entries :
  followed (DiskDir err entries)
  = Dir err (map (fun e => (fst e, followed (snd e))) entries).
Proof.
  simpl. f_equal. induction entries as [|[name c] l IH]; simpl; [reflexivity|].
  rewrite IH. reflexivity.
Qed.

(** Through the calls that follow links, the entries of a tree are the
    entries on disk and, once more, those the links lead to. *)
Lemma followed_count (d : disk) :
  count_entries (followed d) = (disk_entries d + linked_entries d)%nat.
Proof.
  induction d as [f | err entries IH | | t IH] using disk_induction;
    try reflexivity.
  rewrite followed_DiskDir, count_entries_Dir. simpl.
  induction entries as [|[name c] l IHl]; simpl; [reflexivity|].
  inversion IH as [|? ? Hc Hl]; subst. cbn [snd] in Hc.
  rewrite Hc, (IHl Hl). lia.
Qed.

Lemma no_linked_directory_count (d : disk) :
  no_linked_directory d = true -> linked_entries d = O.
Proof.
  induction d as [f | err entries IH | | t IH] using disk_induction;
    try reflexivity.
  - simpl. induction entries as [|[name c] l IHl]; simpl; [reflexivity|].
    inversion IH as [|? ? Hc Hl]; subst. cbn [snd] in Hc.
    intros H. apply andb_true_iff in H. destruct H as [H1 H2].
    rewrite (Hc H1), (IHl Hl H2). reflexivity.
  - simpl. destruct (followed t); [reflexivity | discriminate].
Qed.

(** The lines of a tree, as the calls that follow links observe it: one
    line for each entry observed. *)
Lemma observed_line_count (root_dir : path) (err : option string)
      (entries : list (string * node)) (repo_name : string) :
  target root_dir = Some (Dir err entries) ->
  readable (Dir err entries) ->
  well_formed (Dir err entries) ->
  exists lines,
    generate_directory_tree root_dir repo_name
    = Ok ("Directory structure:" :: ("└── " ++ repo_name ++ "/") :: lines)
    /\ List.length lines = count_entries (Dir err entries).
Proof.
  intros Hp Hread Hwf.
  apply readable_Dir in Hread. destruct Hread as [-> Hread].
  apply well_formed_Dir in Hwf. destruct Hwf as [Hnd Hwf].
  destruct (build_tree_lines_rendered root_dir "    " entries Hp Hread)
    as [lines [Hlines Hr]].
  exists lines. split.
  - unfold generate_directory_tree. rewrite Hlines. reflexivity.
  - rewrite (rendered_length _ _ _ _ Hr Hwf), (items_count_sorted _ Hnd).
    rewrite count_entries_Dir. reflexivity.
Qed.

(** C3, as stated, fails on a clone that holds a symbolic link to a
    directory: [os.path.isdir] follows the link, so the renderer lists
    under [link/] the entries of [real/] once more.  The three entries of
    [linked_clone] ([real], [real/a], [link]) give four lines after the
    two header lines: six lines, not five. *)
Lemma symlink_lists_target_again :
  readable (followed linked_clone)
  /\ well_formed (followed linked_clone)
  /\ disk_entries linked_clone = 3%nat
  /\ generate_directory_tree (tmpdir (followed linked_clone)) "repo"
     = Ok [ "Directory structure:"; "└── repo/";
            "    ├── link/"; "    │   └── a";
            "    └── real/"; "        └── a" ]
  /\ (forall lines,
        generate_directory_tree (tmpdir (followed linked_clone)) "repo" = Ok lines ->
        List.length lines <> (disk_entries linked_clone + 2)%nat).
Proof.
  split; [simpl; tauto|]. split.
  { simpl. repeat split; auto;
      repeat (constructor; [simpl; intuition discriminate|]); constructor. }
  split; [reflexivity|]. split; [reflexivity|].
  intros lines H. vm_compute in H. inversion H; subst lines.
  simpl. discriminate.
Qed.

(** C3, amended.  For every clone in which every directory can be listed
    (names being distinct within a directory, as in any filesystem), the
    tree renderer returns its lines, and they are: the caption
    [Directory structure:], the root line [└── <repo-name>/], and then one
    line per entry on disk, file, directory or link, below the root, and
    one more line for each entry seen through a symbolic link to a
    directory, which the renderer lists as a directory.  Their number is
    the number of entries plus two when no link leads to a directory, and
    exceeds it by the number of entries the links lead to otherwise. *)
Theorem tree_line_count :
  forall (err : option string) (entries : list (string * disk))
         (repo_name : string),
    let clone := DiskDir err entries in
    readable (followed clone) ->
    well_formed (followed clone) ->
    exists lines,
      generate_directory_tree (tmpdir (followed clone)) repo_name
      = Ok ("Directory structure:" :: ("└── " ++ repo_name ++ "/") :: lines)
      /\ List.length lines = (disk_entries clone + linked_entries clone)%nat
      /\ List.length ("Directory structure:" :: ("└── " ++ repo_name ++ "/")
                        :: lines)
         = (disk_entries clone + linked_entries clone + 2)%nat
      /\ (no_linked_directory clone = true ->
          List.length ("Directory structure:" :: ("└── " ++ repo_name ++ "/")
                         :: lines)
          = (disk_entries clone + 2)%nat).
Proof.
  intros err entries repo_name clone Hread Hwf.
  pose proof (followed_count clone) as Hcount.
  pose proof (followed_DiskDir err entries) as Hdir. fold clone in Hdir.
  rewrite Hdir in Hread, Hwf.
  destruct (observed_line_count (tmpdir (followed clone)) err _ repo_name
              (f_equal Some Hdir) Hread Hwf) as [lines [Hlines Hlen]].
  rewrite <- Hdir, Hcount in Hlen.
  exists lines. split; [exact Hlines|]. split; [exact Hlen|]. split.
  - cbn [List.length]. rewrite Hlen. lia.
  - intros Hno. cbn [List.length].
    rewrite Hlen, (no_linked_directory_count clone Hno). lia.
Qed.

Lemma tree_line_count_witness :
  readable (followed sample_disk) /\ well_formed (followed sample_disk)
  /\ no_linked_directory sample_disk = true
  /\ disk_entries sample_disk = 7%nat
  /\ exists lines,
       generate_directory_tree (tmpdir (followed sample_disk)) "repo"
       = Ok ("Directory structure:" :: "└── repo/" :: lines)
       /\ List.length ("Directory structure:" :: "└── repo/" :: lines) = 9%nat.
Proof.
  split; [exact sample_tree_readable|].
  split; [exact sample_tree_well_formed|].
  split; [reflexivity|]. split; [reflexivity|].
  destruct (tree_line_count None
              (match sample_disk with DiskDir _ es => es | _ => [] end) "repo"
              sample_tree_readable sample_tree_well_formed)
    as [lines [H1 [_ [_ H2]]]].
  exists lines. split; [exact H1 | exact (H2 eq_refl)].
Defined.

(* ----------------------------------------------------------------- *)
(** ** C4: connectors and prefixes *)

(** C4.  For every directory whose tree can be listed, [build_tree_lines]
    returns lines of the shape [rendered] describes, for the entries taken
    in sorted order: the last entry of a sibling group has the connector
    [└── ] and every other one [├── ]; the line of a directory ends with a
    slash and is directly followed by the lines of its own entries, which
    are rendered the same way under the prefix extended with four spaces
    when the directory is the last sibling and with [│   ] otherwise; the
    lines of the following siblings come after. *)
Theorem sibling_group_shape :
  forall (start_path : path) (prefix : string) (err : option string)
         (entries : list (string * node)),
    target start_path = Some (Dir err entries) ->
    readable (Dir err entries) ->
    (exists lines,
        build_tree_lines start_path prefix = Ok lines
        /\ rendered entries prefix (sorted (map fst entries)) lines)
    /\ connector_of [] = "└── "
    /\ continuation_of [] = "    "
    /\ (forall next rest,
           connector_of (next :: rest) = "├── "
           /\ continuation_of (next :: rest) = "│   ").
Proof.
  intros start_path prefix err entries Hp Hread.
  apply readable_Dir in Hread. destruct Hread as [-> Hread].
  split; [|repeat split].
  apply build_tree_lines_rendered; assumption.
Qed.

Lemma sibling_group_shape_witness :
  readable sample_tree
  /\ exists lines,
       build_tree_lines (tmpdir sample_tree) "  " = Ok lines
       /\ rendered
            [ ("src", Dir None [ ("main.py", File (mk_file (inl 10%Z) (Decoded "x = 1")));
                                 ("lib", Dir None []) ]);
              ("README.md", File (mk_file (inl 3%Z) (Decoded "hi")));
              (".git", Dir None [ ("HEAD", File (mk_file (inl 4%Z) (Decoded "ref"))) ]);
              ("a.bin", File (mk_file (inl 2%Z) (DecodeFails "invalid start byte"))) ]
            "  " [".git"; "README.md"; "a.bin"; "src"] lines.
Proof.
  split; [exact sample_tree_readable|].
  exact (proj1 (sibling_group_shape (tmpdir sample_tree) "  " None _ eq_refl
                  sample_tree_readable)).
Defined.

(* ----------------------------------------------------------------- *)
(** ** C8: siblings in lexicographic order *)

Lemma rendered_prefix entries prefix items lines :
  rendered entries prefix items lines ->
  Forall (fun line => exists r, line = prefix ++ r) lines.
Proof.
  induction 1 as [entries prefix
                 | entries prefix item rest f lines Hc Hr IH
                 | entries prefix item rest sub sub_lines lines Hc Hsub IHsub Hr IH].
  - constructor.
  - constructor; [eauto | exact IH].
  - constructor; [eauto|]. apply Forall_app. split; [|exact IH].
    eapply Forall_impl; [|exact IHsub]. intros line [r ->].
    rewrite append_assoc. eauto.
Qed.

Lemma continuation_not_sibling prefix rest r :
  is_sibling_line prefix (prefix ++ continuation_of rest ++ r) = false.
Proof.
  unfold is_sibling_line. rewrite !startswith_append.
  unfold continuation_of. destruct (is_last rest); reflexivity.
Qed.

Lemma connector_is_sibling prefix rest r :
  is_sibling_line prefix (prefix ++ connector_of rest ++ r) = true.
Proof.
  unfold is_sibling_line. rewrite !startswith_append.
  unfold connector_of. destruct (is_last rest); reflexivity.
Qed.

Lemma rendered_sibling_lines entries prefix items lines :
  rendered entries prefix items lines ->
  sibling_lines prefix lines = entry_lines entries prefix items.
Proof.
  unfold sibling_lines.
  induction 1 as [entries prefix
                 | entries prefix item rest f lines Hc Hr IH
                 | entries prefix item rest sub sub_lines lines Hc Hsub IHsub Hr IH];
    simpl.
  - reflexivity.
  - rewrite connector_is_sibling, IH. unfold entry_line. rewrite Hc.
    rewrite append_nil_r. reflexivity.
  - rewrite connector_is_sibling, filter_app, IH.
    unfold entry_line. rewrite Hc. f_equal.
    replace (filter (is_sibling_line prefix) sub_lines) with (@nil string);
      [reflexivity|].
    symmetry. apply rendered_prefix in Hsub. clear IHsub.
    induction Hsub as [|line l [r ->] _ IHl]; simpl; [reflexivity|].
    rewrite append_assoc, continuation_not_sibling. exact IHl.
Qed.

Lemma leb_nil (t : string) : String.leb EmptyString t = true.
Proof. destruct t; reflexivity. Qed.

Lemma leb_cons_nil (a : ascii) (s : string) :
  String.leb (String a s) EmptyString = false.
Proof. reflexivity. Qed.

Lemma leb_cons (a b : ascii) (s t : string) :
  String.leb (String a s) (String b t)
  = (nat_of_ascii a <? nat_of_ascii b)%nat
    || ((nat_of_ascii a =? nat_of_ascii b)%nat && String.leb s t).
Proof.
  unfold String.leb. cbn [String.compare]. unfold Ascii.compare, nat_of_ascii.
  rewrite Nnat.N2Nat.inj_compare.
  destruct (Nat.compare_spec (N.to_nat (N_of_ascii a)) (N.to_nat (N_of_ascii b)))
    as [E | E | E].
  - rewrite E, Nat.ltb_irrefl, Nat.eqb_refl. reflexivity.
  - apply Nat.ltb_lt in E. rewrite E. reflexivity.
  - replace (N.to_nat (N_of_ascii a) <? N.to_nat (N_of_ascii b))%nat with false
      by (symmetry; apply Nat.ltb_ge; lia).
    replace (N.to_nat (N_of_ascii a) =? N.to_nat (N_of_ascii b))%nat with false
      by (symmetry; apply Nat.eqb_neq; lia).
    reflexivity.
Qed.

Lemma continuation_spec (c : ascii) :
  continuation c = true <-> (128 <= nat_of_ascii c <= 191)%nat.
Proof. unfold continuation. rewrite andb_true_iff, !Nat.leb_le. tauto. Qed.

Lemma valid_first_char (a : ascii) (s : string) :
  valid_utf8 (String a s) = true -> first_char (String a s).
Proof.
  cbn [valid_utf8]. cbv zeta.
  destruct (Nat.ltb_spec (nat_of_ascii a) 128) as [H1 | H1];
    [intros H; apply first_one; assumption|].
  destruct ((194 <=? nat_of_ascii a) && (nat_of_ascii a <=? 223))%nat eqn:E2.
  { apply andb_true_iff in E2. destruct E2 as [E2 E2'].
    apply Nat.leb_le in E2, E2'.
    destruct s as [|b s]; [discriminate|]. intros H.
    apply andb_true_iff in H. destruct H as [Hb Hs].
    apply continuation_spec in Hb. apply first_two; auto. }
  destruct ((224 <=? nat_of_ascii a) && (nat_of_ascii a <=? 239))%nat eqn:E3.
  { apply andb_true_iff in E3. destruct E3 as [E3 E3'].
    apply Nat.leb_le in E3, E3'.
    destruct s as [|b [|c s]]; try discriminate. intros H.
    apply andb_true_iff in H. destruct H as [H Hs].
    apply andb_true_iff in H. destruct H as [Hb Hc].
    apply continuation_spec in Hc. unfold second_of_three in Hb.
    destruct (Nat.eqb_spec (nat_of_ascii a) 224) as [Ea | Ea].
    - apply andb_true_iff in Hb. destruct Hb as [Hb Hb'].
      apply Nat.leb_le in Hb, Hb'. apply first_three; auto; lia.
    - destruct (Nat.eqb_spec (nat_of_ascii a) 237) as [Ea' | Ea'].
      + apply andb_true_iff in Hb. destruct Hb as [Hb Hb'].
        apply Nat.leb_le in Hb, Hb'. apply first_three; auto; lia.
      + apply continuation_spec in Hb. apply first_three; auto; lia. }
  destruct ((240 <=? nat_of_ascii a) && (nat_of_ascii a <=? 244))%nat eqn:E4;
    [|discriminate].
  apply andb_true_iff in E4. destruct E4 as [E4 E4'].
  apply Nat.leb_le in E4, E4'.
  destruct s as [|b [|c [|d s]]]; try discriminate. intros H.
  apply andb_true_iff in H. destruct H as [H Hs].
  apply andb_true_iff in H. destruct H as [H Hd].
  apply andb_true_iff in H. destruct H as [Hb Hc].
  apply continuation_spec in Hc, Hd. unfold second_of_four in Hb.
  destruct (Nat.eqb_spec (nat_of_ascii a) 240) as [Ea | Ea].
  - apply andb_true_iff in Hb. destruct Hb as [Hb Hb'].
    apply Nat.leb_le in Hb, Hb'. apply first_four; auto; lia.
  - destruct (Nat.eqb_spec (nat_of_ascii a) 244) as [Ea' | Ea'].
    + apply andb_true_iff in Hb. destruct Hb as [Hb Hb'].
      apply Nat.leb_le in Hb, Hb'. apply first_four; auto; lia.
    + apply continuation_spec in Hb. apply first_four; auto; lia.
Qed.

Lemma code_points_one a s :
  (nat_of_ascii a < 128)%nat ->
  code_points (String a s) = byte a :: code_points s.
Proof.
  intros H. cbn [code_points]. cbv zeta.
  destruct (Nat.ltb_spec (nat_of_ascii a) 128); [reflexivity | lia].
Qed.

Lemma code_points_two a b s :
  (194 <= nat_of_ascii a <= 223)%nat ->
  code_points (String a (String b s))
  = ((byte a - 192) * 64 + (byte b - 128))%Z :: code_points s.
Proof.
  intros H. cbn [code_points]. cbv zeta.
  destruct (Nat.ltb_spec (nat_of_ascii a) 128); [lia|].
  destruct (Nat.ltb_spec (nat_of_ascii a) 224); [reflexivity | lia].
Qed.

Lemma code_points_three a b c s :
  (224 <= nat_of_ascii a <= 239)%nat ->
  code_points (String a (String b (String c s)))
  = ((byte a - 224) * 4096 + (byte b - 128) * 64 + (byte c - 128))%Z
      :: code_points s.
Proof.
  intros H. cbn [code_points]. cbv zeta.
  destruct (Nat.ltb_spec (nat_of_ascii a) 128); [lia|].
  destruct (Nat.ltb_spec (nat_of_ascii a) 224); [lia|].
  destruct (Nat.ltb_spec (nat_of_ascii a) 240); [reflexivity | lia].
Qed.

Lemma code_points_four a b c d s :
  (240 <= nat_of_ascii a <= 244)%nat ->
  code_points (String a (String b (String c (String d s))))
  = ((byte a - 240) * 262144 + (byte b - 128) * 4096
     + (byte c - 128) * 64 + (byte d - 128))%Z
      :: code_points s.
Proof.
  intros H. cbn [code_points]. cbv zeta.
  destruct (Nat.ltb_spec (nat_of_ascii a) 128); [lia|].
  destruct (Nat.ltb_spec (nat_of_ascii a) 224); [lia|].
  destruct (Nat.ltb_spec (nat_of_ascii a) 240); [lia | reflexivity].
Qed.

Ltac settle_lt x y :=
  first [ replace (x <? y)%nat with true by (symmetry; apply Nat.ltb_lt; lia)
        | replace (x <? y)%nat with false by (symmetry; apply Nat.ltb_ge; lia)
        | destruct (Nat.ltb_spec x y) ].

Ltac settle_eq x y :=
  first [ replace (x =? y)%nat with true by (symmetry; apply Nat.eqb_eq; lia)
        | replace (x =? y)%nat with false by (symmetry; apply Nat.eqb_neq; lia)
        | destruct (Nat.eqb_spec x y) ].

Ltac settle_ltZ x y :=
  first [ replace (x <? y)%Z with true by (symmetry; apply Z.ltb_lt; lia)
        | replace (x <? y)%Z with false by (symmetry; apply Z.ltb_ge; lia)
        | destruct (Z.ltb_spec x y) ].

Ltac settle_eqZ x y :=
  first [ replace (x =? y)%Z with true by (symmetry; apply Z.eqb_eq; lia)
        | replace (x =? y)%Z with false by (symmetry; apply Z.eqb_neq; lia)
        | destruct (Z.eqb_spec x y) ].

Ltac settle :=
  repeat (match goal with
          | |- context [(?x <? ?y)%nat] => settle_lt x y
          | |- context [(?x =? ?y)%nat] => settle_eq x y
          end; cbn [orb andb]);
  repeat (match goal with
          | |- context [(?x <? ?y)%Z] => settle_ltZ x y
          | |- context [(?x =? ?y)%Z] => settle_eqZ x y
          end; cbn [orb andb]).

Ltac decode :=
  repeat first [ rewrite code_points_one by assumption
               | rewrite code_points_two by assumption
               | rewrite code_points_three by assumption
               | rewrite code_points_four by assumption ].

(** On valid UTF-8 the order of the bytes is the order of the code
    points. *)
Lemma utf8_order_upto (n : nat) :
  forall s t,
    (String.length s <= n)%nat ->
    valid_utf8 s = true -> valid_utf8 t = true ->
    String.leb s t = code_points_le (code_points s) (code_points t).
Proof.
  induction n as [|n IH]; intros s t Hlen Hs Ht.
  - destruct s; [|simpl in Hlen; lia]. rewrite leb_nil. reflexivity.
  - destruct s as [|a s]; [rewrite leb_nil; reflexivity|].
    apply valid_first_char in Hs.
    destruct t as [|b t].
    + rewrite leb_cons_nil. inversion Hs; subst; decode; reflexivity.
    + apply valid_first_char in Ht.
      inversion Hs; subst; inversion Ht; subst;
        repeat rewrite leb_cons; decode; cbn [code_points_le];
        try match goal with
            | Hs' : valid_utf8 ?s' = true, Ht' : valid_utf8 ?t' = true
              |- context [String.leb ?s' ?t'] =>
                rewrite (IH s' t'); [|simpl in Hlen; lia | exact Hs' | exact Ht']
            end;
        unfold byte; settle; reflexivity.
Qed.

Lemma utf8_order (s t : string) :
  valid_utf8 s = true -> valid_utf8 t = true ->
  String.leb s t = code_points_le (code_points s) (code_points t).
Proof. apply (utf8_order_upto (String.length s)). apply Nat.le_refl. Qed.

Lemma sorted_code_points (l : list string) :
  Forall (fun x => valid_utf8 x = true) l ->
  StronglySorted (fun a b => String.leb a b = true) l ->
  StronglySorted
    (fun a b => code_points_le (code_points a) (code_points b) = true) l.
Proof.
  intros Hvalid H. induction H as [|a l Hl IH Ha]; [constructor|].
  inversion Hvalid as [|? ? Hva Hvl]; subst.
  constructor; [apply IH; exact Hvl|].
  rewrite Forall_forall in *. intros x Hx.
  rewrite <- (utf8_order a x Hva (Hvl x Hx)). apply Ha. exact Hx.
Qed.

Lemma rendered_functional entries prefix items lines :
  rendered entries prefix items lines ->
  forall lines', rendered entries prefix items lines' -> lines = lines'.
Proof.
  intros H.
  induction H as [entries prefix
                 | entries prefix item rest f lines Hlook Hrest IHrest
                 | entries prefix item rest sub sub_lines lines Hlook Hsub IHsub
                     Hrest IHrest];
    intros lines' H'; inversion H'; subst; try congruence.
  - f_equal. apply IHrest. assumption.
  - match goal with
    | H1 : lookup item entries = Some (Dir None ?s) |- _ =>
        assert (Hs : s = sub) by congruence; subst s
    end.
    f_equal. f_equal; [apply IHsub | apply IHrest]; assumption.
Qed.

Lemma names_all_Dir ok err entries :
  names_all ok (Dir err entries) = true
  <-> Forall (fun e => ok (fst e) = true /\ names_all ok (snd e) = true) entries.
Proof.
  simpl. induction entries as [|[name c] l IH]; simpl.
  - split; auto.
  - rewrite !andb_true_iff, IH. split.
    + intros [[H1 H2] H3]. constructor; auto.
    + intros H. inversion H; subst. simpl in *. tauto.
Qed.

Lemma names_all_lookup ok err entries item c :
  names_all ok (Dir err entries) = true ->
  lookup item entries = Some c ->
  ok item = true /\ names_all ok c = true.
Proof.
  intros H Hlook. apply names_all_Dir in H. rewrite Forall_forall in H.
  exact (H (item, c) (lookup_In _ _ _ Hlook)).
Qed.

(** What [build_tree_lines] returns on a directory is the listing of its
    sorted names, each directory followed by what [build_tree_lines]
    returns on it. *)
Lemma rendered_listing entries prefix items lines :
  rendered entries prefix items lines ->
  forall start_path,
    target start_path = Some (Dir None entries) ->
    Forall readable (entry_nodes entries) ->
    lines = listing start_path prefix items.
Proof.
  intros H.
  induction H as [entries prefix
                 | entries prefix item rest f lines Hlook Hrest IHrest
                 | entries prefix item rest sub sub_lines lines Hlook Hsub IHsub
                     Hrest IHrest];
    intros p Ht Hread; [reflexivity| |].
  - cbn [listing]. unfold os_path_isdir, os_path_join. rewrite Ht.
    cbn [target]. rewrite Hlook. f_equal. apply IHrest; assumption.
  - cbn [listing]. unfold os_path_isdir at 1. unfold os_path_join at 1.
    rewrite Ht. cbn [target]. rewrite Hlook.
    assert (Hchild : target (os_path_join p item) = Some (Dir None sub))
      by (unfold os_path_join; rewrite Ht; exact Hlook).
    pose proof (lookup_Forall _ _ _ _ Hread Hlook) as Hsubread.
    apply readable_Dir in Hsubread. destruct Hsubread as [_ Hsubread].
    destruct (build_tree_lines_rendered (os_path_join p item)
                (prefix ++ continuation_of rest) sub Hchild Hsubread)
      as [lines' [Hlines' Hr']].
    rewrite Hlines'. cbn [lines_of].
    rewrite (rendered_functional _ _ _ _ Hr' _ Hsub).
    f_equal. f_equal. apply IHrest; assumption.
Qed.

(** C8.  For every directory whose tree can be listed, the names being
    valid UTF-8, what [build_tree_lines] returns is the
    listing of the directory's names in lexicographic order: for each name
    in turn its line, and right after the line of a directory the whole of
    what [build_tree_lines] returns for that directory.  Each directory
    below satisfies the conditions of this statement again, so every
    listing of the output, at every depth, is in the order of the names.
    The lines that start with the prefix and a connector are the lines of
    the sorted names; the sorted names are the listed names rearranged,
    each at most every name after it, byte by byte and, which is how
    [sorted] compares strings, code point by code point; the order looks at
    the names only, so files and directories are interleaved. *)
Theorem siblings_in_name_order :
  forall (start_path : path) (prefix : string) (err : option string)
         (entries : list (string * node)),
    target start_path = Some (Dir err entries) ->
    readable (Dir err entries) ->
    names_all valid_utf8 (Dir err entries) = true ->
    let items := sorted (map fst entries) in
    build_tree_lines start_path prefix = Ok (listing start_path prefix items)
    /\ sibling_lines prefix (listing start_path prefix items)
       = entry_lines entries prefix items
    /\ Permutation (map fst entries) items
    /\ StronglySorted (fun a b => String.leb a b = true) items
    /\ StronglySorted
         (fun a b => code_points_le (code_points a) (code_points b) = true)
         items
    /\ (forall item sub_err sub,
          lookup item entries = Some (Dir sub_err sub) ->
          target (os_path_join start_path item) = Some (Dir sub_err sub)
          /\ readable (Dir sub_err sub)
          /\ names_all valid_utf8 (Dir sub_err sub) = true).
Proof.
  intros start_path prefix err entries Hp Hread Hnames items.
  pose proof Hread as Hread'.
  apply readable_Dir in Hread'. destruct Hread' as [-> Hchildren].
  destruct (build_tree_lines_rendered start_path prefix entries Hp Hchildren)
    as [lines [Hlines Hr]].
  pose proof (rendered_listing _ _ _ _ Hr start_path Hp Hchildren) as Heq.
  fold items in Heq. subst lines.
  split; [exact Hlines|]. split; [|split; [|split; [|split]]].
  - apply rendered_sibling_lines. exact Hr.
  - apply sorted_perm.
  - apply sorted_StronglySorted.
  - apply sorted_code_points; [|apply sorted_StronglySorted].
    apply Forall_forall. intros x Hx. apply (proj1 (sorted_In _ _)) in Hx.
    apply in_map_iff in Hx. destruct Hx as [[name c] [<- Hin]].
    apply names_all_Dir in Hnames. rewrite Forall_forall in Hnames.
    exact (proj1 (Hnames _ Hin)).
  - intros item sub_err sub Hlook. split; [|split].
    + unfold os_path_join. rewrite Hp. exact Hlook.
    + exact (lookup_Forall _ _ _ _ Hchildren Hlook).
    + exact (proj2 (names_all_lookup _ _ _ _ _ Hnames Hlook)).
Qed.

Lemma siblings_in_name_order_witness :
  readable sample_tree
  /\ names_all valid_utf8 sample_tree = true
  /\ build_tree_lines (tmpdir sample_tree) "  "
     = Ok [ "  ├── .git/"; "  │   └── HEAD"; "  ├── README.md"; "  ├── a.bin";
            "  └── src/"; "      ├── lib/"; "      └── main.py" ].
Proof.
  split; [exact sample_tree_readable|]. split; [reflexivity|].
  destruct (siblings_in_name_order (tmpdir sample_tree) "  " None _ eq_refl
              sample_tree_readable eq_refl) as [H _].
  rewrite H. reflexivity.
Defined.

(* ----------------------------------------------------------------- *)
(** ** C7: [.git] directories are not walked *)

Lemma erase_git_Dir err entries :
  erase_git (Dir err entries) = Dir err (erase_entries entries).
Proof. reflexivity. Qed.

Lemma erase_nondirs entries :
  map fst (filter (fun e => negb (entry_is_dir e)) (erase_entries entries))
  = map fst (filter (fun e => negb (entry_is_dir e)) entries).
Proof.
  induction entries as [|[name c] l IH]; simpl; [reflexivity|].
  destruct c as [f | err sub]; simpl.
  - rewrite IH. reflexivity.
  - destruct (String.eqb name ".git"); simpl; exact IH.
Qed.

Lemma erase_dirs entries :
  map fst (filter entry_is_dir (erase_entries entries))
  = filter (fun name => negb (String.eqb name ".git"))
           (map fst (filter entry_is_dir entries)).
Proof.
  induction entries as [|[name c] l IH]; simpl; [reflexivity|].
  destruct c as [f | err sub]; simpl.
  - exact IH.
  - destruct (String.eqb name ".git"); simpl; rewrite IH; reflexivity.
Qed.

Lemma lookup_erase name entries :
  NoDup (map fst entries) ->
  lookup name (erase_entries entries)
  = match lookup name entries with
    | Some (File f) => Some (File f)
    | Some (Dir err sub) =>
        if String.eqb name ".git" then None else Some (erase_git (Dir err sub))
    | None => None
    end.
Proof.
  induction entries as [|[n c] l IH]; intros Hnd; [reflexivity|].
  inversion Hnd as [|? ? Hnotin Hnd']; subst. specialize (IH Hnd').
  cbn [erase_entries lookup].
  destruct (String.eqb_spec name n) as [->|Hne].
  - destruct c as [f | err sub].
    + cbn [lookup]. rewrite String.eqb_refl. reflexivity.
    + destruct (String.eqb n ".git").
      * rewrite IH, (lookup_None _ _ Hnotin). reflexivity.
      * cbn [lookup]. rewrite String.eqb_refl. reflexivity.
  - assert (Hneb : String.eqb name n = false) by (apply String.eqb_neq; exact Hne).
    destruct c as [f | err sub].
    + cbn [lookup]. rewrite Hneb. exact IH.
    + destruct (String.eqb n ".git").
      * exact IH.
      * cbn [lookup]. rewrite Hneb. exact IH.
Qed.

Lemma list_remove_filter x l :
  NoDup l ->
  (if Py.mem x l then list_remove x l else l)
  = filter (fun name => negb (String.eqb name x)) l.
Proof.
  intros Hnd. induction l as [|y l IH]; [reflexivity|].
  inversion Hnd as [|? ? Hnotin Hnd']; subst. specialize (IH Hnd').
  unfold Py.mem in *. simpl.
  rewrite (String.eqb_sym y x).
  destruct (String.eqb_spec x y) as [->|Hne]; simpl.
  - symmetry. apply forallb_filter_id. apply forallb_forall.
    intros z Hz. apply negb_true_iff, String.eqb_neq. congruence.
  - destruct (existsb (String.eqb x) l); rewrite <- IH; reflexivity.
Qed.

Lemma filter_names_NoDup (f : string * node -> bool) entries :
  NoDup (map fst entries) -> NoDup (map fst (filter f entries)).
Proof.
  induction entries as [|e l IH]; simpl; intros Hnd; [constructor|].
  inversion Hnd as [|? ? Hnotin Hnd']; subst.
  destruct (f e); simpl; [|auto].
  constructor; [|auto]. intros Hin. apply Hnotin.
  apply in_map_iff in Hin. destruct Hin as [e' [He' Hin]].
  apply filter_In in Hin. apply in_map_iff. exists e'. tauto.
Qed.

Lemma for_each_ext {X} (f g : X -> M unit) (l : list X) :
  (forall x, In x l -> forall w, f x w = g x w) ->
  forall w, for_each l f w = for_each l g w.
Proof.
  induction l as [|x l IH]; intros H w; simpl; [reflexivity|].
  rewrite (H x (or_introl eq_refl) w).
  destruct (g x w) as [[[]|e|] w']; try reflexivity;
    apply IH; intros y Hy; apply H; right; exact Hy.
Qed.

Lemma process_file_join excl max r1 r2 file :
  os_path_join r1 file = os_path_join r2 file ->
  process_file excl max r1 file = process_file excl max r2 file.
Proof. intros H. unfold process_file. rewrite H. reflexivity. Qed.

Lemma nondir_lookup entries file :
  NoDup (map fst entries) ->
  In file (map fst (filter (fun e => negb (entry_is_dir e)) entries)) ->
  exists f, lookup file entries = Some (File f).
Proof.
  intros Hnd Hin. apply in_map_iff in Hin. destruct Hin as [[n c] [Hn Hin]].
  simpl in Hn. subst n. apply filter_In in Hin. destruct Hin as [Hin Hc].
  destruct c as [f | err sub]; [|discriminate].
  exists f. apply In_lookup; assumption.
Qed.

Lemma dir_lookup entries dirname :
  NoDup (map fst entries) ->
  In dirname (map fst (filter entry_is_dir entries)) ->
  exists err sub, lookup dirname entries = Some (Dir err sub).
Proof.
  intros Hnd Hin. apply in_map_iff in Hin. destruct Hin as [[n c] [Hn Hin]].
  simpl in Hn. subst n. apply filter_In in Hin. destruct Hin as [Hin Hc].
  destruct c as [f | err sub]; [discriminate|].
  exists err, sub. apply In_lookup; assumption.
Qed.

Lemma os_walk_fuel_S fuel top body w :
  os_walk_fuel (S fuel) top body w
  = match scandir top with
    | Raise _ => (Normal tt, w)
    | Ok (dirs, nondirs) =>
        match body top dirs nondirs w with
        | (Normal dirs', w') =>
            for_each dirs'
              (fun dirname => os_walk_fuel fuel (os_path_join top dirname) body)
              w'
        | (Exception e, w') => (Exception e, w')
        | (ContinueLoop, w') => (ContinueLoop, w')
        end
    end.
Proof.
  simpl. destruct (scandir top) as [[dirs nondirs]|e]; reflexivity.
Qed.

(** The walk is given enough fuel: more changes nothing. *)
Lemma os_walk_fuel_enough (fuel : nat) :
  forall fuel' top body w,
    (path_height top < fuel)%nat ->
    (path_height top < fuel')%nat ->
    os_walk_fuel fuel top body w = os_walk_fuel fuel' top body w.
Proof.
  induction fuel as [|fuel IH]; intros fuel' top body w Hf Hf'; [lia|].
  destruct fuel' as [|fuel']; [lia|].
  rewrite !os_walk_fuel_S.
  destruct (scandir top) as [[dirs nondirs]|e] eqn:Hscan; [|reflexivity].
  destruct (body top dirs nondirs w) as [[dirs'|e|] w']; try reflexivity.
  apply for_each_ext. intros dirname _ w2.
  unfold scandir in Hscan.
  destruct (target top) as [[f | [msg|] entries]|] eqn:Ht; try discriminate.
  unfold path_height in Hf, Hf'. rewrite Ht, height_Dir in Hf, Hf'.
  pose proof (child_height top None entries dirname Ht) as Hchild.
  apply IH; lia.
Qed.

Lemma walk_body_run excl max current_root dirs files w :
  walk_body excl max current_root dirs files w
  = (Normal (if Py.mem ".git" dirs then list_remove ".git" dirs else dirs),
     snd (for_each files (process_file excl max current_root) w)).
Proof.
  unfold walk_body, bind, ret.
  pose proof (for_each_normal (process_file excl max current_root) files
                (process_file_no_exception excl max current_root) w) as H.
  destruct (for_each files (process_file excl max current_root) w) as [o w'].
  simpl in H. subst o. reflexivity.
Qed.

Lemma walk_visits_Dir entries segs :
  walk_visits (Dir None entries) segs
  = (mk_path segs (Some (Dir None entries)),
     map fst (filter (fun e => negb (entry_is_dir e)) entries))
      :: visits_below segs entries.
Proof.
  cbn [walk_visits]. f_equal.
  induction entries as [|[name c] l IH]; [reflexivity|].
  cbn [visits_below]. rewrite <- IH. reflexivity.
Qed.

Lemma for_each_app {X} (f : X -> M unit) (l1 l2 : list X) (w : world) :
  for_each (List.app l1 l2) f w
  = match for_each l1 f w with
    | (Exception e, w') => (Exception e, w')
    | (_, w') => for_each l2 f w'
    end.
Proof.
  revert w; induction l1 as [|x l1 IH]; intros w; simpl; [reflexivity|].
  destruct (f x w) as [[[]|e|] w']; try reflexivity; apply IH.
Qed.

Lemma path_eta (p : path) : p = mk_path (segments p) (target p).
Proof. destruct p; reflexivity. Qed.

Lemma walk_as_visits excl max fuel :
  forall top n w,
    target top = Some n ->
    well_formed n ->
    (height n < fuel)%nat ->
    os_walk_fuel fuel top (walk_body excl max) w
    = for_each (walk_visits n (segments top)) (visit excl max) w.
Proof.
  induction fuel as [|fuel IH]; intros top n w Ht Hwf Hfuel; [lia|].
  rewrite os_walk_fuel_S. unfold scandir. rewrite Ht.
  destruct n as [f | [msg|] entries]; try reflexivity.
  rewrite walk_visits_Dir, height_Dir in *.
  apply well_formed_Dir in Hwf. destruct Hwf as [Hnd Hwf].
  rewrite walk_body_run.
  rewrite (list_remove_filter ".git" _ (filter_names_NoDup entry_is_dir _ Hnd)).
  cbn [for_each]. unfold visit at 1. cbn [fst snd].
  rewrite <- Ht, <- path_eta.
  pose proof (for_each_normal (process_file excl max top)
                (map fst (filter (fun e => negb (entry_is_dir e)) entries))
                (process_file_no_exception excl max top) w) as Hfiles.
  destruct (for_each (map fst (filter (fun e => negb (entry_is_dir e)) entries))
                     (process_file excl max top) w) as [o w1].
  simpl in Hfiles. subst o. cbn [snd].
  assert (Hsub : forall l,
            (forall name c, In (name, c) l -> lookup name entries = Some c) ->
            forall w0,
              for_each (filter (fun name => negb (String.eqb name ".git"))
                               (map fst (filter entry_is_dir l)))
                       (fun dirname =>
                          os_walk_fuel fuel (os_path_join top dirname)
                                       (walk_body excl max)) w0
              = for_each (visits_below (segments top) l) (visit excl max) w0).
  { induction l as [|[name c] rest IHl]; intros Hl w0; [reflexivity|].
    assert (Hrest : forall name0 c0, In (name0, c0) rest ->
                                     lookup name0 entries = Some c0)
      by (intros; apply Hl; right; assumption).
    specialize (IHl Hrest).
    cbn [filter visits_below].
    destruct c as [f | err sub]; unfold entry_is_dir at 1;
      cbn [fst snd map filter].
    - apply IHl.
    - destruct (String.eqb name ".git") eqn:E; cbn [negb].
      + apply IHl.
      + cbn [for_each]. rewrite for_each_app.
        pose proof (Hl name (Dir err sub) (or_introl eq_refl)) as Hc.
        rewrite (IH (os_path_join top name) (Dir err sub)).
        * cbn [os_path_join segments].
          destruct (for_each (walk_visits (Dir err sub)
                                          (List.app (segments top) [name]))
                             (visit excl max) w0) as [[[]|e|] w2];
            try reflexivity; apply IHl.
        * unfold os_path_join. rewrite Ht. exact Hc.
        * exact (lookup_Forall well_formed _ _ _ Hwf Hc).
        * pose proof (lookup_height _ _ _ Hc). lia. }
  apply Hsub. intros name c Hin. apply In_lookup; assumption.
Qed.

Lemma walk_visits_no_git (n : node) :
  forall segs,
    ~ In ".git" segs ->
    Forall (fun v => ~ In ".git" (segments (fst v))) (walk_visits n segs).
Proof.
  induction n as [f | err entries IH] using node_induction; intros segs Hsegs.
  - constructor.
  - destruct err as [msg|]; [constructor|].
    rewrite walk_visits_Dir. constructor; [exact Hsegs|].
    induction entries as [|[name c] l IHl]; [constructor|].
    inversion IH as [|? ? Hc Hl]; subst. specialize (IHl Hl).
    cbn [visits_below]. destruct c as [f | err sub]; [exact IHl|].
    destruct (String.eqb_spec name ".git") as [->|Hne]; [exact IHl|].
    apply Forall_app. split; [|exact IHl].
    apply Hc. intros Hin. apply in_app_or in Hin.
    destruct Hin as [Hin | [Hin | []]]; [contradiction | congruence].
Qed.

Lemma walk_erase_git excl max fuel :
  forall fuel' top top' n w,
    segments top = segments top' ->
    target top = Some n ->
    target top' = Some (erase_git n) ->
    well_formed n ->
    (height n < fuel)%nat ->
    (height (erase_git n) < fuel')%nat ->
    os_walk_fuel fuel top (walk_body excl max) w
    = os_walk_fuel fuel' top' (walk_body excl max) w.
Proof.
  induction fuel as [|fuel IH];
    intros fuel' top top' n w Hseg Ht Ht' Hwf Hfuel Hfuel'; [lia|].
  destruct fuel' as [|fuel']; [lia|].
  destruct n as [f | [msg|] entries].
  - rewrite !os_walk_fuel_S. unfold scandir. rewrite Ht, Ht'. reflexivity.
  - rewrite !os_walk_fuel_S. unfold scandir. rewrite Ht, Ht'. reflexivity.
  - rewrite erase_git_Dir in Ht', Hfuel'. rewrite height_Dir in Hfuel, Hfuel'.
    apply well_formed_Dir in Hwf. destruct Hwf as [Hnd Hwf].
    rewrite !os_walk_fuel_S. unfold scandir. rewrite Ht, Ht'.
    rewrite erase_nondirs, erase_dirs.
    set (dirs := map fst (filter entry_is_dir entries)).
    set (nondirs := map fst (filter (fun e => negb (entry_is_dir e)) entries)).
    assert (Hdirs_nd : NoDup dirs) by (apply filter_names_NoDup; exact Hnd).
    assert (Hkept : NoDup (filter (fun name => negb (String.eqb name ".git")) dirs))
      by (apply NoDup_filter; exact Hdirs_nd).
    assert (Hidem : filter (fun name => negb (String.eqb name ".git"))
                      (filter (fun name => negb (String.eqb name ".git")) dirs)
                    = filter (fun name => negb (String.eqb name ".git")) dirs).
    { apply forallb_filter_id. apply forallb_forall. intros x Hx.
      apply filter_In in Hx. tauto. }
    rewrite !walk_body_run.
    rewrite (list_remove_filter ".git" dirs Hdirs_nd).
    rewrite (list_remove_filter ".git" _ Hkept), Hidem.
    rewrite (for_each_ext (process_file excl max top')
                          (process_file excl max top) nondirs).
    2:{ intros file Hfile w0.
        rewrite (process_file_join excl max top' top file); [reflexivity|].
        destruct (nondir_lookup entries file Hnd Hfile) as [f Hf].
        unfold os_path_join. rewrite Ht, Ht', Hseg. f_equal.
        rewrite (lookup_erase _ _ Hnd), Hf. reflexivity. }
    apply for_each_ext. intros dirname Hd w2.
    apply filter_In in Hd. destruct Hd as [Hd Hname].
    apply negb_true_iff in Hname.
    destruct (dir_lookup entries dirname Hnd Hd) as [err [sub Hc]].
    apply (IH fuel' _ _ (Dir err sub)).
    + simpl. rewrite Hseg. reflexivity.
    + unfold os_path_join. rewrite Ht. exact Hc.
    + unfold os_path_join. rewrite Ht'.
      rewrite (lookup_erase _ _ Hnd), Hc, Hname. reflexivity.
    + exact (lookup_Forall well_formed _ _ _ Hwf Hc).
    + pose proof (lookup_height _ _ _ Hc). lia.
    + assert (Hc' : lookup dirname (erase_entries entries)
                    = Some (erase_git (Dir err sub))).
      { rewrite (lookup_erase _ _ Hnd), Hc, Hname. reflexivity. }
      pose proof (lookup_height _ _ _ Hc'). lia.
Qed.

Lemma has_git_dir_Dir err entries :
  has_git_dir (Dir err entries) = any_git_dir entries.
Proof.
  simpl. induction entries as [|[name c] l IH]; simpl; [reflexivity|].
  rewrite IH. destruct c; simpl; [reflexivity|].
  reflexivity.
Qed.

Lemma erase_git_clean (n : node) : has_git_dir (erase_git n) = false.
Proof.
  induction n as [f | err entries IH] using node_induction; [reflexivity|].
  rewrite erase_git_Dir, has_git_dir_Dir.
  induction entries as [|[name c] l IHl]; [reflexivity|].
  inversion IH as [|? ? Hc Hl]; subst. specialize (IHl Hl).
  destruct c as [f | err' sub]; cbn [erase_entries].
  - exact IHl.
  - destruct (String.eqb name ".git") eqn:E; [exact IHl|].
    unfold any_git_dir in *. cbn [existsb fst snd].
    rewrite IHl, orb_false_r, Hc, E. 
    rewrite erase_git_Dir. reflexivity.
Qed.

(** C7.  For every tree (names being distinct within a directory), the
    walk of the content concatenator is the processing, directory after
    directory, of the files of the directories [walk_visits] lists: the
    directories below the root, none of which has a segment [.git] in its
    path.  So no directory named [.git], at any depth, and nothing below
    one, is visited.  Accordingly the walk leaves the console and the
    contents file exactly as it leaves them on the tree from which every
    directory named [.git] has been removed with all it holds, and two
    trees that differ only by their [.git] directories give the same
    output. *)
Theorem git_directories_not_walked :
  forall (excl : list string) (max : option pyfloat) (root : node) (w : world),
    well_formed root ->
    concatenate excl max (tmpdir root) w
    = for_each (walk_visits root []) (visit excl max) w
    /\ Forall (fun v => ~ In ".git" (segments (fst v))) (walk_visits root [])
    /\ concatenate excl max (tmpdir root) w
       = concatenate excl max (tmpdir (erase_git root)) w
    /\ has_git_dir (erase_git root) = false
    /\ (forall root',
           well_formed root' -> erase_git root' = erase_git root ->
           concatenate excl max (tmpdir root') w
           = concatenate excl max (tmpdir root) w).
Proof.
  intros excl max root w Hwf.
  assert (Hwalk : forall r, well_formed r ->
            concatenate excl max (tmpdir r) w
            = concatenate excl max (tmpdir (erase_git r)) w).
  { intros r Hr. unfold concatenate, os_walk.
    apply (walk_erase_git excl max _ _ _ _ r); try reflexivity; auto;
      unfold path_height; simpl; lia. }
  split; [|split; [|split; [|split]]].
  - unfold concatenate, os_walk.
    apply (walk_as_visits excl max _ (tmpdir root) root w eq_refl Hwf).
    unfold path_height. simpl. lia.
  - apply walk_visits_no_git. intros [].
  - apply Hwalk; exact Hwf.
  - apply erase_git_clean.
  - intros root' Hwf' Heq.
    rewrite (Hwalk root' Hwf'), (Hwalk root Hwf), Heq. reflexivity.
Qed.

Lemma git_directories_not_walked_witness :
  well_formed nested_git_tree
  /\ has_git_dir nested_git_tree = true
  /\ concatenate [".log"] None (tmpdir nested_git_tree) empty_world
     = (Normal tt,
        mk_world
          [ skip_extension_message "x.log" ".log" ]
          (separator ++ LF ++ "File: pkg/mod.py" ++ LF ++ separator ++ LF
           ++ "pass" ++ LF ++ LF)).
Proof.
  split; [exact nested_git_tree_well_formed|]. split; [reflexivity|].
  rewrite (proj1 (proj2 (proj2
             (git_directories_not_walked [".log"] None nested_git_tree
                empty_world nested_git_tree_well_formed)))).
  reflexivity.
Defined.

(* ----------------------------------------------------------------- *)
(** ** The contents file after the walk *)

Lemma visit_contents excl max (v : path * list string) (w : world) :
  fst (visit excl max v w) = Normal tt
  /\ global_out (snd (visit excl max v w))
     = global_out w ++ visit_blocks excl max v.
Proof.
  unfold visit, visit_blocks. destruct v as [cur files]. cbn [fst snd].
  revert w. induction files as [|file files IH]; intros w.
  - simpl. rewrite append_nil_r. auto.
  - cbn [for_each filter].
    destruct (passes_checks excl max cur file) eqn:Hp.
    + rewrite (process_file_passes _ _ _ _ w Hp).
      destruct (IH (written w (file_block (os_path_join cur file)))) as [H1 H2].
      split; [exact H1|]. rewrite H2. unfold written. cbn [global_out map join_all fold_right].
      rewrite append_assoc. reflexivity.
    + destruct (process_file_skips _ _ _ _ w Hp) as [line ->].
      destruct (IH (logged w line)) as [H1 H2].
      split; [exact H1|]. rewrite H2. reflexivity.
Qed.

Lemma visits_contents excl max (vs : list (path * list string)) (w : world) :
  fst (for_each vs (visit excl max) w) = Normal tt
  /\ global_out (snd (for_each vs (visit excl max) w))
     = global_out w ++ join_all (map (visit_blocks excl max) vs).
Proof.
  revert w. induction vs as [|v vs IH]; intros w.
  - simpl. rewrite append_nil_r. auto.
  - cbn [for_each]. destruct (visit_contents excl max v w) as [H1 H2].
    destruct (visit excl max v w) as [o w1]. cbn [fst snd] in H1, H2. subst o.
    destruct (IH w1) as [H3 H4]. split; [exact H3|].
    rewrite H4, H2. cbn [map join_all fold_right].
    rewrite append_assoc. reflexivity.
Qed.

(** The contents file after the walk: the blocks of the files that pass
    the checks, in the order of the walk, and nothing else. *)
Lemma concatenate_contents excl max root w :
  well_formed root ->
  fst (concatenate excl max (tmpdir root) w) = Normal tt
  /\ global_out (snd (concatenate excl max (tmpdir root) w))
     = global_out w ++ contents_of excl max root.
Proof.
  intros Hwf. unfold concatenate, os_walk, contents_of.
  rewrite (walk_as_visits excl max _ (tmpdir root) root w eq_refl Hwf)
    by (unfold path_height; simpl; lia).
  apply visits_contents.
Qed.

(* ----------------------------------------------------------------- *)
(** ** C2: files that cannot be read *)

(** C2.  For every file that passes the checks and cannot be opened, or
    whose bytes cannot be decoded: the content section of its block is the
    single line [[!] Error reading file: <message>], carrying the message
    of the error (the line holds no other newline than the one that ends it
    when the message holds none); the statement that reads the file leaves
    the contents file as it was, so nothing of the file's content stands
    before the placeholder; the block is complete, and the loop goes on
    with the files that follow.  The whole walk ends normally, whatever the
    files it meets, and the contents file then holds the blocks of all the
    files that pass the checks, in the order of the walk. *)
Theorem unreadable_file_placeholder :
  forall (excl : list string) (max : option pyfloat) (current_root : path)
         (file : string) (rest : list string) (w : world) (f : file_info)
         (msg : string),
    passes_checks excl max current_root file = true ->
    target (os_path_join current_root file) = Some (File f) ->
    (file_read f = OpenFails msg \/ file_read f = DecodeFails msg) ->
    let filepath := os_path_join current_root file in
    let block :=
      separator ++ LF ++ "File: " ++ os_path_relpath filepath ++ LF
      ++ separator ++ LF ++ error_line msg ++ LF ++ LF in
    error_line msg = "[!] Error reading file: " ++ msg ++ LF
    /\ (has_char (ascii_of_nat 10) msg = false ->
        has_char (ascii_of_nat 10) ("[!] Error reading file: " ++ msg) = false)
    /\ (forall w', exists e,
           exn_str e = msg
           /\ (content <- lift (open_read filepath) ;; write content)%io w'
              = (Exception e, w'))
    /\ process_file excl max current_root file w = (Normal tt, written w block)
    /\ for_each (file :: rest) (process_file excl max current_root) w
       = for_each rest (process_file excl max current_root) (written w block)
    /\ (forall tmpdirname w0,
           fst (concatenate excl max tmpdirname w0) = Normal tt)
    /\ (forall root w0,
           well_formed root ->
           global_out (snd (concatenate excl max (tmpdir root) w0))
           = global_out w0 ++ contents_of excl max root).
Proof.
  intros excl max current_root file rest w f msg Hp Ht Hread filepath block.
  assert (Hopen : exists e, exn_str e = msg /\ open_read filepath = Raise e).
  { unfold open_read, filepath. rewrite Ht.
    destruct Hread as [-> | ->]; eexists; (split; [|reflexivity]); reflexivity. }
  destruct Hopen as [e [He Hopen]].
  assert (Hblock : process_file excl max current_root file w
                   = (Normal tt, written w block)).
  { rewrite (process_file_passes _ _ _ _ _ Hp). subst block.
    unfold file_block, content_section. fold filepath. rewrite Hopen, He.
    reflexivity. }
  split; [reflexivity|]. split; [|split; [|split; [|split; [|split]]]].
  - intros H. rewrite has_char_append, H. reflexivity.
  - intros w'. exists e. split; [assumption|].
    unfold bind, lift. rewrite Hopen. reflexivity.
  - exact Hblock.
  - simpl. rewrite Hblock. reflexivity.
  - intros tmpdirname w0. apply concatenate_normal.
  - intros root w0 Hwf. apply concatenate_contents. exact Hwf.
Qed.

Lemma unreadable_file_placeholder_witness :
  passes_checks [] None (tmpdir sample_tree) "a.bin" = true
  /\ for_each ["a.bin"; "README.md"] (process_file [] None (tmpdir sample_tree))
              empty_world
     = (Normal tt,
        mk_world []
          (separator ++ LF ++ "File: a.bin" ++ LF ++ separator ++ LF
           ++ "[!] Error reading file: invalid start byte" ++ LF ++ LF ++ LF
           ++ separator ++ LF ++ "File: README.md" ++ LF ++ separator ++ LF
           ++ "hi" ++ LF ++ LF)).
Proof.
  split; [reflexivity|].
  pose proof (unreadable_file_placeholder [] None (tmpdir sample_tree) "a.bin"
                ["README.md"] empty_world
                (mk_file (inl 2%Z) (DecodeFails "invalid start byte"))
                "invalid start byte" eq_refl eq_refl (or_intror eq_refl))
    as [_ [_ [_ [_ [H _]]]]].
  rewrite H. reflexivity.
Defined.

(* ================================================================= *)
(** * Further properties of the code *)

(* ----------------------------------------------------------------- *)
(** ** [get_repo_name]: more about the name *)

Lemma string_length_append (a b : string) :
  String.length (a ++ b) = (String.length a + String.length b)%nat.
Proof. induction a; simpl; congruence. Qed.

Lemma substring_append_r (a p : string) :
  substring (String.length a) (String.length p) (a ++ p) = p.
Proof.
  induction a as [|x a IH]; simpl; [apply substring_full | exact IH].
Qed.

Lemma endswith_append (a p : string) : Py.endswith (a ++ p) p = true.
Proof.
  unfold Py.endswith. rewrite string_length_append.
  apply andb_true_iff. split; [apply Nat.leb_le; lia|].
  replace (String.length a + String.length p - String.length p)%nat
    with (String.length a) by lia.
  rewrite substring_append_r. apply String.eqb_refl.
Qed.

Lemma drop_last_append (a p : string) :
  Py.drop_last (String.length p) (a ++ p) = a.
Proof.
  unfold Py.drop_last. rewrite string_length_append.
  replace (String.length a + String.length p - String.length p)%nat
    with (String.length a) by lia.
  induction a as [|x a IH]; simpl; [destruct p; reflexivity | congruence].
Qed.

Lemma rstrip_only (c : ascii) (t : string) :
  only_char c t = true -> Py.rstrip c t = EmptyString.
Proof.
  induction t as [|a t IH]; simpl; [reflexivity|].
  intros H. apply andb_true_iff in H. destruct H as [Ha Ht].
  rewrite (IH Ht), Ha. reflexivity.
Qed.

Lemma rstrip_append_only (c : ascii) (s t : string) :
  only_char c t = true -> Py.rstrip c (s ++ t) = Py.rstrip c s.
Proof.
  intros Ht. induction s as [|a s IH]; simpl.
  - apply rstrip_only. exact Ht.
  - rewrite IH. reflexivity.
Qed.

Lemma rstrip_keeps (c a : ascii) (x : string) :
  Ascii.eqb a c = false ->
  Py.rstrip c (x ++ String a EmptyString) = x ++ String a EmptyString.
Proof.
  intros Hac. induction x as [|b x IH]; simpl.
  - rewrite Hac. reflexivity.
  - rewrite IH. destruct x; reflexivity.
Qed.

Lemma split_no_sep (c : ascii) (s : string) :
  has_char c s = false -> Py.split c s = [s].
Proof.
  induction s as [|a s IH]; simpl; [reflexivity|].
  intros H. apply orb_false_iff in H. destruct H as [Ha Hs].
  rewrite Ha, (IH Hs). reflexivity.
Qed.

Lemma split_with_sep (c : ascii) (h t : string) :
  exists x y l, Py.split c (h ++ String c t) = x :: y :: l.
Proof.
  induction h as [|a h [x [y [l IH]]]]; simpl.
  - rewrite Ascii.eqb_refl.
    pose proof (split_not_nil c t) as Hne.
    destruct (Py.split c t) as [|y l]; [congruence|]. eauto.
  - destruct (Ascii.eqb a c).
    + rewrite IH. eauto.
    + rewrite IH. eauto.
Qed.

Lemma last_after_sep (c : ascii) (h t : string) :
  Py.last_item (Py.split c (h ++ String c t)) = Py.last_item (Py.split c t).
Proof.
  unfold Py.last_item. induction h as [|a h IH]; simpl.
  - rewrite Ascii.eqb_refl.
    pose proof (split_not_nil c t) as Hne.
    destruct (Py.split c t) as [|y l]; [congruence | reflexivity].
  - destruct (split_with_sep c h t) as [x [y [l E]]].
    rewrite E in *. destruct (Ascii.eqb a c); exact IH.
Qed.

(** The last segment is determined by a decomposition of the string. *)
Lemma last_segment_unique (c : ascii) (head seg : string) :
  has_char c seg = false ->
  (head = EmptyString \/ exists h, head = h ++ String c EmptyString) ->
  Py.last_item (Py.split c (head ++ seg)) = seg.
Proof.
  intros Hseg [-> | [h ->]].
  - simpl. rewrite (split_no_sep c seg Hseg). reflexivity.
  - rewrite append_assoc. simpl.
    rewrite last_after_sep, (split_no_sep c seg Hseg). reflexivity.
Qed.

(** The location as [get_repo_name] reads it. *)
Lemma repo_name_segment (url : string) :
  exists head seg tail,
    url = head ++ seg ++ tail
    /\ Py.rstrip "/" url = head ++ seg
    /\ only_char "/" tail = true
    /\ has_char "/" seg = false
    /\ (head = EmptyString \/ exists h, head = h ++ "/")
    /\ get_repo_name url
       = (if Py.endswith seg ".git" then Py.drop_last 4 seg else seg).
Proof.
  destruct (rstrip_tail "/" url) as [tail [Hurl Htail]].
  destruct (last_segment "/" (Py.rstrip "/" url)) as [head [Hseg [Hno Hhead]]].
  exists head, (Py.last_item (Py.split "/" (Py.rstrip "/" url))), tail.
  repeat split; auto.
  rewrite <- append_assoc, <- Hseg. exact Hurl.
Qed.


(** X2.  [get_repo_name] returns the empty name exactly when the location
    is empty or made of slashes, or when its last segment is [.git]
    itself. *)
Theorem get_repo_name_empty_iff :
  forall url : string,
    get_repo_name url = EmptyString
    <-> (only_char "/" url = true
         \/ exists head tail,
              url = head ++ ".git" ++ tail
              /\ only_char "/" tail = true
              /\ (head = EmptyString \/ exists h, head = h ++ "/")).
Proof.
  intros url. split.
  - intros Hempty.
    destruct (repo_name_segment url)
      as [head [seg [tail [Hurl [Hstrip [Htail [Hno [Hhead Hname]]]]]]]].
    rewrite Hempty in Hname.
    destruct (Py.endswith seg ".git") eqn:He.
    + right. apply endswith_split in He. simpl String.length in He.
      rewrite <- Hname in He. simpl in He. subst seg.
      exists head, tail. auto.
    + left. subst seg. rewrite append_nil_r in Hstrip. simpl in Hurl.
      destruct Hhead as [-> | [h ->]]; [simpl in Hurl; subst url; exact Htail|].
      exfalso. exact (rstrip_no_trailing _ _ _ Hstrip).
  - intros [Hall | [head [tail [-> [Htail Hhead]]]]].
    + unfold get_repo_name. rewrite (rstrip_only _ _ Hall). reflexivity.
    + unfold get_repo_name.
      rewrite <- append_assoc, (rstrip_append_only _ _ _ Htail).
      replace (head ++ ".git") with ((head ++ ".gi") ++ "t")
        by (rewrite append_assoc; reflexivity).
      rewrite rstrip_keeps by reflexivity.
      rewrite append_assoc. simpl append.
      rewrite (last_segment_unique "/" head ".git" eq_refl Hhead).
      reflexivity.
Qed.

(** X3.  A trailing slash and a [.git] suffix do not change the name: the
    location with one more slash at its end has the same name, and so has
    the location with [.git] added, when it ends neither with a slash nor
    with [.git] already. *)
Theorem get_repo_name_suffixes :
  forall url : string,
    get_repo_name (url ++ "/") = get_repo_name url
    /\ (Py.rstrip "/" url = url -> Py.endswith url ".git" = false ->
        get_repo_name (url ++ ".git") = get_repo_name url).
Proof.
  intros url. split.
  - unfold get_repo_name. rewrite rstrip_append_only by reflexivity.
    reflexivity.
  - intros Hstrip Hends.
    destruct (repo_name_segment url)
      as [head [seg [tail [Hurl [Hseg [Htail [Hno [Hhead Hname]]]]]]]].
    rewrite Hstrip in Hseg.
    assert (Hsegends : Py.endswith seg ".git" = false).
    { destruct (Py.endswith seg ".git") eqn:He; [|reflexivity].
      apply endswith_split in He. rewrite Hseg, He, <- append_assoc in Hends.
      rewrite endswith_append in Hends. discriminate. }
    rewrite Hname, Hsegends.
    unfold get_repo_name.
    replace (url ++ ".git") with ((url ++ ".gi") ++ "t")
      by (rewrite append_assoc; reflexivity).
    rewrite rstrip_keeps by reflexivity.
    rewrite append_assoc. simpl append.
    rewrite Hseg, append_assoc.
    rewrite (last_segment_unique "/" head (seg ++ ".git")); auto.
    + rewrite endswith_append.
      exact (drop_last_append seg ".git").
    + rewrite has_char_append, Hno. reflexivity.
Qed.

Lemma get_repo_name_suffixes_witness :
  Py.rstrip "/" "https://host/user/repo" = "https://host/user/repo"
  /\ Py.endswith "https://host/user/repo" ".git" = false
  /\ get_repo_name "https://host/user/repo.git" = get_repo_name "https://host/user/repo".
Proof.
  split; [reflexivity|]. split; [reflexivity|].
  exact (proj2 (get_repo_name_suffixes "https://host/user/repo") eq_refl eq_refl).
Defined.

(* ----------------------------------------------------------------- *)
(** ** The exclusion list: more about the normalisation *)

Lemma normalize_one_idempotent (e : string) :
  Py.lower (with_dot (Py.lower (with_dot e))) = Py.lower (with_dot e).
Proof.
  pose proof (lower_with_dot e) as H.
  remember (Py.lower (with_dot e)) as x eqn:Hx. rewrite H.
  change (with_dot ("." ++ ?r)) with ("." ++ r).
  rewrite <- H, Hx. apply lower_idempotent.
Qed.

(** X4.  Normalising the exclusion list twice changes nothing: a list that
    is already in the normal form (leading dot, lower case) is left as it
    is, entry by entry and in the same order.  The statement is for
    extensions that are ASCII, on which [str.lower] changes the letters
    [A]-[Z] only; the normalised extensions are ASCII again. *)
Theorem normalize_extensions_idempotent :
  forall exts : list string,
    forallb is_ascii exts = true ->
    normalize_extensions (normalize_extensions exts) = normalize_extensions exts
    /\ List.length (normalize_extensions exts) = List.length exts
    /\ forallb is_ascii (normalize_extensions exts) = true.
Proof.
  intros exts Hascii. rewrite !normalize_extensions_map, map_map, length_map.
  split; [|split; [reflexivity|]].
  - apply map_ext. intros e. apply normalize_one_idempotent.
  - rewrite forallb_forall in *. intros x Hx. apply in_map_iff in Hx.
    destruct Hx as [e [<- He]]. apply is_ascii_lower. unfold with_dot.
    destruct (Py.startswith e "."); [exact (Hascii e He)|].
    rewrite is_ascii_append, (Hascii e He). reflexivity.
Qed.

Lemma normalize_extensions_idempotent_witness :
  forallb is_ascii ["Py"; ".MD"] = true
  /\ normalize_extensions (normalize_extensions ["Py"; ".MD"]) = [".py"; ".md"].
Proof.
  split; [reflexivity|].
  rewrite (proj1 (normalize_extensions_idempotent ["Py"; ".MD"] eq_refl)).
  reflexivity.
Defined.

(* ----------------------------------------------------------------- *)
(** ** The extension of a file has one dot *)

Lemma rfind_from_none (c : ascii) (s : string) (i : Z) :
  (0 <= i)%Z -> Py.rfind_from c s i = (-1)%Z -> has_char c s = false.
Proof.
  revert i; induction s as [|a s IH]; intros i Hi; simpl; [reflexivity|].
  pose proof (rfind_from_bounds c s (i + 1) ltac:(lia)) as Hb.
  destruct (Z.leb_spec 0 (Py.rfind_from c s (i + 1))) as [Hr | Hr]; [lia|].
  destruct (Ascii.eqb a c); [lia|].
  intros _. apply (IH (i + 1)%Z); lia.
Qed.

(** The last occurrence: what follows it holds no [c]. *)
Lemma rfind_from_last (c : ascii) (s : string) (i : Z) :
  (0 <= i)%Z -> (0 <= Py.rfind_from c s i)%Z ->
  exists a b,
    s = a ++ String c b /\ has_char c b = false
    /\ Py.rfind_from c s i = (i + Z.of_nat (String.length a))%Z.
Proof.
  revert i; induction s as [|x s IH]; intros i Hi; simpl; [lia|].
  pose proof (rfind_from_bounds c s (i + 1) ltac:(lia)) as Hb.
  destruct (Z.leb_spec 0 (Py.rfind_from c s (i + 1))) as [Hr | Hr].
  - intros _. destruct (IH (i + 1)%Z ltac:(lia) Hr) as [a [b [Hs [Hb' Hd]]]].
    exists (String x a), b. simpl String.length. rewrite Hs at 1.
    repeat split; auto. lia.
  - destruct (Ascii.eqb x c) eqn:Hx; [|lia]. intros _.
    apply Ascii.eqb_eq in Hx. subst x.
    exists EmptyString, s. repeat split; simpl; [|lia].
    apply (rfind_from_none c s (i + 1)); lia.
Qed.

Lemma slice_from_append (a s : string) :
  Py.slice_from (String.length a) (a ++ s) = s.
Proof.
  unfold Py.slice_from. rewrite string_length_append.
  replace (String.length a + String.length s - String.length a)%nat
    with (String.length s) by lia.
  apply substring_append_r.
Qed.

Lemma splitext_ext_shape (p : string) :
  snd (splitext p) = EmptyString
  \/ exists b, snd (splitext p) = "." ++ b /\ has_char "." b = false.
Proof.
  unfold splitext, Py.rfind.
  pose proof (rfind_from_bounds "/" p 0 ltac:(lia)) as Hsep.
  destruct (Z.ltb_spec (Py.rfind_from "/" p 0) (Py.rfind_from "." p 0)) as [Hlt|];
    [|left; reflexivity].
  destruct (splitext_scan p _ _); [|left; reflexivity].
  right.
  destruct (rfind_from_last "." p 0 ltac:(lia) ltac:(lia)) as [a [b [Hp [Hb Hd]]]].
  exists b. split; [|exact Hb].
  cbn [snd]. rewrite Hd. simpl Z.add. rewrite Nat2Z.id.
  rewrite Hp. apply slice_from_append.
Qed.

Lemma lower_ascii_dot (a : ascii) :
  Ascii.eqb (Py.lower_ascii a) "." = Ascii.eqb a ".".
Proof. destruct a as [[] [] [] [] [] [] [] []]; reflexivity. Qed.

Lemma lower_dots (s : string) : has_char "." (Py.lower s) = has_char "." s.
Proof.
  induction s as [|a s IH]; simpl; [reflexivity|].
  rewrite lower_ascii_dot, IH. reflexivity.
Qed.

Lemma file_ext_shape (file : string) :
  file_ext_of file = EmptyString
  \/ exists b, file_ext_of file = "." ++ b /\ has_char "." b = false.
Proof.
  unfold file_ext_of.
  destruct (splitext_ext_shape file) as [-> | [b [-> Hb]]]; [left; reflexivity|].
  right. exists (Py.lower b). split; [reflexivity|].
  rewrite lower_dots. exact Hb.
Qed.

Lemma inner_dot_normalized (e : string) :
  inner_dot e = true ->
  exists r, Py.lower (with_dot e) = "." ++ r /\ has_char "." r = true.
Proof.
  unfold inner_dot. intros H. rewrite lower_with_dot.
  eexists. split; [reflexivity|]. rewrite lower_dots.
  unfold with_dot in H. destruct (Py.startswith e ".") eqn:E; [exact H|].
  unfold Py.slice_from in H. simpl in H.
  rewrite Nat.sub_0_r, substring_full in H. exact H.
Qed.

(** X5.  The extension the check compares is empty or a dot followed by
    text without a dot; so an excluded extension with a dot beyond its
    first character, such as [tar.gz], matches no file, and a list of such
    extensions excludes nothing. *)
Theorem inner_dot_extension_never_matches :
  forall (exts : list string) (file : string),
    (file_ext_of file = EmptyString
     \/ exists b, file_ext_of file = "." ++ b /\ has_char "." b = false)
    /\ (forallb inner_dot exts = true ->
        extension_excluded (normalize_extensions exts) (file_ext_of file) = false).
Proof.
  intros exts file. split; [apply file_ext_shape|].
  intros Hall.
  destruct (extension_excluded (normalize_extensions exts) (file_ext_of file)) eqn:E;
    [|reflexivity].
  exfalso. apply extension_excluded_In in E.
  rewrite normalize_extensions_map in E. apply in_map_iff in E.
  destruct E as [e [He Hin]].
  rewrite forallb_forall in Hall. specialize (Hall e Hin).
  destruct (inner_dot_normalized e Hall) as [r [Hr Hdot]].
  rewrite Hr in He.
  destruct (file_ext_shape file) as [E0 | [b [Eb Hb]]].
  - rewrite E0 in He. discriminate.
  - rewrite Eb in He. injection He as He. congruence.
Qed.

Lemma inner_dot_extension_never_matches_witness :
  forallb inner_dot ["tar.gz"; ".Min.JS"] = true
  /\ file_ext_of "backup.tar.gz" = ".gz"
  /\ extension_excluded (normalize_extensions ["tar.gz"; ".Min.JS"])
                        (file_ext_of "backup.tar.gz") = false.
Proof.
  split; [reflexivity|]. split; [reflexivity|].
  exact (proj2 (inner_dot_extension_never_matches ["tar.gz"; ".Min.JS"] "backup.tar.gz")
               eq_refl).
Defined.

(* ----------------------------------------------------------------- *)
(** ** Every file the walk meets is accounted for *)

Lemma process_file_report excl max current_root file w :
  process_file excl max current_root file w
  = match skip_report excl max current_root file with
    | Some line => (ContinueLoop, logged w line)
    | None => (Normal tt, written w (file_block (os_path_join current_root file)))
    end.
Proof.
  unfold skip_report.
  destruct (extension_excluded excl (file_ext_of file)) eqn:Hext.
  - apply process_file_excluded; assumption.
  - destruct max as [limit|]; [|apply process_file_no_limit; assumption].
    destruct (os_path_getsize (os_path_join current_root file)) as [size|e] eqn:E.
    + destruct (int_gt_float size (float_mul_1024 (float_mul_1024 limit))) eqn:G.
      * eapply process_file_too_large; eauto.
      * eapply process_file_within_limit; eauto.
    + eapply process_file_no_size; eauto.
Qed.


Lemma visit_console excl max (v : path * list string) (w : world) :
  stdout (snd (visit excl max v w)) = List.app (stdout w) (visit_reports excl max v).
Proof.
  unfold visit, visit_reports. destruct v as [cur files]. cbn [fst snd].
  revert w. induction files as [|file files IH]; intros w.
  - simpl. rewrite app_nil_r. reflexivity.
  - cbn [for_each flat_map]. rewrite process_file_report.
    destruct (skip_report excl max cur file) as [line|].
    + rewrite IH. unfold logged, Py.append. cbn [stdout].
      rewrite <- app_assoc. reflexivity.
    + rewrite IH. reflexivity.
Qed.

Lemma visits_console excl max (vs : list (path * list string)) (w : world) :
  stdout (snd (for_each vs (visit excl max) w))
  = List.app (stdout w) (flat_map (visit_reports excl max) vs).
Proof.
  revert w. induction vs as [|v vs IH]; intros w.
  - simpl. rewrite app_nil_r. reflexivity.
  - cbn [for_each flat_map].
    pose proof (visit_contents excl max v w) as [H1 _].
    pose proof (visit_console excl max v w) as H2.
    destruct (visit excl max v w) as [o w1]. cbn [fst snd] in H1, H2. subst o.
    rewrite IH, H2, app_assoc. reflexivity.
Qed.


Lemma concatenate_console excl max root w :
  well_formed root ->
  stdout (snd (concatenate excl max (tmpdir root) w))
  = List.app (stdout w) (console_of excl max root).
Proof.
  intros Hwf. unfold concatenate, os_walk, console_of.
  rewrite (walk_as_visits excl max _ (tmpdir root) root w eq_refl Hwf)
    by (unfold path_height; simpl; lia).
  apply visits_console.
Qed.



(* ----------------------------------------------------------------- *)
(** ** The size limit: order and degenerate values *)

Lemma process_file_normal_passes excl max current_root file w :
  fst (process_file excl max current_root file w) = Normal tt ->
  passes_checks excl max current_root file = true.
Proof.
  intros H. destruct (passes_checks excl max current_root file) eqn:Hp;
    [reflexivity|].
  destruct (process_file_skips _ _ _ _ w Hp) as [line E].
  rewrite E in H. discriminate.
Qed.

(** X7.  Raising the size limit never drops a file: a file written under a
    finite limit is written, with the same block, under every larger
    finite limit and without a limit. *)
Theorem larger_limit_keeps_files :
  forall (excl : list string) (current_root : path) (file : string)
         (w : world) (size k k' : Z),
    os_path_getsize (os_path_join current_root file) = Ok size ->
    (0 <= size < 9223372036854775808)%Z ->
    (k <= k')%Z ->
    fst (process_file excl (Some (Finite k)) current_root file w) = Normal tt ->
    process_file excl (Some (Finite k')) current_root file w
    = (Normal tt, written w (file_block (os_path_join current_root file)))
    /\ process_file excl None current_root file w
       = (Normal tt, written w (file_block (os_path_join current_root file))).
Proof.
  intros excl cur file w size k k' Hsize Hrange Hk Hnormal.
  apply process_file_normal_passes in Hnormal.
  unfold passes_checks in Hnormal. rewrite Hsize in Hnormal.
  apply andb_true_iff in Hnormal. destruct Hnormal as [Hext Hgt].
  apply negb_true_iff in Hext. apply negb_true_iff in Hgt.
  split; [|apply process_file_no_limit; exact Hext].
  eapply process_file_within_limit; eauto.
  destruct (int_gt_float size (float_mul_1024 (float_mul_1024 (Finite k')))) eqn:G;
    [|reflexivity].
  apply (int_gt_float_scaled size (Finite k') Hrange) in G.
  apply exceeds_limit_finite in G.
  assert (Hk1 : exceeds_limit size (Finite k)).
  { apply exceeds_limit_finite. lia. }
  apply (int_gt_float_scaled size (Finite k) Hrange) in Hk1. congruence.
Qed.

Lemma larger_limit_keeps_files_witness :
  process_file [] (Some (Finite (2 ^ 1074))) (tmpdir sample_tree) "README.md" empty_world
  = (Normal tt, written empty_world
                  (file_block (os_path_join (tmpdir sample_tree) "README.md"))).
Proof.
  refine (proj1 (larger_limit_keeps_files [] (tmpdir sample_tree) "README.md" empty_world
                   3 (2 ^ 1056) (2 ^ 1074) eq_refl _ _ _)).
  - lia.
  - apply Z.leb_le. vm_compute. reflexivity.
  - vm_compute. reflexivity.
Defined.

Lemma float_overflow_pos : (0 < float_overflow)%Z.
Proof.
  pose proof float_overflow_large. pose proof float_one_pos. lia.
Qed.

Lemma negative_limit_exceeded (size k : Z) :
  (0 <= size)%Z -> (k < 0)%Z ->
  int_gt_float size (float_mul_1024 (float_mul_1024 (Finite k))) = true.
Proof.
  intros Hsize Hk. pose proof float_overflow_pos as Hover.
  pose proof float_one_pos as Hone.
  assert (Hs : (0 <= size * float_one)%Z) by nia.
  unfold float_mul_1024 at 2.
  destruct (Z.leb_spec float_overflow (k * 1024)); [lia|].
  destruct (Z.leb_spec (k * 1024) (- float_overflow)); [reflexivity|].
  unfold float_mul_1024.
  destruct (Z.leb_spec float_overflow (k * 1024 * 1024)); [lia|].
  destruct (Z.leb_spec (k * 1024 * 1024) (- float_overflow)); [reflexivity|].
  unfold int_gt_float. apply Z.ltb_lt. lia.
Qed.

Lemma zero_limit_scaled : float_mul_1024 (float_mul_1024 (Finite 0)) = Finite 0.
Proof. vm_compute. reflexivity. Qed.

(** X8.  Degenerate size limits, for a file whose extension is not
    excluded and whose size is known: under a limit that is not a number,
    or is plus infinity, the file is written whatever its size; under a
    negative limit, or minus infinity, it is skipped as too large, even
    when it is empty; under the limit zero it is written exactly when it
    is empty. *)
Theorem degenerate_size_limits :
  forall (excl : list string) (current_root : path) (file : string)
         (w : world) (size : Z),
    extension_excluded excl (file_ext_of file) = false ->
    os_path_getsize (os_path_join current_root file) = Ok size ->
    (0 <= size)%Z ->
    let block := file_block (os_path_join current_root file) in
    let skipped :=
      (ContinueLoop,
       logged w (too_large_message
                   (os_path_relpath (os_path_join current_root file)) size)) in
    process_file excl (Some NaN) current_root file w = (Normal tt, written w block)
    /\ process_file excl (Some PosInf) current_root file w
       = (Normal tt, written w block)
    /\ process_file excl (Some NegInf) current_root file w = skipped
    /\ (forall k, (k < 0)%Z ->
        process_file excl (Some (Finite k)) current_root file w = skipped)
    /\ process_file excl (Some (Finite 0)) current_root file w
       = (if (size =? 0)%Z then (Normal tt, written w block) else skipped).
Proof.
  intros excl cur file w size Hext Hsize Hpos block skipped.
  subst block skipped.
  split; [eapply process_file_within_limit; eauto|].
  split; [eapply process_file_within_limit; eauto|].
  split; [eapply process_file_too_large; eauto|].
  split.
  - intros k Hk. eapply process_file_too_large; eauto.
    apply negative_limit_exceeded; assumption.
  - pose proof float_one_pos as Hone.
    destruct (Z.eqb_spec size 0) as [E | E].
    + eapply process_file_within_limit; eauto.
      rewrite zero_limit_scaled. unfold int_gt_float. apply Z.ltb_ge. nia.
    + eapply process_file_too_large; eauto.
      rewrite zero_limit_scaled. unfold int_gt_float. apply Z.ltb_lt. nia.
Qed.

Lemma degenerate_size_limits_witness :
  process_file [] (Some (Finite (-1))) (tmpdir sample_tree) "README.md" empty_world
  = (ContinueLoop, logged empty_world (too_large_message "README.md" 3)).
Proof.
  pose proof (degenerate_size_limits [] (tmpdir sample_tree) "README.md" empty_world 3
                eq_refl eq_refl ltac:(lia)) as [_ [_ [_ [H _]]]].
  exact (H (-1)%Z ltac:(lia)).
Defined.

(* ----------------------------------------------------------------- *)
(** ** The tree renderer on directories that cannot be listed *)

Lemma unreadable_inside_Dir entries :
  unreadable_inside (Dir None entries)
  = existsb (fun e => unreadable_inside (snd e)) entries.
Proof.
  simpl. induction entries as [|[n c] l IH]; simpl; [reflexivity|].
  rewrite IH. reflexivity.
Qed.

Lemma readable_unreadable_inside (n : node) :
  readable n <-> unreadable_inside n = false.
Proof.
  induction n as [f | err entries IH] using node_induction.
  - simpl. tauto.
  - rewrite readable_Dir. destruct err as [msg|].
    + simpl. split; [intros [H _]; discriminate | discriminate].
    + rewrite unreadable_inside_Dir. unfold entry_nodes in *.
      induction entries as [|[name c] l IHl]; simpl.
      * split; auto.
      * inversion IH as [|? ? Hc Hl]; subst. specialize (IHl Hl).
        rewrite orb_false_iff. split.
        -- intros [_ H]. inversion H; subst. split; [apply Hc; assumption|].
           apply IHl. auto.
        -- intros [H1 H2]. split; [reflexivity|]. constructor.
           ++ apply Hc. exact H1.
           ++ apply IHl. exact H2.
Qed.

Lemma for_enumerate_raise_inv {S : Type} (body : Z -> string -> S -> result S)
      (items : list string) :
  forall i s e,
    for_enumerate items i body s = Raise e ->
    exists j item s', In item items /\ body j item s' = Raise e.
Proof.
  induction items as [|item rest IH]; intros i s e; simpl; [discriminate|].
  destruct (body i item s) as [s'|e'] eqn:E.
  - intros H. destruct (IH _ _ _ H) as [j [x [s0 [Hin Hb]]]].
    exists j, x, s0. auto.
  - intros H. inversion H; subst. exists i, item, s. auto.
Qed.

Lemma for_enumerate_raises {S : Type} (body : Z -> string -> S -> result S)
      (items : list string) (item : string) :
  In item items ->
  (forall i s, exists e, body i item s = Raise e) ->
  forall i s, exists e, for_enumerate items i body s = Raise e.
Proof.
  intros Hin Hbody. induction items as [|x rest IH]; intros i s; [destruct Hin|].
  simpl. destruct (body i x s) as [s'|e] eqn:E; [|eauto].
  destruct Hin as [-> | Hin]; [|apply IH; exact Hin].
  destruct (Hbody i s) as [e He]. congruence.
Qed.

(** With fuel above the depth of the tree, the renderer raises nothing
    but the [OSError] of a listing. *)
Lemma build_fuel_raises_OSError (fuel : nat) :
  forall p prefix e,
    (path_height p < fuel)%nat ->
    build_tree_lines_fuel fuel p prefix = Raise e ->
    exn_class_of e = OSError.
Proof.
  induction fuel as [|fuel IH]; intros p prefix e Hfuel; [lia|].
  rewrite build_tree_lines_fuel_S. unfold os_listdir.
  destruct (target p) as [[f | [msg|] entries]|] eqn:Ht; simpl bindR;
    try (intros H; inversion H; reflexivity).
  intros H. apply for_enumerate_raise_inv in H.
  destruct H as [j [item [lines [_ Hb]]]]. unfold tree_body in Hb.
  destruct (os_path_isdir (os_path_join p item)); [|discriminate].
  destruct (build_tree_lines_fuel fuel (os_path_join p item) _) as [sub|e'] eqn:E;
    [discriminate|].
  simpl in Hb. inversion Hb; subst e'.
  refine (IH _ _ _ _ E).
  pose proof (child_height p None entries item Ht) as Hc.
  unfold path_height in Hfuel. rewrite Ht, height_Dir in Hfuel. lia.
Qed.

(** A directory that cannot be listed stops the renderer, wherever it is
    in the tree. *)
Lemma build_fuel_unreadable (fuel : nat) :
  forall p prefix err entries,
    target p = Some (Dir err entries) ->
    well_formed (Dir err entries) ->
    unreadable_inside (Dir err entries) = true ->
    (height (Dir err entries) < fuel)%nat ->
    exists e, build_tree_lines_fuel fuel p prefix = Raise e.
Proof.
  induction fuel as [|fuel IH]; intros p prefix err entries Ht Hwf Hun Hfuel;
    [lia|].
  rewrite build_tree_lines_fuel_S. unfold os_listdir. rewrite Ht.
  destruct err as [msg|]; [simpl; eauto|].
  simpl bindR. rewrite unreadable_inside_Dir in Hun.
  apply existsb_exists in Hun. destruct Hun as [[name c] [Hin Hc]].
  cbn [snd] in Hc. rewrite height_Dir in Hfuel.
  apply well_formed_Dir in Hwf. destruct Hwf as [Hnd Hwf].
  pose proof (In_lookup name c entries Hnd Hin) as Hlook.
  apply for_enumerate_raises with (item := name).
  - apply sorted_In. apply in_map_iff. exists (name, c). auto.
  - intros i lines. unfold tree_body, os_path_isdir, os_path_join.
    rewrite Ht. cbn [target]. rewrite Hlook.
    destruct c as [f | err' sub]; [discriminate|].
    match goal with
    | |- context [build_tree_lines_fuel fuel ?q ?x] =>
        destruct (IH q x err' sub) as [e He]
    end.
    + reflexivity.
    + exact (lookup_Forall _ _ _ _ Hwf Hlook).
    + exact Hc.
    + pose proof (lookup_height _ _ _ Hlook). lia.
    + rewrite He. simpl. eauto.
Qed.

Lemma generate_ok_iff_readable (err : option string)
      (entries : list (string * node)) (repo_name : string) :
  well_formed (Dir err entries) ->
  (exists lines,
      generate_directory_tree (tmpdir (Dir err entries)) repo_name = Ok lines)
  <-> readable (Dir err entries).
Proof.
  intros Hwf. unfold generate_directory_tree, build_tree_lines. split.
  - intros [lines H].
    apply readable_unreadable_inside.
    destruct (unreadable_inside (Dir err entries)) eqn:Hun; [|reflexivity].
    destruct (build_fuel_unreadable (S (path_height (tmpdir (Dir err entries))))
                (tmpdir (Dir err entries)) "    " err entries eq_refl Hwf Hun)
      as [e He].
    { unfold path_height, tmpdir. cbn [target]. apply Nat.lt_succ_diag_r. }
    rewrite He in H. discriminate.
  - intros Hread. apply readable_Dir in Hread. destruct Hread as [-> Hread].
    destruct (build_tree_lines_rendered (tmpdir (Dir None entries)) "    " entries
                eq_refl Hread) as [lines [H _]].
    unfold build_tree_lines in H. rewrite H. simpl. eauto.
Qed.

Lemma generate_raises_OSError (root_dir : path) (repo_name : string) (e : exn) :
  generate_directory_tree root_dir repo_name = Raise e ->
  exn_class_of e = OSError.
Proof.
  unfold generate_directory_tree, build_tree_lines. intros H.
  destruct (build_tree_lines_fuel (S (path_height root_dir)) root_dir "    ")
    as [lines|e'] eqn:E; [discriminate|].
  simpl in H. inversion H; subst e'.
  apply (build_fuel_raises_OSError _ _ _ _ (Nat.lt_succ_diag_r _) E).
Qed.

(** X9.  The directory tree of a repository is produced exactly when
    every directory of it can be listed: one directory that cannot, at any
    depth, makes [generate_directory_tree] raise, and what it raises is the
    [OSError] of a listing.  The recursion is given the depth of the tree:
    the recursion limit of the interpreter, which a tree about a thousand
    directories deep exceeds, is not modelled. *)
Theorem tree_needs_every_listing :
  forall (err : option string) (entries : list (string * node))
         (repo_name : string),
    well_formed (Dir err entries) ->
    let root := Dir err entries in
    ((exists lines, generate_directory_tree (tmpdir root) repo_name = Ok lines)
     <-> readable root)
    /\ (forall e, generate_directory_tree (tmpdir root) repo_name = Raise e ->
                  exn_class_of e = OSError).
Proof.
  intros err entries repo_name Hwf root. subst root.
  split; [apply generate_ok_iff_readable; exact Hwf|].
  intros e; apply generate_raises_OSError.
Qed.

Lemma tree_needs_every_listing_witness :
  well_formed sample_tree
  /\ exists lines, generate_directory_tree (tmpdir sample_tree) "repo" = Ok lines.
Proof.
  split; [exact sample_tree_well_formed|].
  exact (proj2 (proj1 (tree_needs_every_listing None _ "repo" sample_tree_well_formed))
               sample_tree_readable).
Defined.

(* ----------------------------------------------------------------- *)
(** ** The prefix of the tree lines *)

Lemma for_enumerate_prefix (rec : path -> string -> result (list string))
      (pre : string) (p : path) (prefix : string) (n : Z) :
  (forall q x, rec q (pre ++ x) = map_lines (String.append pre) (rec q x)) ->
  forall items i lines,
    for_enumerate items i (tree_body rec p (pre ++ prefix) n)
                  (map (String.append pre) lines)
    = map_lines (String.append pre)
                (for_enumerate items i (tree_body rec p prefix n) lines).
Proof.
  intros Hrec. induction items as [|item rest IH]; intros i lines;
    [reflexivity|].
  cbn [for_enumerate]. unfold tree_body at 1 3.
  destruct (os_path_isdir (os_path_join p item)).
  - assert (Hext : (if (i =? n - 1)%Z then (pre ++ prefix) ++ continue_blank
                    else (pre ++ prefix) ++ continue_bar)
                   = pre ++ (if (i =? n - 1)%Z then prefix ++ continue_blank
                             else prefix ++ continue_bar)).
    { destruct (i =? n - 1)%Z; apply append_assoc. }
    rewrite Hext, Hrec.
    destruct (rec (os_path_join p item) _) as [sub|e]; [|reflexivity].
    cbn [map_lines bindR]. rewrite <- IH. f_equal.
    unfold Py.extend, Py.append. rewrite !map_app. cbn [map].
    rewrite append_assoc. reflexivity.
  - rewrite <- IH. f_equal.
    unfold Py.append. rewrite map_app. cbn [map].
    rewrite append_assoc. reflexivity.
Qed.

Lemma build_fuel_prefix (fuel : nat) :
  forall p pre prefix,
    build_tree_lines_fuel fuel p (pre ++ prefix)
    = map_lines (String.append pre) (build_tree_lines_fuel fuel p prefix).
Proof.
  induction fuel as [|fuel IH]; intros p pre prefix; [reflexivity|].
  rewrite !build_tree_lines_fuel_S.
  destruct (os_listdir p) as [names|e]; [|reflexivity].
  cbn [bindR].
  apply (for_enumerate_prefix (build_tree_lines_fuel fuel) pre p prefix _
           (fun q x => IH q pre x) (sorted names) 0%Z []).
Qed.

(** X10.  The prefix of [build_tree_lines] only indents: the lines under a
    prefix [pre ++ prefix] are the lines under [prefix], each with [pre]
    before it, and the same exception is raised when there is one.  So
    what [generate_directory_tree] puts under the line of the root is the
    tree rendered without prefix, indented by four spaces. *)
Theorem tree_prefix_indents :
  forall (p : path) (pre prefix repo_name : string),
    build_tree_lines p (pre ++ prefix)
    = map_lines (String.append pre) (build_tree_lines p prefix)
    /\ generate_directory_tree p repo_name
       = (sub <~ build_tree_lines p EmptyString ;;
          Ok ("Directory structure:" :: (connector_last ++ repo_name ++ "/")
                :: map (String.append "    ") sub))%res.
Proof.
  intros p pre prefix repo_name. split.
  - apply build_fuel_prefix.
  - unfold generate_directory_tree, build_tree_lines.
    change "    " with ("    " ++ EmptyString) at 1.
    rewrite build_fuel_prefix.
    destruct (build_tree_lines_fuel _ p EmptyString) as [sub|e]; [|reflexivity].
    reflexivity.
Qed.

(* ----------------------------------------------------------------- *)
(** ** The tree does not depend on the order of the listings *)

Lemma StronglySorted_perm_eq (l : list string) :
  forall l',
    StronglySorted name_le l -> StronglySorted name_le l' ->
    Permutation l l' -> l = l'.
Proof.
  induction l as [|a t IH]; intros l' Hl Hl' Hp.
  - apply Permutation_nil in Hp. congruence.
  - destruct l' as [|b t'].
    + apply Permutation_sym, Permutation_nil in Hp. discriminate.
    + inversion Hl as [|? ? Ht Ha]; subst.
      inversion Hl' as [|? ? Ht' Hb]; subst.
      assert (Hab : a = b).
      { assert (Hin : In a (b :: t'))
          by (eapply Permutation_in; [exact Hp | left; reflexivity]).
        assert (Hin' : In b (a :: t))
          by (eapply Permutation_in;
              [apply Permutation_sym; exact Hp | left; reflexivity]).
        destruct Hin as [E | Hin]; [congruence|].
        destruct Hin' as [E | Hin']; [congruence|].
        rewrite Forall_forall in Ha, Hb.
        apply String.leb_antisym; [apply Ha | apply Hb]; assumption. }
      subst b. f_equal. apply IH; auto.
      eapply Permutation_cons_inv; exact Hp.
Qed.

(** [sorted] gives one list for all the orders of the same names. *)
Lemma sorted_perm_unique (l l' : list string) :
  Permutation l l' -> sorted l = sorted l'.
Proof.
  intros Hp. apply StronglySorted_perm_eq; try apply sorted_StronglySorted.
  eapply perm_trans; [apply Permutation_sym, sorted_perm|].
  eapply perm_trans; [exact Hp | apply sorted_perm].
Qed.

Lemma build_fuel_same_tree (fuel : nat) :
  forall p p' n n' prefix,
    target p = Some n -> target p' = Some n' ->
    same_tree n n' -> well_formed n -> well_formed n' ->
    build_tree_lines_fuel fuel p prefix = build_tree_lines_fuel fuel p' prefix.
Proof.
  induction fuel as [|fuel IH]; intros p p' n n' prefix Ht Ht' Hsame Hwf Hwf';
    [reflexivity|].
  rewrite !build_tree_lines_fuel_S. unfold os_listdir. rewrite Ht, Ht'.
  destruct Hsame as [f f' | err entries entries' Hnames Hsub]; [reflexivity|].
  destruct err as [msg|]; [reflexivity|].
  apply well_formed_Dir in Hwf. destruct Hwf as [Hnd Hwf].
  apply well_formed_Dir in Hwf'. destruct Hwf' as [Hnd' Hwf'].
  cbn [bindR].
  rewrite <- (sorted_perm_unique _ _ (NoDup_Permutation Hnd Hnd' Hnames)).
  apply for_enumerate_ext. intros i item lines Hin.
  apply (proj1 (sorted_In _ _)) in Hin.
  destruct (lookup_names item entries Hin) as [c Hc].
  destruct (lookup_names item entries' (proj1 (Hnames item) Hin)) as [c' Hc'].
  pose proof (Hsub item c c' Hc Hc') as Hcc.
  unfold tree_body, os_path_isdir.
  assert (Hj : target (os_path_join p item) = Some c)
    by (unfold os_path_join; rewrite Ht; exact Hc).
  assert (Hj' : target (os_path_join p' item) = Some c')
    by (unfold os_path_join; rewrite Ht'; exact Hc').
  rewrite Hj, Hj'.
  pose proof (lookup_Forall _ _ _ _ Hwf Hc) as Hwc.
  pose proof (lookup_Forall _ _ _ _ Hwf' Hc') as Hwc'.
  destruct Hcc as [f f' | err sub sub' H1 H2]; [reflexivity|].
  rewrite (IH (os_path_join p item) (os_path_join p' item) _ _ _ Hj Hj'
              (same_dir err sub sub' H1 H2) Hwc Hwc').
  reflexivity.
Qed.

(** X11.  The directory tree does not depend on the order in which the
    operating system lists the entries of a directory, nor on what the
    files hold: two trees with the same names in every directory give the
    same lines, or raise the same exception. *)
Theorem tree_ignores_listing_order :
  forall (n n' : node) (prefix repo_name : string),
    same_tree n n' -> well_formed n -> well_formed n' ->
    build_tree_lines (tmpdir n) prefix = build_tree_lines (tmpdir n') prefix
    /\ generate_directory_tree (tmpdir n) repo_name
       = generate_directory_tree (tmpdir n') repo_name.
Proof.
  intros n n' prefix repo_name Hsame Hwf Hwf'.
  assert (H : forall x, build_tree_lines (tmpdir n) x = build_tree_lines (tmpdir n') x).
  { intros x. unfold build_tree_lines.
    rewrite (build_tree_lines_fuel_enough _
               (S (Nat.max (height n) (height n'))) (tmpdir n) x)
      by (unfold path_height; cbn [tmpdir target]; lia).
    rewrite (build_tree_lines_fuel_enough (S (path_height (tmpdir n')))
               (S (Nat.max (height n) (height n'))) (tmpdir n') x)
      by (unfold path_height; cbn [tmpdir target]; lia).
    apply (build_fuel_same_tree _ _ _ n n'); auto. }
  split; [apply H|].
  unfold generate_directory_tree. rewrite H. reflexivity.
Qed.

Lemma listed_same_tree : same_tree listed_one_way listed_another_way.
Proof.
  apply same_dir.
  - intros name. simpl. tauto.
  - intros name c c'.
    destruct (String.eqb_spec name "b.txt") as [-> | Hb].
    + intros Hc Hc'. inversion Hc; inversion Hc'. constructor.
    + destruct (String.eqb_spec name "a") as [-> | Ha].
      * intros Hc Hc'. inversion Hc; inversion Hc'. apply same_dir.
        -- intros name'. simpl. tauto.
        -- intros name' d d'.
           destruct (String.eqb_spec name' "y") as [-> | Hy].
           ++ intros Hd Hd'. inversion Hd; inversion Hd'. constructor.
           ++ destruct (String.eqb_spec name' "x") as [-> | Hx].
              ** intros Hd Hd'. inversion Hd; inversion Hd'. constructor.
              ** simpl. apply String.eqb_neq in Hy, Hx. rewrite Hy, Hx.
                 discriminate.
      * simpl. apply String.eqb_neq in Hb, Ha. rewrite Hb, Ha. discriminate.
Qed.

Lemma listed_well_formed : well_formed listed_one_way /\ well_formed listed_another_way.
Proof.
  split; simpl; repeat split;
    repeat (constructor; [simpl; intuition discriminate|]); constructor.
Qed.

Lemma tree_ignores_listing_order_witness :
  same_tree listed_one_way listed_another_way
  /\ well_formed listed_one_way /\ well_formed listed_another_way
  /\ generate_directory_tree (tmpdir listed_one_way) "repo"
     = generate_directory_tree (tmpdir listed_another_way) "repo".
Proof.
  split; [exact listed_same_tree|].
  split; [exact (proj1 listed_well_formed)|].
  split; [exact (proj2 listed_well_formed)|].
  exact (proj2 (tree_ignores_listing_order _ _ EmptyString "repo" listed_same_tree
                  (proj1 listed_well_formed) (proj2 listed_well_formed))).
Defined.

(* ----------------------------------------------------------------- *)
(** ** [main]: how it ends and what it leaves *)

Lemma write_lines_text (tree_lines : list string) (text : string) :
  write_lines tree_lines text = text ++ tree_text tree_lines.
Proof.
  unfold write_lines, tree_text. revert text.
  induction tree_lines as [|line rest IH]; intros text; simpl.
  - rewrite append_nil_r. reflexivity.
  - rewrite IH, append_assoc. reflexivity.
Qed.

Lemma walked_DiskDir err entries :
  walked (DiskDir err entries)
  = Dir err (map (fun e => (fst e, walked (snd e))) entries).
Proof.
  simpl. f_equal. induction entries as [|[name c] l IH]; simpl; [reflexivity|].
  rewrite IH. reflexivity.
Qed.

(** The names of a directory are the same to the walk and to the calls
    that follow links. *)
Lemma walked_well_formed (d : disk) :
  well_formed (followed d) -> well_formed (walked d).
Proof.
  induction d as [f | err entries IH | | t IH] using disk_induction.
  - exact (fun H => H).
  - rewrite followed_DiskDir, walked_DiskDir, !well_formed_Dir.
    rewrite !map_map. cbn [fst]. intros [Hnd Hwf]. split; [exact Hnd|].
    unfold entry_nodes in *. rewrite map_map in *. cbn [snd] in *.
    clear Hnd. induction entries as [|[name c] l IHl]; [constructor|].
    cbn [map snd] in *. inversion IH; subst. inversion Hwf; subst.
    constructor; auto.
  - exact (fun H => H).
  - intros _. simpl. destruct (followed t); simpl; [exact I|].
    split; [constructor | exact I].
Qed.



(** [main] when every call succeeds. *)
Lemma main_success (a : args) (os : env) (tmpdirname : string) (root : disk)
      (tree_lines : list string) :
  makedirs os (output_dir a os) = None ->
  mkdtemp os = inl tmpdirname ->
  git_clone os (repo_url a) = Cloned root ->
  well_formed (followed root) ->
  generate_directory_tree (tmpdir (followed root)) (get_repo_name (repo_url a))
  = Ok tree_lines ->
  open_w os (dir_structure_path a os) = None ->
  open_w os (global_file a os) = None ->
  main a os
  = (Returned,
     mk_system
       (List.app [cloning_message tmpdirname;
                  tree_saved_message (dir_structure_path a os)]
                 (List.app (console_of (normalize_extensions (exclude_ext a))
                                       (max_file_size a) (walked root))
                           [contents_saved_message (global_file a os)]))
       [output_dir a os]
       (file_set os (global_file a os)
                 (contents_of (normalize_extensions (exclude_ext a))
                              (max_file_size a) (walked root))
                 (file_set os (dir_structure_path a os) (tree_text tree_lines)
                           []))).
Proof.
  intros Hmk Htmp Hclone Hwf Hgen Ho1 Ho2. unfold main.
  apply walked_well_formed in Hwf.
  rewrite Hmk, Htmp, Hclone, Hgen, Ho1, Ho2.
  cbn [sys_print console made_dirs files].
  match goal with
  | |- context [concatenate ?e ?m ?p ?w0] =>
      pose proof (concatenate_contents e m (walked root) w0 Hwf) as [Hn Hc];
      pose proof (concatenate_console e m (walked root) w0 Hwf) as Hs;
      destruct (concatenate e m p w0) as [o w]
  end.
  cbn [fst snd stdout global_out] in Hn, Hc, Hs. subst o.
  unfold sys_print. cbn [console made_dirs files].
  rewrite Hs, Hc, write_lines_text. unfold Py.append.
  cbn [List.app String.append]. reflexivity.
Qed.

(** [main] returns only when every call succeeded. *)
Lemma main_returned_inv (a : args) (os : env) :
  fst (main a os) = Returned ->
  makedirs os (output_dir a os) = None
  /\ open_w os (dir_structure_path a os) = None
  /\ open_w os (global_file a os) = None
  /\ exists tmpdirname root tree_lines,
       mkdtemp os = inl tmpdirname
       /\ git_clone os (repo_url a) = Cloned root
       /\ generate_directory_tree (tmpdir (followed root))
                                  (get_repo_name (repo_url a))
          = Ok tree_lines.
Proof.
  unfold main.
  destruct (makedirs os (output_dir a os)) as [msg|]; [discriminate|].
  destruct (mkdtemp os) as [tmpdirname|msg]; [|discriminate].
  destruct (git_clone os (repo_url a)) as [root|msg|msg] eqn:Hclone;
    try discriminate.
  destruct (generate_directory_tree (tmpdir (followed root))
                                    (get_repo_name (repo_url a)))
    as [tree_lines|e] eqn:Hgen; [|discriminate].
  destruct (open_w os (dir_structure_path a os)) as [msg|]; [discriminate|].
  destruct (open_w os (global_file a os)) as [msg|]; [discriminate|].
  intros _. do 3 (split; [reflexivity|]).
  exists tmpdirname, root, tree_lines. auto.
Qed.

(** X12.  [main] returns normally exactly when the output directory can
    be made, the temporary directory can be made, [git clone] succeeds,
    every directory of the clone, those that symbolic links lead to
    included, can be listed, and the tree file and the contents file can
    be opened for writing.  The statement is for clones whose names are
    valid UTF-8, which can be written to the output files; the recursion
    limit of the interpreter, which a tree about a thousand directories
    deep exceeds, and a console that refuses a character are not
    modelled. *)
Theorem main_returns_iff :
  forall (a : args) (os : env),
    (forall root, git_clone os (repo_url a) = Cloned root -> is_clone root) ->
    (fst (main a os) = Returned
     <-> makedirs os (output_dir a os) = None
         /\ (exists tmpdirname, mkdtemp os = inl tmpdirname)
         /\ (exists root, git_clone os (repo_url a) = Cloned root
                          /\ readable (followed root))
         /\ open_w os (dir_structure_path a os) = None
         /\ open_w os (global_file a os) = None).
Proof.
  intros a os Hclone. split.
  - intros H. apply main_returned_inv in H.
    destruct H as [Hmk [Ho1 [Ho2 [t [root [lines [Ht [Hc Hg]]]]]]]].
    repeat split; eauto.
    exists root. split; [exact Hc|].
    destruct (Hclone root Hc) as [Hwf [_ [err [entries ->]]]].
    rewrite followed_DiskDir in *.
    apply (generate_ok_iff_readable err _ (get_repo_name (repo_url a)) Hwf).
    eauto.
  - intros [Hmk [[t Ht] [[root [Hc Hread]] [Ho1 Ho2]]]].
    destruct (Hclone root Hc) as [Hwf [_ [err [entries Hroot]]]].
    assert (Hg : exists lines,
               generate_directory_tree (tmpdir (followed root))
                                       (get_repo_name (repo_url a)) = Ok lines).
    { subst root. rewrite followed_DiskDir in *.
      apply (generate_ok_iff_readable err _ _ Hwf). exact Hread. }
    destruct Hg as [lines Hg].
    rewrite (main_success a os t _ lines Hmk Ht Hc Hwf Hg Ho1 Ho2).
    reflexivity.
Qed.

Lemma sample_env_clone (url : string) :
  forall root, git_clone sample_env url = Cloned root -> is_clone root.
Proof.
  intros root H. inversion H; subst root. split; [|split].
  - exact sample_tree_well_formed.
  - reflexivity.
  - eexists. eexists. reflexivity.
Qed.

Lemma main_returns_iff_witness :
  fst (main (default_args "https://host/user/repo.git") sample_env) = Returned.
Proof.
  apply (proj2 (main_returns_iff (default_args "https://host/user/repo.git")
                  sample_env (sample_env_clone _))).
  split; [reflexivity|]. split; [eexists; reflexivity|].
  split; [exists sample_disk; split; [reflexivity | exact sample_tree_readable]|].
  split; reflexivity.
Defined.



(** X14.  When [main] does not return normally, the contents file has not
    been opened: nothing was written, or the tree file alone when it is
    the opening of the contents file that failed.  The only exit status is
    1, for a [git clone] that exits with an error, after the error line on
    the console and with the output directory already made; every other
    failure is an [OSError] that no statement catches (the recursion limit
    of the interpreter is not modelled). *)
Theorem main_failure :
  forall (a : args) (os : env),
    fst (main a os) <> Returned ->
    let s := snd (main a os) in
    (files s = []
     \/ (open_w os (global_file a os) <> None
         /\ exists tree_lines,
              files s = [(dir_structure_path a os, tree_text tree_lines)]))
    /\ (forall code, fst (main a os) = Exited code ->
          code = 1%Z
          /\ files s = [] /\ made_dirs s = [output_dir a os]
          /\ exists tmpdirname msg,
               git_clone os (repo_url a) = CloneExits msg
               /\ console s = [cloning_message tmpdirname; clone_error_message msg])
    /\ (forall e, fst (main a os) = Uncaught e -> exn_class_of e = OSError).
Proof.
  intros a os. unfold main.
  destruct (makedirs os (output_dir a os)) as [msg|];
    [intros _; cbn; repeat split; try (left; reflexivity); try discriminate;
     intros e H; inversion H; reflexivity|].
  destruct (mkdtemp os) as [tmpdirname|msg];
    [|intros _; cbn; repeat split; try (left; reflexivity); try discriminate;
      intros e H; inversion H; reflexivity].
  destruct (git_clone os (repo_url a)) as [root|msg|msg] eqn:Hclone.
  - destruct (generate_directory_tree (tmpdir (followed root))
                                      (get_repo_name (repo_url a)))
      as [tree_lines|e0] eqn:Hgen.
    + destruct (open_w os (dir_structure_path a os)) as [msg|];
        [intros _; cbn; repeat split; try (left; reflexivity); try discriminate;
         intros e H; inversion H; reflexivity|].
      destruct (open_w os (global_file a os)) as [msg|] eqn:Ho2.
      * intros _. cbn. split; [|split; [discriminate|]].
        -- right. split; [discriminate|]. exists tree_lines.
           rewrite write_lines_text. reflexivity.
        -- intros e H; inversion H; reflexivity.
      * match goal with
        | |- context [concatenate ?e ?m ?p ?w0] =>
            pose proof (concatenate_normal e m p w0) as Hn;
            destruct (concatenate e m p w0) as [o w]
        end.
        cbn [fst] in Hn. subst o. cbn. intros H. contradiction H. reflexivity.
    + intros _. cbn. split; [left; reflexivity|]. split; [discriminate|].
      intros e H. inversion H; subst e0.
      exact (generate_raises_OSError _ _ _ Hgen).
  - intros _. cbn. split; [left; reflexivity|]. split; [|discriminate].
    intros code H. inversion H. repeat split. eauto.
  - intros _; cbn; repeat split; try (left; reflexivity); try discriminate;
      intros e H; inversion H; reflexivity.
Qed.

Lemma main_failure_witness :
  fst (main (default_args "https://host/user/repo.git") no_clone_env) = Exited 1
  /\ files (snd (main (default_args "https://host/user/repo.git") no_clone_env)) = []
  /\ made_dirs (snd (main (default_args "https://host/user/repo.git") no_clone_env))
     = ["/home/user/repo"].
Proof.
  pose proof (main_failure (default_args "https://host/user/repo.git") no_clone_env)
    as H.
  assert (Hne : fst (main (default_args "https://host/user/repo.git") no_clone_env)
                <> Returned) by (vm_compute; discriminate).
  destruct (H Hne) as [_ [Hexit _]].
  destruct (Hexit 1%Z eq_refl) as [_ [Hf [Hd _]]].
  split; [reflexivity|]. split; [exact Hf | exact Hd].
Defined.

(* ----------------------------------------------------------------- *)
(** ** A file named [.git] *)

Lemma join_all_In {X} (g : X -> string) (x : X) (l : list X) :
  In x l ->
  exists before after, join_all (map g l) = before ++ g x ++ after.
Proof.
  induction l as [|y l IH]; intros Hin; [destruct Hin|].
  destruct Hin as [-> | Hin].
  - exists EmptyString, (join_all (map g l)). reflexivity.
  - destruct (IH Hin) as [before [after E]].
    exists (g y ++ before), after. simpl. rewrite E, append_assoc. reflexivity.
Qed.

Lemma nondir_names entries name f :
  In (name, File f) entries ->
  In name (map fst (filter (fun e => negb (entry_is_dir e)) entries)).
Proof.
  intros Hin. apply in_map_iff. exists (name, File f). split; [reflexivity|].
  apply filter_In. split; [exact Hin | reflexivity].
Qed.

(** X15.  Only directories named [.git] are left out of the walk: a file
    named [.git] at the root of the clone (the link a submodule or a
    worktree has there) has the empty extension, which no exclusion list
    holds, and its block is written to the contents file, under the header
    [File: .git], when no size limit is given. *)
Theorem git_file_is_written :
  forall (exts : list string) (entries : list (string * node)) (f : file_info)
         (w : world),
    well_formed (Dir None entries) ->
    In (".git", File f) entries ->
    let root := Dir None entries in
    os_path_relpath (os_path_join (tmpdir root) ".git") = ".git"
    /\ exists before after,
         global_out (snd (concatenate (normalize_extensions exts) None (tmpdir root) w))
         = global_out w
           ++ before ++ file_block (os_path_join (tmpdir root) ".git") ++ after.
Proof.
  intros exts entries f w Hwf Hin root. split; [reflexivity|].
  subst root.
  rewrite (proj2 (concatenate_contents (normalize_extensions exts) None _ w Hwf)).
  unfold contents_of. rewrite walk_visits_Dir. cbn [map join_all fold_right].
  assert (Hpass : passes_checks (normalize_extensions exts) None
                    (mk_path [] (Some (Dir None entries))) ".git" = true).
  { unfold passes_checks. rewrite andb_true_r. apply negb_true_iff.
    destruct (extension_excluded (normalize_extensions exts) (file_ext_of ".git"))
      eqn:E; [|reflexivity].
    apply extension_excluded_In in E.
    pose proof (normalized_starts_with_dot exts) as Hdot.
    rewrite Forall_forall in Hdot. destruct (Hdot _ E) as [r Hr].
    vm_compute in Hr. discriminate. }
  unfold visit_blocks at 1. cbn [fst snd].
  destruct (join_all_In
              (fun file => file_block (os_path_join (mk_path [] (Some (Dir None entries))) file))
              ".git"
              (filter (passes_checks (normalize_extensions exts) None
                         (mk_path [] (Some (Dir None entries))))
                      (map fst (filter (fun e => negb (entry_is_dir e)) entries))))
    as [before [after E]].
  { apply filter_In. split; [|exact Hpass]. eapply nondir_names; exact Hin. }
  rewrite E. exists before. eexists.
  unfold tmpdir. rewrite !append_assoc. reflexivity.
Qed.

Lemma submodule_tree_well_formed : well_formed submodule_tree.
Proof.
  simpl. repeat split; auto;
    repeat (constructor; [simpl; intuition discriminate|]); constructor.
Qed.

Lemma git_file_is_written_witness :
  well_formed submodule_tree
  /\ exists before after,
       global_out (snd (concatenate (normalize_extensions ["git"]) None
                                    (tmpdir submodule_tree) empty_world))
       = before ++ file_block (os_path_join (tmpdir submodule_tree) ".git") ++ after.
Proof.
  split; [exact submodule_tree_well_formed|].
  exact (proj2 (git_file_is_written ["git"] _ _ empty_world submodule_tree_well_formed
                  (or_introl eq_refl))).
Defined.

(* ----------------------------------------------------------------- *)
(** ** The exclusion list is read as a set *)

Lemma os_walk_fuel_ext (fuel : nat)
      (body body' : path -> list string -> list string -> M (list string)) :
  (forall top dirs files w, body top dirs files w = body' top dirs files w) ->
  forall top w, os_walk_fuel fuel top body w = os_walk_fuel fuel top body' w.
Proof.
  intros Hbody. induction fuel as [|fuel IH]; intros top w; [reflexivity|].
  rewrite !os_walk_fuel_S.
  destruct (scandir top) as [[dirs nondirs]|e]; [|reflexivity].
  rewrite Hbody.
  destruct (body' top dirs nondirs w) as [[dirs'|e|] w']; try reflexivity.
  apply for_each_ext. intros dirname _ w2. apply IH.
Qed.

Lemma extension_excluded_same (excl excl' : list string) (ext : string) :
  (forall e, In e excl <-> In e excl') ->
  extension_excluded excl ext = extension_excluded excl' ext.
Proof.
  intros Hsame.
  destruct (extension_excluded excl ext) eqn:E.
  - symmetry. apply extension_excluded_In, Hsame, extension_excluded_In. exact E.
  - destruct (extension_excluded excl' ext) eqn:E'; [|reflexivity].
    apply extension_excluded_In, Hsame, extension_excluded_In in E'. congruence.
Qed.

(** X16.  The exclusion list is read as a set of normalised extensions:
    two lists that normalise to the same extensions, whatever the order,
    the repetitions, the case of the letters and the leading dots of their
    entries, give the same console and the same contents file.  The
    statement is for extensions and file names that are ASCII, on which
    [str.lower] changes the letters [A]-[Z] only. *)
Theorem exclusion_list_as_set :
  forall (exts exts' : list string) (max : option pyfloat) (root : node)
         (w : world),
    forallb is_ascii exts = true ->
    forallb is_ascii exts' = true ->
    names_all is_ascii root = true ->
    (forall e, In e (normalize_extensions exts)
               <-> In e (normalize_extensions exts')) ->
    concatenate (normalize_extensions exts) max (tmpdir root) w
    = concatenate (normalize_extensions exts') max (tmpdir root) w.
Proof.
  intros exts exts' max root w _ _ _ Hsame.
  unfold concatenate, os_walk. apply os_walk_fuel_ext.
  intros top dirs files0 w0. rewrite !walk_body_run. f_equal. f_equal.
  apply for_each_ext. intros file _ w1.
  rewrite !process_file_report. unfold skip_report.
  rewrite (extension_excluded_same _ _ (file_ext_of file) Hsame).
  reflexivity.
Qed.

Lemma exclusion_list_as_set_witness :
  concatenate (normalize_extensions ["py"; ".MD"; ".Py"; "md"]) None
              (tmpdir sample_tree) empty_world
  = concatenate (normalize_extensions [".md"; ".py"]) None
                (tmpdir sample_tree) empty_world.
Proof.
  apply exclusion_list_as_set; try reflexivity. intros e. simpl. tauto.
Defined.
